(** * Overlay transform and layer-compositing engine

    A shallow embedding of the overlay state ([window.ImageOverlayState]) and
    of the layer stack ([window.LayerManager]) of the chat screenshot
    compositor, with the properties of its bounds calculator, zoom handlers,
    snapping, persistence and layer stack.

    JavaScript numbers are modelled as exact rationals ([Q]); NaN, the
    infinities and rounding are outside the model.  Equality of computed
    numbers is therefore stated with [==] ([Qeq]). *)

From Stdlib Require Import QArith Qminmax Qabs Qround Lqa Sorted.
From stdpp Require Import base option list strings pretty gmap.

(** ** JavaScript numbers *)

Module JS.
Local Open Scope Q_scope.

(** A number is falsy exactly when it is zero. *)
Definition truthy (q : Q) : bool := negb (Qeq_bool q 0).

(** [a || b] on numbers. *)
Definition or (a b : Q) : Q := if truthy a then a else b.

(** [a < b] and [a > b]. *)
Definition lt (a b : Q) : bool := negb (Qle_bool b a).
Definition gt (a b : Q) : bool := lt b a.

Definition Math_min : Q -> Q -> Q := Qmin.
Definition Math_max : Q -> Q -> Q := Qmax.
Definition Math_abs : Q -> Q := Qabs.

End JS.

(** ** Layer identifiers

    [generateLayerId] builds the string [layer_<Date.now()>_<counter>]; the
    two decimal fields determine the string and are kept as a pair. *)

Record LayerId := mkLayerId { stamp : N; serial : N }.

#[global] Instance LayerId_eq_dec : EqDecision LayerId.
Proof. solve_decision. Defined.

(** ** The part of the DOM the engine reads *)

Record Element := mkElement {
  offsetWidth : Q;
  offsetHeight : Q;
  rect_left : Q;                       (* getBoundingClientRect().left *)
  rect_top : Q;                        (* getBoundingClientRect().top *)
  dataset_layerId : option LayerId     (* dataset.layerId, when set *)
}.

Record Document := mkDocument {
  overlayImage : option Element;           (* getElementById('overlayImage') *)
  imageDropzone : option Element;          (* getElementById('imageDropzone') *)
  chatOverlayContainer : option Element    (* querySelector('.chat-overlay-container') *)
}.

Record WheelEvent := mkWheelEvent {
  deltaY : Q;
  clientX : Q;
  clientY : Q;
  ctrlKey : bool;
  metaKey : bool
}.

(** ** Overlay state *)

Record Transform := mkTransform { t_x : Q; t_y : Q; t_scale : Q }.
Record Point := mkPoint { p_x : Q; p_y : Q }.
Record Dimensions := mkDimensions { width : Q; height : Q }.
Record Bounds := mkBounds { minX : Q; maxX : Q; minY : Q; maxY : Q }.

Module ImageOverlay.
Local Open Scope Q_scope.

Definition ZOOM_MIN_SCALE : Q := 0.1.
Definition ZOOM_MAX_SCALE : Q := 5.0.
Definition DEFAULT_SCALE : Q := 1.0.
Definition DEFAULT_DROPZONE_WIDTH : Q := 800.
Definition DEFAULT_DROPZONE_HEIGHT : Q := 600.
Definition BOUNDS_FALLBACK : Bounds :=
  {| minX := -10000; maxX := 10000; minY := -10000; maxY := 10000 |}.

(** The fields of [window.ImageOverlayState] that the modelled operations
    read or write.  [lineTransforms] is keyed by line index. *)
Record State := mkState {
  imageTransform : Transform;
  isImageDraggingEnabled : bool;
  displayDimensions : Dimensions;
  basePosition : Point;
  chatTransform : Transform;
  isChatDraggingEnabled : bool;
  lineTransforms : gmap nat Point;
  snapEnabled : bool;
  snapThreshold : Q;
  dropZoneWidth : Q;
  dropZoneHeight : Q;
  domCache_dropzone : option Element      (* _domCache.dropzone *)
}.

(** The object literal assigned to [window.ImageOverlayState]. *)
Definition initial : State :=
  {| imageTransform := mkTransform 0 0 DEFAULT_SCALE;
     isImageDraggingEnabled := true;
     displayDimensions := mkDimensions 0 0;
     basePosition := mkPoint 0 0;
     chatTransform := mkTransform 0 0 DEFAULT_SCALE;
     isChatDraggingEnabled := true;
     lineTransforms := ∅;
     snapEnabled := true;
     snapThreshold := 20;
     dropZoneWidth := DEFAULT_DROPZONE_WIDTH;
     dropZoneHeight := DEFAULT_DROPZONE_HEIGHT;
     domCache_dropzone := None |}.

Definition set_imageTransform (t : Transform) (st : State) : State :=
  {| imageTransform := t;
     isImageDraggingEnabled := isImageDraggingEnabled st;
     displayDimensions := displayDimensions st;
     basePosition := basePosition st;
     chatTransform := chatTransform st;
     isChatDraggingEnabled := isChatDraggingEnabled st;
     lineTransforms := lineTransforms st;
     snapEnabled := snapEnabled st;
     snapThreshold := snapThreshold st;
     dropZoneWidth := dropZoneWidth st;
     dropZoneHeight := dropZoneHeight st;
     domCache_dropzone := domCache_dropzone st |}.

Definition set_chatTransform (t : Transform) (st : State) : State :=
  {| imageTransform := imageTransform st;
     isImageDraggingEnabled := isImageDraggingEnabled st;
     displayDimensions := displayDimensions st;
     basePosition := basePosition st;
     chatTransform := t;
     isChatDraggingEnabled := isChatDraggingEnabled st;
     lineTransforms := lineTransforms st;
     snapEnabled := snapEnabled st;
     snapThreshold := snapThreshold st;
     dropZoneWidth := dropZoneWidth st;
     dropZoneHeight := dropZoneHeight st;
     domCache_dropzone := domCache_dropzone st |}.

Definition set_snapEnabled (b : bool) (st : State) : State :=
  {| imageTransform := imageTransform st;
     isImageDraggingEnabled := isImageDraggingEnabled st;
     displayDimensions := displayDimensions st;
     basePosition := basePosition st;
     chatTransform := chatTransform st;
     isChatDraggingEnabled := isChatDraggingEnabled st;
     lineTransforms := lineTransforms st;
     snapEnabled := b;
     snapThreshold := snapThreshold st;
     dropZoneWidth := dropZoneWidth st;
     dropZoneHeight := dropZoneHeight st;
     domCache_dropzone := domCache_dropzone st |}.

Definition with_scale (s : Q) (t : Transform) : Transform :=
  {| t_x := t_x t; t_y := t_y t; t_scale := s |}.

(** [calculateMinScale]: the image is rendered at its fitted size, so 1.0. *)
Definition calculateMinScale (st : State) : Q := 1.0.

(** [this._domCache.dropzone || document.getElementById(DOM_IDS.dropzone)] *)
Definition resolveDropzone (st : State) (doc : Document) : option Element :=
  match domCache_dropzone st with
  | Some d => Some d
  | None => imageDropzone doc
  end.

(** [calculateImageBounds]: the legal translation range of the image at the
    current scale. *)
Definition calculateImageBounds (st : State) (doc : Document) : Bounds :=
  match overlayImage doc with
  | None => BOUNDS_FALLBACK
  | Some img =>
    let displayWidth := JS.or (width (displayDimensions st)) (offsetWidth img) in
    let displayHeight := JS.or (height (displayDimensions st)) (offsetHeight img) in
    if negb (JS.truthy displayWidth) || negb (JS.truthy displayHeight)
    then BOUNDS_FALLBACK
    else
      match resolveDropzone st doc with
      | None => BOUNDS_FALLBACK
      | Some dropzone =>
        let dropzoneWidth := JS.or (offsetWidth dropzone) (dropZoneWidth st) in
        let dropzoneHeight := JS.or (offsetHeight dropzone) (dropZoneHeight st) in
        let imageCenterX := p_x (basePosition st) + displayWidth / 2 in
        let imageCenterY := p_y (basePosition st) + displayHeight / 2 in
        let scaledWidth := displayWidth * t_scale (imageTransform st) in
        let scaledHeight := displayHeight * t_scale (imageTransform st) in
        let leftEdgeLimit := JS.Math_min 0 (- (scaledWidth - dropzoneWidth)) in
        let minX := leftEdgeLimit - imageCenterX + scaledWidth / 2 in
        let rightEdgeLimit := JS.Math_max dropzoneWidth scaledWidth in
        let maxX := rightEdgeLimit - imageCenterX - scaledWidth / 2 in
        let topEdgeLimit := JS.Math_min 0 (- (scaledHeight - dropzoneHeight)) in
        let minY := topEdgeLimit - imageCenterY + scaledHeight / 2 in
        let bottomEdgeLimit := JS.Math_max dropzoneHeight scaledHeight in
        let maxY := bottomEdgeLimit - imageCenterY - scaledHeight / 2 in
        {| minX := minX; maxX := maxX; minY := minY; maxY := maxY |}
      end
  end.

(** The sizes [calculateImageBounds] works with: the stored display size,
    or the element's offset size when the stored one is zero; the dropzone's
    offset size, or the stored dropzone size when that is zero. *)
Definition displayWidthOf (st : State) (img : Element) : Q :=
  JS.or (width (displayDimensions st)) (offsetWidth img).
Definition displayHeightOf (st : State) (img : Element) : Q :=
  JS.or (height (displayDimensions st)) (offsetHeight img).
Definition containerWidthOf (st : State) (dropzone : Element) : Q :=
  JS.or (offsetWidth dropzone) (dropZoneWidth st).
Definition containerHeightOf (st : State) (dropzone : Element) : Q :=
  JS.or (offsetHeight dropzone) (dropZoneHeight st).

(** Edges of the scaled element on one axis when it is translated by [t]:
    [center + t - scaled/2] (left, top) and [center + t + scaled/2] (right,
    bottom), as in the comments of [calculateImageBounds]. *)
Definition lowEdge (center scaled t : Q) : Q := center + t - scaled / 2.
Definition highEdge (center scaled t : Q) : Q := center + t + scaled / 2.

(** The frame callback of [updateImageTransform]: re-clamps the scale, then
    the translation, before the CSS transform is written. *)
Definition updateImageTransform (st : State) (doc : Document) : State :=
  match overlayImage doc with
  | None => st
  | Some _ =>
    let minScale := calculateMinScale st in
    let constrainedScale :=
      JS.Math_max minScale (JS.Math_min 5 (t_scale (imageTransform st))) in
    let st1 := set_imageTransform (with_scale constrainedScale (imageTransform st)) st in
    let bounds := calculateImageBounds st1 doc in
    let constrainedX :=
      JS.Math_max (minX bounds) (JS.Math_min (maxX bounds) (t_x (imageTransform st1))) in
    let constrainedY :=
      JS.Math_max (minY bounds) (JS.Math_min (maxY bounds) (t_y (imageTransform st1))) in
    set_imageTransform (mkTransform constrainedX constrainedY constrainedScale) st1
  end.

(** Where the image point at offset [p] from the image centre is drawn, in
    dropzone coordinates: the element sits at [basePosition], its
    transform-origin is its centre and its transform is
    [translate(x, y) scale(s)]. *)
Definition screenX (st : State) (p : Q) : Q :=
  p_x (basePosition st) + width (displayDimensions st) / 2
  + t_x (imageTransform st) + t_scale (imageTransform st) * p.

Definition screenY (st : State) (p : Q) : Q :=
  p_y (basePosition st) + height (displayDimensions st) / 2
  + t_y (imageTransform st) + t_scale (imageTransform st) * p.

(** The image point (offset from the centre, unscaled) drawn at dropzone
    coordinate [m]. *)
Definition pointAtX (st : State) (m : Q) : Q :=
  (m - (p_x (basePosition st) + width (displayDimensions st) / 2)
     - t_x (imageTransform st)) / t_scale (imageTransform st).

Definition pointAtY (st : State) (m : Q) : Q :=
  (m - (p_y (basePosition st) + height (displayDimensions st) / 2)
     - t_y (imageTransform st)) / t_scale (imageTransform st).

(** Pointer position relative to the dropzone, as the wheel handler reads it. *)
Definition mouseX (dropzone : Element) (e : WheelEvent) : Q := clientX e - rect_left dropzone.
Definition mouseY (dropzone : Element) (e : WheelEvent) : Q := clientY e - rect_top dropzone.

(** [mouseRelX], [mouseRelY] of the wheel handler. *)
Definition mouseRelX (st : State) (dropzone : Element) (e : WheelEvent) : Q :=
  mouseX dropzone e
  - (p_x (basePosition st) + width (displayDimensions st) / 2)
  - t_x (imageTransform st).

Definition mouseRelY (st : State) (dropzone : Element) (e : WheelEvent) : Q :=
  mouseY dropzone e
  - (p_y (basePosition st) + height (displayDimensions st) / 2)
  - t_y (imageTransform st).

(** [e.deltaY > 0 ? 0.9 : 1.1] *)
Definition wheelFactor (e : WheelEvent) : Q :=
  if JS.gt (deltaY e) 0 then 0.9 else 1.1.

(** Chat branch of the wheel handler. *)
Definition wheelChat (st : State) (e : WheelEvent) : State :=
  let delta := wheelFactor e in
  let newScale :=
    JS.Math_max ZOOM_MIN_SCALE
      (JS.Math_min ZOOM_MAX_SCALE (t_scale (chatTransform st) * delta)) in
  set_chatTransform (with_scale newScale (chatTransform st)) st.

(** New image scale chosen by the wheel handler. *)
Definition wheelImageScale (st : State) (e : WheelEvent) : Q :=
  JS.Math_max (calculateMinScale st)
    (JS.Math_min ZOOM_MAX_SCALE (t_scale (imageTransform st) * wheelFactor e)).

(** Image branch of the wheel handler. *)
Definition wheelImage (st : State) (dropzone : Element) (e : WheelEvent) : State :=
  let oldScale := t_scale (imageTransform st) in
  let newScale := wheelImageScale st e in
  let relX := mouseRelX st dropzone e in
  let relY := mouseRelY st dropzone e in
  set_imageTransform
    {| t_x := t_x (imageTransform st) + relX * (oldScale - newScale);
       t_y := t_y (imageTransform st) + relY * (oldScale - newScale);
       t_scale := newScale |} st.

(** The wheel listener registered on [dropzone] by [setupMouseHandlers].
    [selected] is [window.LayerManager.selectedLayerId] ([None] when there is
    no manager or no selection).  The state is the one the listener leaves
    when it returns; the frame callbacks it schedules are
    [updateImageTransform] above and style writes. *)
Definition onWheel (st : State) (doc : Document) (dropzone : Element)
    (selected : option LayerId) (e : WheelEvent) : State :=
  match overlayImage doc with
  | None => st
  | Some img =>
    let isChatControl := ctrlKey e || metaKey e in
    let otherLayer :=
      match selected with
      | Some sel =>
        negb isChatControl && negb (bool_decide (dataset_layerId img = Some sel))
      | None => false
      end in
    if otherLayer then st
    else if isChatControl && isChatDraggingEnabled st then wheelChat st e
    else if isImageDraggingEnabled st then wheelImage st dropzone e
    else st
  end.

(** [setChatScale] *)
Definition setChatScale (st : State) (scale : Q) : State :=
  let newScale := JS.Math_max 0.5 (JS.Math_min 2.0 scale) in
  set_chatTransform (with_scale newScale (chatTransform st)) st.

(** [applySnapToEdge] *)
Definition applySnapToEdge (st : State) (doc : Document) (x y : Q) : Point :=
  if negb (snapEnabled st) then mkPoint x y
  else
    match imageDropzone doc, chatOverlayContainer doc with
    | Some dropzone, Some chatOverlay =>
      let threshold := snapThreshold st in
      let dropzoneWidth := offsetWidth dropzone in
      let dropzoneHeight := offsetHeight dropzone in
      let chatWidth := offsetWidth chatOverlay * t_scale (chatTransform st) in
      let chatHeight := offsetHeight chatOverlay * t_scale (chatTransform st) in
      let snappedX := x in
      let snappedY := y in
      let snappedX := if JS.lt (JS.Math_abs x) threshold then 0 else snappedX in
      let snappedX :=
        if JS.lt (JS.Math_abs (x - (dropzoneWidth - chatWidth))) threshold
        then dropzoneWidth - chatWidth else snappedX in
      let snappedX :=
        if JS.lt (JS.Math_abs (x - (dropzoneWidth - chatWidth) / 2)) threshold
        then (dropzoneWidth - chatWidth) / 2 else snappedX in
      let snappedY := if JS.lt (JS.Math_abs y) threshold then 0 else snappedY in
      let snappedY :=
        if JS.lt (JS.Math_abs (y - (dropzoneHeight - chatHeight))) threshold
        then dropzoneHeight - chatHeight else snappedY in
      let snappedY :=
        if JS.lt (JS.Math_abs (y - (dropzoneHeight - chatHeight) / 2)) threshold
        then (dropzoneHeight - chatHeight) / 2 else snappedY in
      mkPoint snappedX snappedY
    | _, _ => mkPoint x y
    end.

(** *** Persistence *)

#[local] Set Warnings "-register-all".

(** A parsed JSON value.  An object's fields are listed with distinct keys. *)
Inductive json :=
  | JNull
  | JBool (b : bool)
  | JNum (q : Q)
  | JStr (s : string)
  | JArr (items : list json)
  | JObj (fields : list (string * json)).

(** Outcome of [localStorage.getItem('overlayChatSettings')]. *)
Inductive getItemResult :=
  | GetThrows
  | GetNull
  | GetString (saved : string).

Fixpoint field (key : string) (fields : list (string * json)) : option json :=
  match fields with
  | [] => None
  | (k, v) :: rest => if String.eqb k key then Some v else field key rest
  end.

Section Persistence.

(** [JSON.parse]; [None] stands for a thrown SyntaxError. *)
Variable JSON_parse : string -> option json.

(** [loadChatSettings]: any exception ends in the [catch] and leaves the
    state as it was. *)
Definition loadChatSettings (st : State) (stored : getItemResult) : State :=
  match stored with
  | GetThrows => st
  | GetNull => st
  | GetString saved =>
    if String.eqb saved "" then st
    else
      match JSON_parse saved with
      | None => st
      | Some JNull => st              (* reading a property of null throws *)
      | Some (JObj fields) =>
        match field "snapEnabled" fields with
        | Some (JBool b) => set_snapEnabled b st
        | _ => st
        end
      | Some _ => st                  (* no such property: undefined *)
      end
  end.

End Persistence.

End ImageOverlay.

(** ** Layer stack ([window.LayerManager]) *)

Module LayerManager.

Inductive LayerType := image | chat.

#[global] Instance LayerType_eq_dec : EqDecision LayerType.
Proof. solve_decision. Defined.

Record Layer := mkLayer {
  id : LayerId;
  name : string;
  type : LayerType;
  imageSrc : option string;
  imageElement : option Element;
  visible : bool;
  locked : bool;
  opacity : Q;
  blur : Q;
  grayscale : bool;
  transform : Transform;
  zIndex : nat
}.

(** The two custom events dispatched on [document], with their [detail]:
    the stack, respectively the selected layer, at the time of dispatch.  The
    optional callbacks set through [onLayerChange] and [onSelectionChange]
    receive the same payloads and are not part of the model. *)
Inductive Signal :=
  | layersChanged (snapshot : list Layer)
  | layerSelectionChanged (selected : option Layer).

(** [layers] and [selectedLayerId] of the manager object, the module-level
    [layerIdCounter], and the events dispatched so far (oldest first). *)
Record Manager := mkManager {
  layers : list Layer;
  selectedLayerId : option LayerId;
  layerIdCounter : N;
  signals : list Signal
}.

(** State when the module has been loaded. *)
Definition fresh : Manager :=
  {| layers := []; selectedLayerId := None; layerIdCounter := 0; signals := [] |}.

Definition set_zIndex (z : nat) (l : Layer) : Layer :=
  {| id := id l; name := name l; type := type l; imageSrc := imageSrc l;
     imageElement := imageElement l; visible := visible l; locked := locked l;
     opacity := opacity l; blur := blur l; grayscale := grayscale l;
     transform := transform l; zIndex := z |}.

Definition set_visible (v : bool) (l : Layer) : Layer :=
  {| id := id l; name := name l; type := type l; imageSrc := imageSrc l;
     imageElement := imageElement l; visible := v; locked := locked l;
     opacity := opacity l; blur := blur l; grayscale := grayscale l;
     transform := transform l; zIndex := zIndex l |}.

Definition set_opacity (v : Q) (l : Layer) : Layer :=
  {| id := id l; name := name l; type := type l; imageSrc := imageSrc l;
     imageElement := imageElement l; visible := visible l; locked := locked l;
     opacity := v; blur := blur l; grayscale := grayscale l;
     transform := transform l; zIndex := zIndex l |}.

Definition set_blur (v : Q) (l : Layer) : Layer :=
  {| id := id l; name := name l; type := type l; imageSrc := imageSrc l;
     imageElement := imageElement l; visible := visible l; locked := locked l;
     opacity := opacity l; blur := v; grayscale := grayscale l;
     transform := transform l; zIndex := zIndex l |}.

Definition set_grayscale (v : bool) (l : Layer) : Layer :=
  {| id := id l; name := name l; type := type l; imageSrc := imageSrc l;
     imageElement := imageElement l; visible := visible l; locked := locked l;
     opacity := opacity l; blur := blur l; grayscale := v;
     transform := transform l; zIndex := zIndex l |}.

Definition set_transform (t : Transform) (l : Layer) : Layer :=
  {| id := id l; name := name l; type := type l; imageSrc := imageSrc l;
     imageElement := imageElement l; visible := visible l; locked := locked l;
     opacity := opacity l; blur := blur l; grayscale := grayscale l;
     transform := t; zIndex := zIndex l |}.

(** [this.layers.findIndex(l => l.id === id)]; [None] is [-1]. *)
Definition findIndex (i : LayerId) (ls : list Layer) : option nat :=
  fst <$> list_find (λ l, id l = i) ls.

(** [this.layers.find(l => l.id === id) || null] *)
Definition getLayer (m : Manager) (i : LayerId) : option Layer :=
  snd <$> list_find (λ l, id l = i) (layers m).

Definition getSelectedLayer (m : Manager) : option Layer :=
  match selectedLayerId m with
  | None => None
  | Some i => getLayer m i
  end.

(** [this.layers.forEach((layer, i) => { layer.zIndex = i; })] *)
Definition renumber (ls : list Layer) : list Layer :=
  imap (λ i l, set_zIndex i l) ls.

Definition emit (s : Signal) (m : Manager) : Manager :=
  {| layers := layers m; selectedLayerId := selectedLayerId m;
     layerIdCounter := layerIdCounter m; signals := signals m ++ [s] |}.

Definition _notifyLayerChange (m : Manager) : Manager :=
  emit (layersChanged (layers m)) m.

Definition _notifySelectionChange (m : Manager) : Manager :=
  emit (layerSelectionChanged (getSelectedLayer m)) m.

Definition set_layers (ls : list Layer) (m : Manager) : Manager :=
  {| layers := ls; selectedLayerId := selectedLayerId m;
     layerIdCounter := layerIdCounter m; signals := signals m |}.

Definition set_selectedLayerId (s : option LayerId) (m : Manager) : Manager :=
  {| layers := layers m; selectedLayerId := s;
     layerIdCounter := layerIdCounter m; signals := signals m |}.

(** [init] *)
Definition init (m : Manager) : Manager :=
  set_selectedLayerId None (set_layers [] m).

(** [s || d] on an optional string: the empty string is falsy. *)
Definition str_or (s : option string) (d : string) : string :=
  match s with
  | Some v => if String.eqb v "" then d else v
  | None => d
  end.

(** [s || null] on an optional string. *)
Definition str_or_null (s : option string) : option string :=
  match s with
  | Some v => if String.eqb v "" then None else Some v
  | None => None
  end.

(** [createLayer(type, options)]; [now] is the value of [Date.now()].  The
    counter is advanced by [generateLayerId]. *)
Definition createLayer (m : Manager) (now : N) (ty : LayerType)
    (optName optSrc : option string) (optElement : option Element)
    : Layer * Manager :=
  ({| id := mkLayerId now (layerIdCounter m);
      name := str_or optName ("Katman " +:+ pretty (length (layers m) + 1));
      type := ty;
      imageSrc := str_or_null optSrc;
      imageElement := optElement;
      visible := true;
      locked := false;
      opacity := 100%Q;
      blur := 0%Q;
      grayscale := false;
      transform := mkTransform 0%Q 0%Q 1%Q;
      zIndex := length (layers m) |},
   {| layers := layers m; selectedLayerId := selectedLayerId m;
      layerIdCounter := (layerIdCounter m + 1)%N; signals := signals m |}).

(** [addImageLayer(imageSrc, imageElement, name)] *)
Definition addImageLayer (m : Manager) (now : N) (src : option string)
    (el : option Element) (nm : option string) : Layer * Manager :=
  let images := filter (λ l, type l = image) (layers m) in
  let '(layer, m1) :=
    createLayer m now image
      (Some (str_or nm ("Görüntü " +:+ pretty (length images + 1)))) src el in
  let m2 := set_layers (layers m1 ++ [layer]) m1 in
  let m3 := set_selectedLayerId (Some (id layer)) m2 in
  (layer, _notifySelectionChange (_notifyLayerChange m3)).

(** [addChatLayer()] *)
Definition addChatLayer (m : Manager) (now : N) : Layer * Manager :=
  match list_find (λ l, type l = chat) (layers m) with
  | Some (_, existingChat) => (existingChat, m)
  | None =>
    let '(layer, m1) := createLayer m now chat (Some "Sohbet Metni") None None in
    let m2 := set_layers (layers m1 ++ [layer]) m1 in
    (layer, _notifyLayerChange m2)
  end.

(** [removeLayer(id)] *)
Definition removeLayer (m : Manager) (i : LayerId) : Manager :=
  match findIndex i (layers m) with
  | None => m
  | Some index =>
    let m1 := set_layers (renumber (delete index (layers m))) m in
    let m2 :=
      if bool_decide (selectedLayerId m1 = Some i)
      then _notifySelectionChange
             (set_selectedLayerId (id <$> last (layers m1)) m1)
      else m1 in
    _notifyLayerChange m2
  end.

(** [selectLayer(id)] *)
Definition selectLayer (m : Manager) (i : LayerId) : Manager :=
  match getLayer m i with
  | None => m
  | Some _ => _notifySelectionChange (set_selectedLayerId (Some i) m)
  end.

Definition set_id (v : LayerId) (l : Layer) : Layer :=
  {| id := v; name := name l; type := type l; imageSrc := imageSrc l;
     imageElement := imageElement l; visible := visible l; locked := locked l;
     opacity := opacity l; blur := blur l; grayscale := grayscale l;
     transform := transform l; zIndex := zIndex l |}.

Definition set_name (v : string) (l : Layer) : Layer :=
  {| id := id l; name := v; type := type l; imageSrc := imageSrc l;
     imageElement := imageElement l; visible := visible l; locked := locked l;
     opacity := opacity l; blur := blur l; grayscale := grayscale l;
     transform := transform l; zIndex := zIndex l |}.

Definition set_type (v : LayerType) (l : Layer) : Layer :=
  {| id := id l; name := name l; type := v; imageSrc := imageSrc l;
     imageElement := imageElement l; visible := visible l; locked := locked l;
     opacity := opacity l; blur := blur l; grayscale := grayscale l;
     transform := transform l; zIndex := zIndex l |}.

Definition set_imageSrc (v : option string) (l : Layer) : Layer :=
  {| id := id l; name := name l; type := type l; imageSrc := v;
     imageElement := imageElement l; visible := visible l; locked := locked l;
     opacity := opacity l; blur := blur l; grayscale := grayscale l;
     transform := transform l; zIndex := zIndex l |}.

Definition set_imageElement (v : option Element) (l : Layer) : Layer :=
  {| id := id l; name := name l; type := type l; imageSrc := imageSrc l;
     imageElement := v; visible := visible l; locked := locked l;
     opacity := opacity l; blur := blur l; grayscale := grayscale l;
     transform := transform l; zIndex := zIndex l |}.

Definition set_locked (v : bool) (l : Layer) : Layer :=
  {| id := id l; name := name l; type := type l; imageSrc := imageSrc l;
     imageElement := imageElement l; visible := visible l; locked := v;
     opacity := opacity l; blur := blur l; grayscale := grayscale l;
     transform := transform l; zIndex := zIndex l |}.

(** The [property] and [value] arguments of [updateLayerEffect].  The guard
    is [property in layer], so every key of the object [createLayer] builds
    can be written, not only the documented ones (opacity, blur, grayscale,
    visible); the value is taken of the type of the field it overwrites.
    [NotAKey] is a property name that is no key of the layer object. *)
Inductive EffectUpdate :=
  | SetId (v : LayerId)
  | SetName (v : string)
  | SetType (v : LayerType)
  | SetImageSrc (v : option string)
  | SetImageElement (v : option Element)
  | SetVisible (v : bool)
  | SetLocked (v : bool)
  | SetOpacity (v : Q)
  | SetBlur (v : Q)
  | SetGrayscale (v : bool)
  | SetTransform (v : Transform)
  | SetZIndex (v : nat)
  | NotAKey (property : string).

(** [property in layer] *)
Definition inLayer (u : EffectUpdate) : bool :=
  match u with
  | NotAKey _ => false
  | _ => true
  end.

(** [layer[property] = value] *)
Definition applyEffect (u : EffectUpdate) (l : Layer) : Layer :=
  match u with
  | SetId v => set_id v l
  | SetName v => set_name v l
  | SetType v => set_type v l
  | SetImageSrc v => set_imageSrc v l
  | SetImageElement v => set_imageElement v l
  | SetVisible v => set_visible v l
  | SetLocked v => set_locked v l
  | SetOpacity v => set_opacity v l
  | SetBlur v => set_blur v l
  | SetGrayscale v => set_grayscale v l
  | SetTransform v => set_transform v l
  | SetZIndex v => set_zIndex v l
  | NotAKey _ => l
  end.

(** Assignment to a field of the first layer whose id is [i]. *)
Definition mutateLayer (f : Layer → Layer) (i : LayerId) (m : Manager) : Manager :=
  match list_find (λ l, id l = i) (layers m) with
  | None => m
  | Some (index, layer) => set_layers (<[index := f layer]> (layers m)) m
  end.

(** [updateLayerEffect(id, property, value, emitEvent = true)] *)
Definition updateLayerEffect (m : Manager) (i : LayerId) (u : EffectUpdate)
    (emitEvent : bool) : Manager :=
  match getLayer m i with
  | None => m
  | Some _ =>
    if inLayer u then
      let m1 := mutateLayer (applyEffect u) i m in
      if emitEvent then _notifyLayerChange m1 else m1
    else m
  end.

(** [updateSelectedLayerEffect(property, value, emitEvent = true)] *)
Definition updateSelectedLayerEffect (m : Manager) (u : EffectUpdate)
    (emitEvent : bool) : Manager :=
  match selectedLayerId m with
  | Some i => updateLayerEffect m i u emitEvent
  | None => m
  end.

(** The fields present in the object passed to [updateLayerTransform]. *)
Record PartialTransform := mkPartial {
  pt_x : option Q; pt_y : option Q; pt_scale : option Q
}.

(** [{ ...layer.transform, ...transform }] *)
Definition mergeTransform (pt : PartialTransform) (t : Transform) : Transform :=
  {| t_x := default (t_x t) (pt_x pt);
     t_y := default (t_y t) (pt_y pt);
     t_scale := default (t_scale t) (pt_scale pt) |}.

(** [updateLayerTransform(id, transform, emitEvent = true)] *)
Definition updateLayerTransform (m : Manager) (i : LayerId)
    (pt : PartialTransform) (emitEvent : bool) : Manager :=
  match getLayer m i with
  | None => m
  | Some _ =>
    let m1 := mutateLayer (λ l, set_transform (mergeTransform pt (transform l)) l) i m in
    if emitEvent then _notifyLayerChange m1 else m1
  end.

(** [toggleLayerVisibility(id)] *)
Definition toggleLayerVisibility (m : Manager) (i : LayerId) : Manager :=
  match getLayer m i with
  | None => m
  | Some _ =>
    _notifyLayerChange (mutateLayer (λ l, set_visible (negb (visible l)) l) i m)
  end.

(** [[ls[i], ls[j]] = [ls[j], ls[i]]]: both reads happen before the writes.
    The callers only swap positions inside the array. *)
Definition swap (i j : nat) (ls : list Layer) : list Layer :=
  match ls !! i, ls !! j with
  | Some a, Some b => <[j := a]> (<[i := b]> ls)
  | _, _ => ls
  end.

(** [moveLayerUp(id)] *)
Definition moveLayerUp (m : Manager) (i : LayerId) : Manager :=
  match findIndex i (layers m) with
  | None => m
  | Some index =>
    if bool_decide (Z.of_nat (length (layers m)) - 1 ≤ Z.of_nat index)%Z then m
    else
      _notifyLayerChange
        (set_layers (renumber (swap index (index + 1) (layers m))) m)
  end.

(** [moveLayerDown(id)] *)
Definition moveLayerDown (m : Manager) (i : LayerId) : Manager :=
  match findIndex i (layers m) with
  | None => m
  | Some index =>
    if bool_decide (index ≤ 0) then m
    else
      _notifyLayerChange
        (set_layers (renumber (swap index (index - 1) (layers m))) m)
  end.

(** [clearAll()] *)
Definition clearAll (m : Manager) : Manager :=
  _notifySelectionChange
    (_notifyLayerChange (set_selectedLayerId None (set_layers [] m))).

(** *** Sequences of layer operations *)

Inductive Op :=
  | OpInit
  | OpAddImageLayer (now : N) (src : option string) (el : option Element)
      (nm : option string)
  | OpAddChatLayer (now : N)
  | OpRemoveLayer (i : LayerId)
  | OpSelectLayer (i : LayerId)
  | OpUpdateLayerEffect (i : LayerId) (u : EffectUpdate) (emitEvent : bool)
  | OpUpdateSelectedLayerEffect (u : EffectUpdate) (emitEvent : bool)
  | OpUpdateLayerTransform (i : LayerId) (pt : PartialTransform) (emitEvent : bool)
  | OpToggleLayerVisibility (i : LayerId)
  | OpMoveLayerUp (i : LayerId)
  | OpMoveLayerDown (i : LayerId)
  | OpClearAll.

Definition step (m : Manager) (o : Op) : Manager :=
  match o with
  | OpInit => init m
  | OpAddImageLayer now src el nm => snd (addImageLayer m now src el nm)
  | OpAddChatLayer now => snd (addChatLayer m now)
  | OpRemoveLayer i => removeLayer m i
  | OpSelectLayer i => selectLayer m i
  | OpUpdateLayerEffect i u e => updateLayerEffect m i u e
  | OpUpdateSelectedLayerEffect u e => updateSelectedLayerEffect m u e
  | OpUpdateLayerTransform i pt e => updateLayerTransform m i pt e
  | OpToggleLayerVisibility i => toggleLayerVisibility m i
  | OpMoveLayerUp i => moveLayerUp m i
  | OpMoveLayerDown i => moveLayerDown m i
  | OpClearAll => clearAll m
  end.

(** The manager after a sequence of calls, starting from the loaded module. *)
Definition run (ops : list Op) : Manager := fold_left step ops fresh.

(** Stack mutations: add, remove, move up, move down. *)
Definition isStackMutation (o : Op) : bool :=
  match o with
  | OpAddImageLayer _ _ _ _ | OpAddChatLayer _ | OpRemoveLayer _
  | OpMoveLayerUp _ | OpMoveLayerDown _ => true
  | _ => false
  end.

(** zIndex values are [0, 1, ..., N-1] in stack order. *)
Definition zDense (ls : list Layer) : Prop :=
  zIndex <$> ls = seq 0 (length ls).

(** Layers of type chat in the stack. *)
Definition chatLayers (ls : list Layer) : list Layer :=
  filter (λ l, type l = chat) ls.

(** The documented properties of [updateLayerEffect]: opacity, blur,
    grayscale, visible. *)
Definition isDocumented (u : EffectUpdate) : bool :=
  match u with
  | SetOpacity _ | SetBlur _ | SetGrayscale _ | SetVisible _ => true
  | _ => false
  end.

(** The key a call of [updateLayerEffect] or [updateSelectedLayerEffect]
    is given. *)
Definition givenKey (o : Op) : option EffectUpdate :=
  match o with
  | OpUpdateLayerEffect _ u _ | OpUpdateSelectedLayerEffect u _ => Some u
  | _ => None
  end.

Definition writesId (o : Op) : bool :=
  match givenKey o with Some (SetId _) => true | _ => false end.
Definition writesType (o : Op) : bool :=
  match givenKey o with Some (SetType _) => true | _ => false end.
Definition writesZIndex (o : Op) : bool :=
  match givenKey o with Some (SetZIndex _) => true | _ => false end.

(** Sequences of calls in which [updateLayerEffect] and
    [updateSelectedLayerEffect] are never given the key [id], respectively
    [type], respectively [zIndex]. *)
Definition keepsIds (ops : list Op) : Prop := Forall (λ o, writesId o = false) ops.
Definition keepsTypes (ops : list Op) : Prop := Forall (λ o, writesType o = false) ops.
Definition keepsZIndex (ops : list Op) : Prop := Forall (λ o, writesZIndex o = false) ops.

(** Ids issued before the current counter value, and distinct. *)
Definition idsIssued (m : Manager) : Prop :=
  Forall (λ i, (serial i < layerIdCounter m)%N) (id <$> layers m) ∧
  NoDup (id <$> layers m).

(** What a call does to the stack: it keeps the ids, types and zIndex
    values of the layers (each unless it is a write of that key); or it
    leaves some of the layers, renumbered; or it pushes a new layer with a
    new id and the next zIndex; or it empties the stack. *)
Inductive StackChange (kI kT kZ : bool) (m m' : Manager) : Prop :=
  | change_fields :
      (kI = false → id <$> layers m' = id <$> layers m) →
      (kT = false → type <$> layers m' = type <$> layers m) →
      (kZ = false → zIndex <$> layers m' = zIndex <$> layers m) →
      length (layers m') = length (layers m) →
      layerIdCounter m' = layerIdCounter m →
      StackChange kI kT kZ m m'
  | change_renumbered (X : list Layer) :
      layers m' = renumber X →
      id <$> X ⊆+ id <$> layers m →
      type <$> X ⊆+ type <$> layers m →
      layerIdCounter m' = layerIdCounter m →
      StackChange kI kT kZ m m'
  | change_pushed (new : Layer) :
      layers m' = layers m ++ [new] →
      id new = mkLayerId (stamp (id new)) (layerIdCounter m) →
      zIndex new = length (layers m) →
      layerIdCounter m' = (layerIdCounter m + 1)%N →
      (type new = chat → chatLayers (layers m) = []) →
      StackChange kI kT kZ m m'
  | change_emptied :
      layers m' = [] →
      StackChange kI kT kZ m m'.

End LayerManager.

(** ** Sample scenes used to exercise the definitions *)

Module Samples.
Import ImageOverlay.
Local Open Scope Q_scope.

(** An 800x600 dropzone and a 400x300 image placed at (200, 150). *)
Definition sampleDropzone : Element := mkElement 800 600 0 0 None.
Definition sampleImage : Element := mkElement 400 300 0 0 None.
Definition sampleDocument : Document :=
  mkDocument (Some sampleImage) (Some sampleDropzone) None.
Definition sampleState : State :=
  {| imageTransform := mkTransform 0 0 1;
     isImageDraggingEnabled := true;
     displayDimensions := mkDimensions 400 300;
     basePosition := mkPoint 200 150;
     chatTransform := mkTransform 0 0 1;
     isChatDraggingEnabled := true;
     lineTransforms := ∅;
     snapEnabled := true;
     snapThreshold := 20;
     dropZoneWidth := 800;
     dropZoneHeight := 600;
     domCache_dropzone := Some sampleDropzone |}.

(** The dropzone is laid out with zero size; the stored size is the default. *)
Definition collapsedDropzone : Element := mkElement 0 0 0 0 None.
Definition collapsedDocument : Document :=
  mkDocument (Some sampleImage) (Some collapsedDropzone) None.
Definition collapsedState : State :=
  {| imageTransform := mkTransform 0 0 1;
     isImageDraggingEnabled := true;
     displayDimensions := mkDimensions 100 100;
     basePosition := mkPoint 0 0;
     chatTransform := mkTransform 0 0 1;
     isChatDraggingEnabled := true;
     lineTransforms := ∅;
     snapEnabled := true;
     snapThreshold := 20;
     dropZoneWidth := DEFAULT_DROPZONE_WIDTH;
     dropZoneHeight := DEFAULT_DROPZONE_HEIGHT;
     domCache_dropzone := None |}.

(** The chat block at scale 2.0, and a modifier-key wheel notch upwards. *)
Definition chatAtTwo : State :=
  set_chatTransform (mkTransform 0 0 2.0) sampleState.
Definition ctrlWheelUp : WheelEvent := mkWheelEvent (-100) 0 0 true false.

(** The image at scale 2.0 with the pointer 100px right of and 50px below
    its centre, and a plain wheel notch upwards. *)
Definition imageAtTwo : State :=
  set_imageTransform (mkTransform 0 0 2.0) sampleState.
Definition wheelUpOffCentre : WheelEvent := mkWheelEvent (-100) 500 350 false false.
(** A plain wheel notch upwards with the pointer on the image centre. *)
Definition wheelUpAtCentre : WheelEvent := mkWheelEvent (-100) 400 300 false false.

(** A chat block of 100x40 in the sample dropzone. *)
Definition chatBlock : Element := mkElement 100 40 0 0 None.
Definition chatDocument : Document :=
  mkDocument (Some sampleImage) (Some sampleDropzone) (Some chatBlock).

(** A stored blob holding a chat transform, the snap flag switched off and
    one line position, with a parser that knows this blob only. *)
Definition savedBlob : string := "overlayChatSettings-blob".
Definition savedSettings : json :=
  JObj [("chatTransform", JObj [("x", JNum 120); ("y", JNum 80); ("scale", JNum 1.5)]);
        ("snapEnabled", JBool false);
        ("lineTransforms", JObj [("0", JObj [("x", JNum 5); ("y", JNum 7)])])].
Definition sampleParse (s : string) : option json :=
  if String.eqb s savedBlob then Some savedSettings else None.

(** Two image layers added in turn, and their ids; then a chat layer. *)
Definition twoImages : list LayerManager.Op :=
  [LayerManager.OpAddImageLayer 1000 (Some "data:a") None None;
   LayerManager.OpAddImageLayer 1001 (Some "data:b") None None].
Definition bottomId : LayerId := mkLayerId 1000 0.
Definition topId : LayerId := mkLayerId 1001 1.
Definition withChat : list LayerManager.Op :=
  twoImages ++ [LayerManager.OpAddChatLayer 1002].
Definition chatId : LayerId := mkLayerId 1002 2.
Definition sampleChatLayer : LayerManager.Layer :=
  fst (LayerManager.addChatLayer (LayerManager.run twoImages) 1002).

(** One image whose zIndex is then written through [updateLayerEffect],
    followed by two more images. *)
Definition zIndexWritten : list LayerManager.Op :=
  [LayerManager.OpAddImageLayer 1000 (Some "data:a") None None;
   LayerManager.OpUpdateLayerEffect bottomId (LayerManager.SetZIndex 7) true;
   LayerManager.OpAddImageLayer 1001 (Some "data:b") None None;
   LayerManager.OpAddImageLayer 1002 (Some "data:c") None None].

(** Three images, the id of the third then overwritten with the id of the
    second. *)
Definition thirdId : LayerId := mkLayerId 1002 2.
Definition idWritten : list LayerManager.Op :=
  twoImages ++
  [LayerManager.OpAddImageLayer 1002 (Some "data:c") None None;
   LayerManager.OpUpdateLayerEffect thirdId (LayerManager.SetId topId) true].

(** Two images and the chat layer, the type of the top image then
    overwritten. *)
Definition typeWritten : list LayerManager.Op :=
  withChat ++ [LayerManager.OpUpdateLayerEffect topId (LayerManager.SetType LayerManager.chat) true].

End Samples.

(** ** Views of the layer stack *)

Module LayerViews.
Import LayerManager.

(** Stable insertion by ascending zIndex: [l] goes before the first layer
    whose zIndex is not smaller. *)
Fixpoint insertByZIndex (l : Layer) (sorted : list Layer) : list Layer :=
  match sorted with
  | [] => [l]
  | x :: rest =>
    if decide (zIndex l ≤ zIndex x) then l :: x :: rest
    else x :: insertByZIndex l rest
  end.

(** [[...layers].sort((a, b) => a.zIndex - b.zIndex)].  The array sort is
    stable and the comparator is consistent, so the result is the one stable
    ordering by zIndex, which the insertion sort computes. *)
Definition sortByZIndex (ls : list Layer) : list Layer :=
  foldr insertByZIndex [] ls.

(** [getLayersSorted()] *)
Definition getLayersSorted (m : Manager) : list Layer :=
  sortByZIndex (layers m).

(** [getVisibleLayersSorted()] *)
Definition getVisibleLayersSorted (m : Manager) : list Layer :=
  filter (λ l, visible l = true) (getLayersSorted m).

(** Ascending zIndex. *)
Definition zLe (a b : Layer) : Prop := zIndex a ≤ zIndex b.

(** [selectedLayerId] names a layer of the stack, or is null. *)
Definition selectionValid (m : Manager) : Prop :=
  ∀ i, selectedLayerId m = Some i → i ∈ id <$> layers m.

End LayerViews.

(** ** Pointer and keyboard interaction ([window.ImageOverlayState]) *)

Module Interaction.
Import ImageOverlay.
Local Open Scope Q_scope.

(** [currentMode]: 'chat' or 'overlay'. *)
Inductive Mode := chatMode | overlayMode.

(** [selectedElement]: null, 'chat' or a line index. *)
Inductive Selection := noSelection | chatSelected | lineSelected (index : nat).

#[global] Instance Selection_eq_dec : EqDecision Selection.
Proof. solve_decision. Defined.

(** A [.chat-line-wrapper] element: its identity and its [dataset.lineIndex]
    (set once, when [renderChatOverlay] creates the element). *)
Record LineWrapper := mkLineWrapper { wrapperRef : nat; dataset_lineIndex : nat }.

#[global] Instance LineWrapper_eq_dec : EqDecision LineWrapper.
Proof. solve_decision. Defined.

Record MouseEvent := mkMouseEvent {
  m_clientX : Q;
  m_clientY : Q;
  m_shiftKey : bool;
  m_ctrlKey : bool;
  m_metaKey : bool
}.

Record KeyEvent := mkKeyEvent {
  key : string;
  k_ctrlKey : bool;
  k_metaKey : bool;
  k_altKey : bool;
  k_shiftKey : bool
}.

(** The [#output] element: its width and the number of [.generated] lines. *)
Record Output := mkOutput { outputWidth : Q; generatedLines : nat }.

(** What the handlers read from the page besides the three elements of
    [Document]. *)
Record Page := mkPage {
  document : Document;
  lineWrapperCount : nat;          (* dropzone.querySelectorAll('.chat-line-wrapper').length *)
  activeElementIsInput : bool;     (* document.activeElement is an INPUT or TEXTAREA *)
  hasImageLayers : bool;           (* LayerManager present with a layer of type image *)
  output : option Output;          (* getElementById('output') *)
  fontLabel : option (option Z)    (* parseInt of #font-label's value; inner None is NaN *)
}.

(** [isPanning], [panStart], [panStartImagePos] *)
Record ImagePan := mkImagePan {
  isPanning : bool; panStart : Point; panStartImagePos : Point
}.

(** [isChatPanning], [chatPanStart], [chatPanStartPos] *)
Record ChatPan := mkChatPan {
  isChatPanning : bool; chatPanStart : Point; chatPanStartPos : Point
}.

(** [isLinePanning], [currentDragLine], [linePanStart], [linePanStartPos] *)
Record LinePan := mkLinePan {
  isLinePanning : bool;
  currentDragLine : option LineWrapper;
  linePanStart : Point;
  linePanStartPos : Point
}.

(** [selectedElement], [selectedLineWrapper], [selectedLineWrappers] *)
Record Selected := mkSelected {
  selectedElement : Selection;
  selectedLineWrapper : option LineWrapper;
  selectedLineWrappers : list LineWrapper
}.

(** A shown alignment guide: its coordinate and [dataset.alignedWith]. *)
Record Guide := mkGuide { guideAt : Q; alignedWith : nat }.

(** The two guide elements; [None] is a guide that is hidden or not yet
    created. *)
Record Guides := mkGuides {
  horizontalGuide : option Guide; verticalGuide : option Guide
}.

(** The overlay state with the fields the pointer and keyboard handlers use,
    grouped by the handler that owns them.  An entry of the source's
    [lineTransforms] is [{x, y}] with an optional [maxWidth]: the position is
    kept in [lineTransforms] of [overlay] and the [maxWidth], when the entry
    has one, in [lineMaxWidths]. *)
Record Session := mkSession {
  overlay : State;
  currentMode : Mode;
  isLineDraggingEnabled : bool;
  lineMaxWidths : gmap nat Q;
  alignmentThreshold : Q;
  imagePan : ImagePan;
  chatPan : ChatPan;
  linePan : LinePan;
  selection : Selected;
  guides : Guides
}.

Definition set_overlay (v : State) (s : Session) : Session :=
  {| overlay := v;
     currentMode := currentMode s;
     isLineDraggingEnabled := isLineDraggingEnabled s;
     lineMaxWidths := lineMaxWidths s;
     alignmentThreshold := alignmentThreshold s;
     imagePan := imagePan s;
     chatPan := chatPan s;
     linePan := linePan s;
     selection := selection s;
     guides := guides s |}.

Definition set_currentMode (v : Mode) (s : Session) : Session :=
  {| overlay := overlay s;
     currentMode := v;
     isLineDraggingEnabled := isLineDraggingEnabled s;
     lineMaxWidths := lineMaxWidths s;
     alignmentThreshold := alignmentThreshold s;
     imagePan := imagePan s;
     chatPan := chatPan s;
     linePan := linePan s;
     selection := selection s;
     guides := guides s |}.

Definition set_lineMaxWidths (v : gmap nat Q) (s : Session) : Session :=
  {| overlay := overlay s;
     currentMode := currentMode s;
     isLineDraggingEnabled := isLineDraggingEnabled s;
     lineMaxWidths := v;
     alignmentThreshold := alignmentThreshold s;
     imagePan := imagePan s;
     chatPan := chatPan s;
     linePan := linePan s;
     selection := selection s;
     guides := guides s |}.

Definition set_imagePan (v : ImagePan) (s : Session) : Session :=
  {| overlay := overlay s;
     currentMode := currentMode s;
     isLineDraggingEnabled := isLineDraggingEnabled s;
     lineMaxWidths := lineMaxWidths s;
     alignmentThreshold := alignmentThreshold s;
     imagePan := v;
     chatPan := chatPan s;
     linePan := linePan s;
     selection := selection s;
     guides := guides s |}.

Definition set_chatPan (v : ChatPan) (s : Session) : Session :=
  {| overlay := overlay s;
     currentMode := currentMode s;
     isLineDraggingEnabled := isLineDraggingEnabled s;
     lineMaxWidths := lineMaxWidths s;
     alignmentThreshold := alignmentThreshold s;
     imagePan := imagePan s;
     chatPan := v;
     linePan := linePan s;
     selection := selection s;
     guides := guides s |}.

Definition set_linePan (v : LinePan) (s : Session) : Session :=
  {| overlay := overlay s;
     currentMode := currentMode s;
     isLineDraggingEnabled := isLineDraggingEnabled s;
     lineMaxWidths := lineMaxWidths s;
     alignmentThreshold := alignmentThreshold s;
     imagePan := imagePan s;
     chatPan := chatPan s;
     linePan := v;
     selection := selection s;
     guides := guides s |}.

Definition set_selection (v : Selected) (s : Session) : Session :=
  {| overlay := overlay s;
     currentMode := currentMode s;
     isLineDraggingEnabled := isLineDraggingEnabled s;
     lineMaxWidths := lineMaxWidths s;
     alignmentThreshold := alignmentThreshold s;
     imagePan := imagePan s;
     chatPan := chatPan s;
     linePan := linePan s;
     selection := v;
     guides := guides s |}.

Definition set_guides (v : Guides) (s : Session) : Session :=
  {| overlay := overlay s;
     currentMode := currentMode s;
     isLineDraggingEnabled := isLineDraggingEnabled s;
     lineMaxWidths := lineMaxWidths s;
     alignmentThreshold := alignmentThreshold s;
     imagePan := imagePan s;
     chatPan := chatPan s;
     linePan := linePan s;
     selection := selection s;
     guides := v |}.

(** The object literal's values for these fields. *)
Definition initialSession : Session :=
  {| overlay := initial;
     currentMode := chatMode;
     isLineDraggingEnabled := true;
     lineMaxWidths := ∅;
     alignmentThreshold := 3;
     imagePan := mkImagePan false (mkPoint 0 0) (mkPoint 0 0);
     chatPan := mkChatPan false (mkPoint 0 0) (mkPoint 0 0);
     linePan := mkLinePan false None (mkPoint 0 0) (mkPoint 0 0);
     selection := mkSelected noSelection None [];
     guides := mkGuides None None |}.

Definition set_lineTransforms (v : gmap nat Point) (st : State) : State :=
  {| imageTransform := imageTransform st;
     isImageDraggingEnabled := isImageDraggingEnabled st;
     displayDimensions := displayDimensions st;
     basePosition := basePosition st;
     chatTransform := chatTransform st;
     isChatDraggingEnabled := isChatDraggingEnabled st;
     lineTransforms := v;
     snapEnabled := snapEnabled st;
     snapThreshold := snapThreshold st;
     dropZoneWidth := dropZoneWidth st;
     dropZoneHeight := dropZoneHeight st;
     domCache_dropzone := domCache_dropzone st |}.

Definition with_position (x y : Q) (t : Transform) : Transform :=
  {| t_x := x; t_y := y; t_scale := t_scale t |}.

(** *** Panning the image *)

(** [startImagePan] *)
Definition startImagePan (s : Session) (e : MouseEvent) : Session :=
  set_imagePan
    {| isPanning := true;
       panStart := mkPoint (m_clientX e) (m_clientY e);
       panStartImagePos :=
         mkPoint (t_x (imageTransform (overlay s))) (t_y (imageTransform (overlay s))) |}
    s.

(** [updateImagePan]: the state it leaves; the frame callback it schedules
    is [updateImageTransform]. *)
Definition updateImagePan (s : Session) (doc : Document) (e : MouseEvent) : Session :=
  let deltaX := m_clientX e - p_x (panStart (imagePan s)) in
  let deltaY := m_clientY e - p_y (panStart (imagePan s)) in
  let newX := p_x (panStartImagePos (imagePan s)) + deltaX in
  let newY := p_y (panStartImagePos (imagePan s)) + deltaY in
  let bounds := calculateImageBounds (overlay s) doc in
  let constrainedX := JS.Math_max (minX bounds) (JS.Math_min (maxX bounds) newX) in
  let constrainedY := JS.Math_max (minY bounds) (JS.Math_min (maxY bounds) newY) in
  set_overlay
    (set_imageTransform
       (with_position constrainedX constrainedY (imageTransform (overlay s)))
       (overlay s))
    s.

(** *** Panning the chat block *)

(** [startChatPan] *)
Definition startChatPan (s : Session) (e : MouseEvent) : Session :=
  set_chatPan
    {| isChatPanning := true;
       chatPanStart := mkPoint (m_clientX e) (m_clientY e);
       chatPanStartPos :=
         mkPoint (t_x (chatTransform (overlay s))) (t_y (chatTransform (overlay s))) |}
    s.

(** [updateChatPan] *)
Definition updateChatPan (s : Session) (doc : Document) (e : MouseEvent) : Session :=
  let deltaX := m_clientX e - p_x (chatPanStart (chatPan s)) in
  let deltaY := m_clientY e - p_y (chatPanStart (chatPan s)) in
  let newX := p_x (chatPanStartPos (chatPan s)) + deltaX in
  let newY := p_y (chatPanStartPos (chatPan s)) + deltaY in
  let snapped :=
    if negb (m_shiftKey e) then applySnapToEdge (overlay s) doc newX newY
    else mkPoint newX newY in
  set_overlay
    (set_chatTransform
       (with_position (p_x snapped) (p_y snapped) (chatTransform (overlay s)))
       (overlay s))
    s.

(** *** Alignment guides *)

(** One step of the [forEach] of [checkAndShowAlignmentGuides]. *)
Definition alignStep (s : Session) (currentLineIndex : nat) (currentX currentY : Q)
    (acc : Guides) (idx : nat) : Guides :=
  if bool_decide (idx = currentLineIndex) then acc
  else
    let lineTransform := default (mkPoint 0 0) (lineTransforms (overlay s) !! idx) in
    let lineX := p_x lineTransform in
    let lineY := p_y lineTransform in
    let h :=
      if Qle_bool (JS.Math_abs (currentY - lineY)) (alignmentThreshold s)
      then Some (mkGuide lineY idx) else horizontalGuide acc in
    let v :=
      if Qle_bool (JS.Math_abs (currentX - lineX)) (alignmentThreshold s)
      then Some (mkGuide lineX idx) else verticalGuide acc in
    mkGuides h v.

(** [checkAndShowAlignmentGuides] followed by [updateAlignmentGuides]. *)
Definition checkAndShowAlignmentGuides (s : Session) (page : Page)
    (currentLineIndex : nat) (currentX currentY : Q) : Session :=
  match imageDropzone (document page) with
  | None => s
  | Some _ =>
    set_guides
      (fold_left (alignStep s currentLineIndex currentX currentY)
         (seq 0 (lineWrapperCount page)) (mkGuides None None))
      s
  end.

(** [hideAlignmentGuides] *)
Definition hideAlignmentGuides (s : Session) : Session :=
  set_guides (mkGuides None None) s.

(** *** Panning one line *)

(** A handler either returns or throws; both leave a state. *)
Inductive Outcome :=
  | Returned (s : Session)
  | Thrown (s : Session).

(** [startLinePan(e, lineWrapper)]; [rect] is the wrapper's bounding
    rectangle (left, top).  Reading the dropzone's rectangle throws when the
    dropzone is not found. *)
Definition startLinePan (s : Session) (doc : Document) (e : MouseEvent)
    (lineWrapper : LineWrapper) (rect : Point) : Outcome :=
  let s1 :=
    set_linePan
      {| isLinePanning := true;
         currentDragLine := Some lineWrapper;
         linePanStart := linePanStart (linePan s);
         linePanStartPos := linePanStartPos (linePan s) |} s in
  let lineIndex := dataset_lineIndex lineWrapper in
  let finish (s2 : Session) (pos : Point) : Outcome :=
    Returned
      (set_linePan
         {| isLinePanning := isLinePanning (linePan s2);
            currentDragLine := currentDragLine (linePan s2);
            linePanStart := mkPoint (m_clientX e) (m_clientY e);
            linePanStartPos := mkPoint (p_x pos) (p_y pos) |} s2) in
  match lineTransforms (overlay s1) !! lineIndex with
  | Some pos => finish s1 pos
  | None =>
    match imageDropzone doc with
    | None => Thrown s1
    | Some dropzone =>
      let currentX := p_x rect - rect_left dropzone in
      let currentY := p_y rect - rect_top dropzone in
      let pos := mkPoint currentX currentY in
      finish
        (set_overlay
           (set_lineTransforms
              (<[lineIndex := pos]> (lineTransforms (overlay s1))) (overlay s1))
           s1)
        pos
    end
  end.

(** [updateLinePan] *)
Definition updateLinePan (s : Session) (page : Page) (e : MouseEvent) : Session :=
  match currentDragLine (linePan s) with
  | None => s
  | Some dragLine =>
    let lineIndex := dataset_lineIndex dragLine in
    let deltaX := m_clientX e - p_x (linePanStart (linePan s)) in
    let deltaY := m_clientY e - p_y (linePanStart (linePan s)) in
    let newX := p_x (linePanStartPos (linePan s)) + deltaX in
    let newY := p_y (linePanStartPos (linePan s)) + deltaY in
    let s1 :=
      set_lineMaxWidths (delete lineIndex (lineMaxWidths s))
        (set_overlay
           (set_lineTransforms
              (<[lineIndex := mkPoint newX newY]> (lineTransforms (overlay s)))
              (overlay s))
           s) in
    checkAndShowAlignmentGuides s1 page lineIndex newX newY
  end.

(** The [max-width] style [updateLinePan] gives the dragged line. *)
Definition lineAvailableWidth (dropzone : Element) (newX : Q) : Q :=
  JS.Math_max 100 (offsetWidth dropzone - newX - 10).

(** [stopPan] *)
Definition stopPan (s : Session) : Session :=
  hideAlignmentGuides
    (set_linePan
       {| isLinePanning := false;
          currentDragLine := None;
          linePanStart := linePanStart (linePan s);
          linePanStartPos := linePanStartPos (linePan s) |}
       (set_chatPan
          {| isChatPanning := false;
             chatPanStart := chatPanStart (chatPan s);
             chatPanStartPos := chatPanStartPos (chatPan s) |}
          (set_imagePan
             {| isPanning := false;
                panStart := panStart (imagePan s);
                panStartImagePos := panStartImagePos (imagePan s) |}
             s))).

(** *** Selection *)

(** [selectElement(element, lineWrapper = null, addToSelection = false)] *)
Definition selectElement (s : Session) (element : Selection)
    (lineWrapper : option LineWrapper) (addToSelection : bool) : Session :=
  match addToSelection, element, lineWrapper with
  | true, lineSelected _, Some lw =>
    let wrappers :=
      match list_find (λ w, w = lw) (selectedLineWrappers (selection s)) with
      | Some (idx, _) => delete idx (selectedLineWrappers (selection s))
      | None => selectedLineWrappers (selection s) ++ [lw]
      end in
    match last wrappers with
    | Some primary =>
      set_selection
        (mkSelected (lineSelected (dataset_lineIndex primary)) (Some primary) wrappers) s
    | None => set_selection (mkSelected noSelection None wrappers) s
    end
  | _, _, _ =>
    let wrappers :=
      match element, lineWrapper with
      | lineSelected _, Some lw => [lw]
      | _, _ => []
      end in
    set_selection (mkSelected element lineWrapper wrappers) s
  end.

(** *** Quick positions *)

(** [s.includes(sub)] *)
Definition includes (s sub : string) : bool :=
  match String.index 0 sub s with
  | Some _ => true
  | None => false
  end.

(** [setQuickPosition(position)] *)
Definition setQuickPosition (st : State) (doc : Document) (position : string) : State :=
  match imageDropzone doc, chatOverlayContainer doc with
  | Some dropzone, Some chatOverlay =>
    let dropzoneWidth := offsetWidth dropzone in
    let dropzoneHeight := offsetHeight dropzone in
    let chatWidth := offsetWidth chatOverlay * t_scale (chatTransform st) in
    let chatHeight := offsetHeight chatOverlay * t_scale (chatTransform st) in
    let padding := 20 in
    let x :=
      if includes position "left" then padding
      else if includes position "right" then dropzoneWidth - chatWidth - padding
      else (dropzoneWidth - chatWidth) / 2 in
    let y :=
      if includes position "top" then padding
      else if includes position "bottom" then dropzoneHeight - chatHeight - padding
      else (dropzoneHeight - chatHeight) / 2 in
    set_chatTransform (with_position x y (chatTransform st)) st
  | _, _ => st
  end.

(** [autoPositionChat] *)
Definition autoPositionChat (st : State) (doc : Document) : State :=
  setQuickPosition st doc "bottom-left".

(** The nine names the buttons and the number keys use. *)
Definition quickPositions : list string :=
  ["top-left"; "top-center"; "top-right";
   "middle-left"; "middle-center"; "middle-right";
   "bottom-left"; "bottom-center"; "bottom-right"].

(** *** Laying out the lines *)

(** The running values of the [forEach] of [renderChatOverlay]. *)
Record Layout := mkLayout {
  currentY : Q;
  positions : gmap nat Point;
  maxWidths : gmap nat Q
}.

(** One line of the [forEach]: a line with a stored position keeps it; any
    other line is stored at the default stacked position with the chat
    width as [maxWidth]. *)
Definition layoutStep (startX maxChatWidth estimatedLineHeight : Q)
    (acc : Layout) (index : nat) : Layout :=
  match positions acc !! index with
  | Some _ =>
    {| currentY := currentY acc + estimatedLineHeight;
       positions := positions acc;
       maxWidths := maxWidths acc |}
  | None =>
    {| currentY := currentY acc + estimatedLineHeight;
       positions := <[index := mkPoint startX (currentY acc)]> (positions acc);
       maxWidths := <[index := maxChatWidth]> (maxWidths acc) |}
  end.

(** [parseInt(fontSizeInput.value) || 12], or 12 without the input. *)
Definition fontSizeOf (page : Page) : Q :=
  match fontLabel page with
  | Some (Some z) => if Z.eqb z 0 then 12 else inject_Z z
  | _ => 12
  end.

(** The advance per line: [fontSize * 1.6 * 1.2]. *)
Definition estimatedLineHeightOf (page : Page) : Q :=
  fontSizeOf page * 1.6 * 1.2.

(** [renderChatOverlay]: what it stores in [lineTransforms]. *)
Definition renderChatOverlay (s : Session) (page : Page) : Session :=
  match imageDropzone (document page) with
  | None => s
  | Some dropzone =>
    if negb (bool_decide (is_Some (overlayImage (document page))))
       && negb (hasImageLayers page)
    then s
    else
      match output page with
      | None => s
      | Some out =>
        if bool_decide (generatedLines out = 0%nat) then s
        else
          let outputWidth := JS.or (outputWidth out) 800 in
          let dropzoneWidth := offsetWidth dropzone in
          let maxChatWidth := JS.Math_min outputWidth (dropzoneWidth - 40) in
          let startX := 20 in
          let final :=
            fold_left (layoutStep startX maxChatWidth (estimatedLineHeightOf page))
              (seq 0 (generatedLines out))
              (mkLayout 20 (lineTransforms (overlay s)) (lineMaxWidths s)) in
          set_lineMaxWidths (maxWidths final)
            (set_overlay (set_lineTransforms (positions final) (overlay s)) s)
      end
  end.

(** [resetChatPosition] *)
Definition resetChatPosition (s : Session) (page : Page) : Session :=
  renderChatOverlay
    (set_lineMaxWidths ∅
       (set_overlay
          (set_lineTransforms ∅
             (set_chatTransform (mkTransform 0 0 1) (overlay s)))
          s))
    page.

(** *** Keyboard *)

(** [positionMap[e.key]] *)
Definition positionMap (k : string) : option string :=
  if String.eqb k "7" then Some "top-left"
  else if String.eqb k "8" then Some "top-center"
  else if String.eqb k "9" then Some "top-right"
  else if String.eqb k "4" then Some "middle-left"
  else if String.eqb k "5" then Some "middle-center"
  else if String.eqb k "6" then Some "middle-right"
  else if String.eqb k "1" then Some "bottom-left"
  else if String.eqb k "2" then Some "bottom-center"
  else if String.eqb k "3" then Some "bottom-right"
  else None.

Definition isArrowKey (k : string) : bool :=
  String.eqb k "ArrowUp" || String.eqb k "ArrowDown"
  || String.eqb k "ArrowLeft" || String.eqb k "ArrowRight".

(** The [switch] on the arrow key: [(deltaX, deltaY)]. *)
Definition arrowDelta (k : string) (step : Q) : Q * Q :=
  if String.eqb k "ArrowUp" then (0, - step)
  else if String.eqb k "ArrowDown" then (0, step)
  else if String.eqb k "ArrowLeft" then (- step, 0)
  else if String.eqb k "ArrowRight" then (step, 0)
  else (0, 0).

(** The arrow-key branch of the keydown listener. *)
Definition nudge (s : Session) (page : Page) (e : KeyEvent) : Session :=
  let step := if k_shiftKey e then 1 else 10 in
  let '(deltaX, deltaY) := arrowDelta (key e) step in
  match selectedElement (selection s) with
  | chatSelected =>
    let t := chatTransform (overlay s) in
    set_overlay
      (set_chatTransform (with_position (t_x t + deltaX) (t_y t + deltaY) t) (overlay s))
      s
  | lineSelected lineIndex =>
    let old := default (mkPoint 0 0) (lineTransforms (overlay s) !! lineIndex) in
    let pos := mkPoint (p_x old + deltaX) (p_y old + deltaY) in
    let s1 :=
      set_overlay
        (set_lineTransforms
           (<[lineIndex := pos]> (lineTransforms (overlay s))) (overlay s))
        s in
    checkAndShowAlignmentGuides s1 page lineIndex (p_x pos) (p_y pos)
  | noSelection => s
  end.

(** The keydown listener. *)
Definition onKeyDown (s : Session) (page : Page) (e : KeyEvent) : Session :=
  match currentMode s with
  | chatMode => s
  | overlayMode =>
    let noModifier := negb (k_ctrlKey e) && negb (k_metaKey e) && negb (k_altKey e) in
    let isInInput := activeElementIsInput page in
    let s1 :=
      if (String.eqb (key e) "r" || String.eqb (key e) "R")
         && noModifier && negb isInInput
      then resetChatPosition s page else s in
    if noModifier then
      if isInInput then s1
      else
        let s2 :=
          match positionMap (key e) with
          | Some position =>
            set_overlay (setQuickPosition (overlay s1) (document page) position) s1
          | None => s1
          end in
        if isArrowKey (key e)
           && negb (bool_decide (selectedElement (selection s2) = noSelection))
        then nudge s2 page e
        else s2
    else s1
  end.

(** The click listener of the mode button. *)
Definition toggleMode (s : Session) : Session :=
  set_currentMode
    (match currentMode s with chatMode => overlayMode | overlayMode => chatMode end) s.

(** *** Mouse listeners *)

(** The mousedown listener of the dropzone.  [clickedLine] is the closest
    [.chat-line-wrapper] of the target with its bounding rectangle, and
    [insideChat] tells whether the target is the chat container or inside
    it. *)
Definition onMouseDown (s : Session) (page : Page) (e : MouseEvent)
    (clickedLine : option (LineWrapper * Point)) (insideChat : bool) : Outcome :=
  match overlayImage (document page) with
  | None => Returned s
  | Some _ =>
    let isClickOnChat :=
      bool_decide (is_Some (chatOverlayContainer (document page))) && insideChat in
    match clickedLine with
    | Some (lineWrapper, rect) =>
      if isLineDraggingEnabled s then
        let lineIndex := dataset_lineIndex lineWrapper in
        let addToSelection := m_shiftKey e || m_ctrlKey e || m_metaKey e in
        let s1 := selectElement s (lineSelected lineIndex) (Some lineWrapper) addToSelection in
        if addToSelection then Returned s1
        else startLinePan s1 (document page) e lineWrapper rect
      else if isImageDraggingEnabled (overlay s) then
        Returned (startImagePan (selectElement s noSelection None false) e)
      else Returned s
    | None =>
      if isClickOnChat && isChatDraggingEnabled (overlay s) then
        Returned (startChatPan (selectElement s chatSelected None false) e)
      else if isImageDraggingEnabled (overlay s) then
        Returned (startImagePan (selectElement s noSelection None false) e)
      else Returned s
    end
  end.

(** The mousemove listener of the document. *)
Definition onMouseMove (s : Session) (page : Page) (e : MouseEvent) : Session :=
  if isPanning (imagePan s) then updateImagePan s (document page) e
  else if isChatPanning (chatPan s) then updateChatPan s (document page) e
  else if isLinePanning (linePan s) then updateLinePan s page e
  else s.

(** The mouseup listener of the document. *)
Definition onMouseUp (s : Session) : Session :=
  if isPanning (imagePan s) || isChatPanning (chatPan s) || isLinePanning (linePan s)
  then stopPan s else s.

(** *** Vocabulary for the properties *)

(** The position [checkAndShowAlignmentGuides] takes for line [j]: the stored
    one, or the origin. *)
Definition linePosition (s : Session) (j : nat) : Point :=
  default (mkPoint 0 0) (lineTransforms (overlay s) !! j).

(** Line [j] is another line whose height, respectively left edge, is within
    the alignment threshold of [y], respectively [x]. *)
Definition alignsH (s : Session) (current : nat) (y : Q) (j : nat) : Prop :=
  j ≠ current ∧ Qabs (y - p_y (linePosition s j)) <= alignmentThreshold s.
Definition alignsV (s : Session) (current : nat) (x : Q) (j : nat) : Prop :=
  j ≠ current ∧ Qabs (x - p_x (linePosition s j)) <= alignmentThreshold s.

(** The last index below [n] that satisfies [P], with its value. *)
Definition lastMatch (P : nat → bool) (val : nat → Q) (n : nat) : option Guide :=
  fold_left (λ acc i, if P i then Some (mkGuide (val i) i) else acc) (seq 0 n) None.

(** The two tests of [alignStep] on line [j]. *)
Definition hTest (s : Session) (current : nat) (y : Q) (j : nat) : bool :=
  negb (bool_decide (j = current))
  && Qle_bool (Qabs (y - p_y (linePosition s j))) (alignmentThreshold s).

Definition vTest (s : Session) (current : nat) (x : Q) (j : nat) : bool :=
  negb (bool_decide (j = current))
  && Qle_bool (Qabs (x - p_x (linePosition s j))) (alignmentThreshold s).

(** The layout [renderChatOverlay] computes when it gets as far as the
    [forEach]. *)
Definition renderLayout (s : Session) (page : Page) (dz : Element) (out : Output)
    : Layout :=
  fold_left
    (layoutStep 20 (JS.Math_min (JS.or (outputWidth out) 800) (offsetWidth dz - 40))
       (estimatedLineHeightOf page))
    (seq 0 (generatedLines out))
    (mkLayout 20 (lineTransforms (overlay s)) (lineMaxWidths s)).

(** The page lets [renderChatOverlay] reach the lines: dropzone and output
    are found, and there is an image element or an image layer. *)
Definition renders (page : Page) (dz : Element) (out : Output) : Prop :=
  imageDropzone (document page) = Some dz ∧
  (is_Some (overlayImage (document page)) ∨ hasImageLayers page = true) ∧
  output page = Some out.

(** The number keys as they lie on a numeric keypad: row 0 is the top row
    (7 8 9), column 0 the left column (7 4 1). *)
Definition numpadKey (row col : nat) : string :=
  match row, col with
  | 0%nat, 0%nat => "7" | 0%nat, 1%nat => "8" | 0%nat, _ => "9"
  | 1%nat, 0%nat => "4" | 1%nat, 1%nat => "5" | 1%nat, _ => "6"
  | _, 0%nat => "1" | _, 1%nat => "2" | _, _ => "3"
  end.

(** Where a block of extent [size] sits in a container of extent [extent]:
    20px from the near edge (0), centred (1), 20px from the far edge (2). *)
Definition anchor (place : nat) (extent size : Q) : Q :=
  match place with
  | 0%nat => 20
  | 1%nat => (extent - size) / 2
  | _ => extent - size - 20
  end.

(** The selection fields agree: no wrapper element is held twice in
    [selectedLineWrappers], the primary wrapper is the last of them, and the
    selected element is that wrapper's line index, or is no line when no
    wrapper is selected.  (Two wrapper elements can carry the same line
    index: [renderChatOverlay] creates the wrappers anew and does not clear
    the selection.) *)
Definition primaryIsLast (sel : Selected) : Prop :=
  NoDup (selectedLineWrappers sel) ∧
  selectedLineWrapper sel = last (selectedLineWrappers sel) ∧
  match last (selectedLineWrappers sel), selectedElement sel with
  | Some primary, e => e = lineSelected (dataset_lineIndex primary)
  | None, lineSelected _ => False
  | None, _ => True
  end.

(** The state a handler leaves, whether it returned or threw. *)
Definition stateOf (o : Outcome) : Session :=
  match o with
  | Returned s => s
  | Thrown s => s
  end.

(** No drag is in progress. *)
Definition idle (s : Session) : Prop :=
  isPanning (imagePan s) = false ∧
  isChatPanning (chatPan s) = false ∧
  isLinePanning (linePan s) = false.

End Interaction.

(** ** Sample sessions *)

Module InteractionSamples.
Import ImageOverlay Interaction Samples.
Local Open Scope Q_scope.

(** The sample scene as a session in overlay mode. *)
Definition sampleSession : Session :=
  set_currentMode overlayMode (set_overlay sampleState initialSession).

(** The image zoomed to 4.0 and moved to (150, -40). *)
Definition zoomedState : State :=
  set_imageTransform (mkTransform 150 (-40) 4.0) sampleState.
Definition zoomedSession : Session := set_overlay zoomedState sampleSession.

(** A page with the chat block, three generated lines and font size 14. *)
Definition samplePage : Page :=
  {| document := chatDocument;
     lineWrapperCount := 3;
     activeElementIsInput := false;
     hasImageLayers := false;
     output := Some (mkOutput 600 3);
     fontLabel := Some (Some 14%Z) |}.

(** A page whose document holds the image but no dropzone. *)
Definition noDropzoneDocument : Document := mkDocument (Some sampleImage) None None.

Definition pressAt (x y : Q) : MouseEvent := mkMouseEvent x y false false false.
Definition shiftAt (x y : Q) : MouseEvent := mkMouseEvent x y true false false.

Definition lineA : LineWrapper := mkLineWrapper 0 0.
Definition lineB : LineWrapper := mkLineWrapper 1 1.

Definition arrow (name : string) (shift : bool) : KeyEvent :=
  mkKeyEvent name false false false shift.

(** The sample session after a click on the chat block, and after a click
    on line 1. *)
Definition chatSelectedSession : Session :=
  selectElement sampleSession chatSelected None false.
Definition lineSelectedSession : Session :=
  selectElement sampleSession (lineSelected 1) (Some lineB) false.

(** Lines 0 and 2 stored at the same height, line 1 elsewhere. *)
Definition alignedSession : Session :=
  set_overlay
    (set_lineTransforms
       (<[0%nat := mkPoint 20 100]>
          (<[1%nat := mkPoint 300 200]> (<[2%nat := mkPoint 60 101]> ∅)))
       sampleState)
    sampleSession.

End InteractionSamples.

(** ** The dropzone size of the layer panel ([LayerUI])

    [offsetWidth], [innerWidth] and [innerHeight] are numbers; [parseInt]
    gives an integer or NaN. *)

Module LayerUI.
Local Open Scope Q_scope.

(** What [updateDropzoneSize] reads. *)
Record Viewport := mkViewport {
  hasDropzone : bool;                (* getElementById('imageDropzone') *)
  exportWidth : option Z;            (* parseInt(exportWidthInput?.value); None is NaN *)
  exportHeight : option Z;           (* parseInt(exportHeightInput?.value); None is NaN *)
  containerOffsetWidth : option Q;   (* dropzone.parentElement, its offsetWidth *)
  innerWidth : Q;                    (* window.innerWidth *)
  innerHeight : Q                    (* window.innerHeight *)
}.

(** [parseInt(...) || d]: NaN and 0 are falsy. *)
Definition parsedOr (v : option Z) (d : Z) : Z :=
  match v with
  | Some n => if (n =? 0)%Z then d else n
  | None => d
  end.

(** [Math.round]: the nearest integer, halves upwards. *)
Definition Math_round (x : Q) : Z := Qfloor (x + (1 # 2)).

(** [maxWidth] of [updateDropzoneSize] *)
Definition maxWidthOf (v : Viewport) : Q :=
  match containerOffsetWidth v with
  | Some w => if JS.gt w 0 then w - 40 else JS.Math_min (innerWidth v - 60) 1400
  | None => JS.Math_min (innerWidth v - 60) 1400
  end.

(** [maxHeight] of [updateDropzoneSize] *)
Definition maxHeightOf (v : Viewport) : Q :=
  JS.Math_max 400 (innerHeight v - 350).

(** [width / maxWidth > height / maxHeight]; a quotient by zero is an
    infinity with the sign of the dividend ([maxHeight] is at least 400). *)
Definition widthLimits (width height : Z) (maxWidth maxHeight : Q) : bool :=
  if Qeq_bool maxWidth 0 then (0 <? width)%Z
  else JS.gt (inject_Z width / maxWidth) (inject_Z height / maxHeight).

(** [updateDropzoneSize]: the [newWidth] and [newHeight] it gives the
    dropzone and stores as [dropZoneWidth] and [dropZoneHeight] of the overlay
    state; [None] when there is no dropzone. *)
Definition updateDropzoneSize (v : Viewport) : option (Q * Q) :=
  if hasDropzone v then
    let width := parsedOr (exportWidth v) 1920 in
    let height := parsedOr (exportHeight v) 1080 in
    let aspectRatio := inject_Z width / inject_Z height in
    let maxWidth := maxWidthOf v in
    let maxHeight := maxHeightOf v in
    if widthLimits width height maxWidth maxHeight then
      let newWidth := JS.Math_min (inject_Z width) maxWidth in
      let newHeight := inject_Z (Math_round (newWidth / aspectRatio)) in
      Some (newWidth, newHeight)
    else
      let newHeight := JS.Math_min (inject_Z height) maxHeight in
      let newWidth := inject_Z (Math_round (newHeight * aspectRatio)) in
      Some (newWidth, newHeight)
  else None.

(** A 1280x720 export in a 1000px wide container of a 900px high window. *)
Definition sampleViewport : Viewport :=
  mkViewport true (Some 1280%Z) (Some 720%Z) (Some 1000) 1600 900.

End LayerUI.

(** ** The rate limiter of the bug-report endpoint

    [Date.now()] is an integer number of milliseconds; [requestLog] is the
    module's [Map] from key to timestamps. *)

Module BugReport.
Local Open Scope Z_scope.

Definition RATE_WINDOW_MS : Z := 60000.
Definition RATE_MAX : nat := 5.

(** [allowRequest(key)] at time [now]: the answer and the log it leaves. *)
Definition allowRequest (requestLog : gmap string (list Z)) (now : Z) (key : string)
    : bool * gmap string (list Z) :=
  let windowStart := now - RATE_WINDOW_MS in
  let arr := filter (λ t, windowStart < t) (default [] (requestLog !! key)) in
  if decide (RATE_MAX ≤ length arr)%nat then (false, requestLog)
  else (true, <[key := arr ++ [now]]> requestLog).

(** A request as the limiter sees it, and a served request with its answer. *)
Record Request := mkRequest { at_time : Z; by_key : string }.
Record Served := mkServed { request : Request; allowed : bool }.

(** The requests one function instance serves, in order, from the empty log
    of a freshly loaded module. *)
Definition serve (reqs : list Request) : list Served * gmap string (list Z) :=
  fold_left
    (λ acc r,
       let '(answer, requestLog) := allowRequest (snd acc) (at_time r) (by_key r) in
       (fst acc ++ [mkServed r answer], requestLog))
    reqs ([], ∅).

(** The times of the allowed requests of [key]. *)
Definition allowedTimes (key : string) (history : list Served) : list Z :=
  (λ sv, at_time (request sv))
    <$> filter (λ sv, allowed sv = true ∧ by_key (request sv) = key) history.

(** The clock never goes back over a sequence of readings. *)
Definition neverBack (times : list Z) : Prop :=
  ∀ i j a b, (i ≤ j)%nat → times !! i = Some a → times !! j = Some b → a ≤ b.

(** Five requests of one session within a second. *)
Definition burst : list Request :=
  (λ t, mkRequest t "session") <$> [1000; 1100; 1200; 1300; 1400].

End BugReport.

(** ** Text helpers of the parser ([parser-utils.js])

    A string is its sequence of UTF-16 code units. *)

Module ParserUtils.
Local Open Scope N_scope.

Definition JSString := list N.

(** The apostrophe, ['] *)
Definition apostrophe : N := 39.

(** [result.replace(c, d)] for one-unit strings [c] and [d]: the first
    occurrence is replaced. *)
Fixpoint replaceFirst (c d : N) (result : JSString) : JSString :=
  match result with
  | [] => []
  | x :: rest => if decide (x = c) then d :: rest else x :: replaceFirst c d rest
  end.

(** [charCode >= 8216 && charCode <= 8219 && charCode !== 39] *)
Definition isCurlyCode (charCode : N) : bool :=
  (8216 <=? charCode) && (charCode <=? 8219) && negb (charCode =? 39).

(** The class of the final [replace]: U+2019, U+2018, U+2035, U+2032. *)
Definition inQuoteClass (c : N) : bool :=
  (c =? 8217) || (c =? 8216) || (c =? 8245) || (c =? 8242).

(** [replaceCurlyApostrophes(text)] *)
Definition replaceCurlyApostrophes (text : JSString) : JSString :=
  let result :=
    fold_left
      (λ result c, if isCurlyCode c then replaceFirst c apostrophe result else result)
      text text in
  (λ c, if inQuoteClass c then apostrophe else c) <$> result.

(** One code unit with the quote marks U+2018 to U+201B, U+2032 and U+2035
    turned into the apostrophe. *)
Definition straightened (c : N) : N :=
  if decide (8216 ≤ c ≤ 8219 ∨ c = 8242 ∨ c = 8245) then apostrophe else c.

End ParserUtils.

(** ** Reads of elements that may be missing

    [document.getElementById] and the DOM cache give an element or [null],
    and reading a property of [null] throws a TypeError.  Here
    [calculateImageBounds] is written out with every property read of a
    looked-up element as a step of its own that throws on [null]. *)

Module Checked.
Import ImageOverlay.
Local Open Scope Q_scope.

(** How an evaluation ends: with a value, or with a thrown TypeError. *)
Inductive Completion (A : Type) :=
  | Normal (value : A)
  | TypeError.
Arguments Normal {A} value.
Arguments TypeError {A}.

#[global] Instance Completion_ret : MRet Completion := λ A, Normal.
#[global] Instance Completion_bind : MBind Completion := λ A B k c,
  match c with
  | Normal a => k a
  | TypeError => TypeError
  end.

(** [!element] *)
Definition isNull (element : option Element) : bool :=
  match element with
  | None => true
  | Some _ => false
  end.

(** [element.property] *)
Definition read {A} (element : option Element) (property : Element → A)
    : Completion A :=
  match element with
  | Some el => Normal (property el)
  | None => TypeError
  end.

(** [a || element.property]: the property is read only when [a] is falsy. *)
Definition orRead (a : Q) (element : option Element) (property : Element → Q)
    : Completion Q :=
  if JS.truthy a then Normal a else read element property.

(** [calculateImageBounds], read by read. *)
Definition calculateImageBounds (st : State) (doc : Document) : Completion Bounds :=
  let img := overlayImage doc in
  if isNull img then mret BOUNDS_FALLBACK
  else
    displayWidth ← orRead (width (displayDimensions st)) img offsetWidth;
    displayHeight ← orRead (height (displayDimensions st)) img offsetHeight;
    if negb (JS.truthy displayWidth) || negb (JS.truthy displayHeight)
    then mret BOUNDS_FALLBACK
    else
      let dropzone := resolveDropzone st doc in
      if isNull dropzone then mret BOUNDS_FALLBACK
      else
        offsetW ← read dropzone offsetWidth;
        let dropzoneWidth := JS.or offsetW (dropZoneWidth st) in
        offsetH ← read dropzone offsetHeight;
        let dropzoneHeight := JS.or offsetH (dropZoneHeight st) in
        let imageCenterX := p_x (basePosition st) + displayWidth / 2 in
        let imageCenterY := p_y (basePosition st) + displayHeight / 2 in
        let scaledWidth := displayWidth * t_scale (imageTransform st) in
        let scaledHeight := displayHeight * t_scale (imageTransform st) in
        let leftEdgeLimit := JS.Math_min 0 (- (scaledWidth - dropzoneWidth)) in
        let minX := leftEdgeLimit - imageCenterX + scaledWidth / 2 in
        let rightEdgeLimit := JS.Math_max dropzoneWidth scaledWidth in
        let maxX := rightEdgeLimit - imageCenterX - scaledWidth / 2 in
        let topEdgeLimit := JS.Math_min 0 (- (scaledHeight - dropzoneHeight)) in
        let minY := topEdgeLimit - imageCenterY + scaledHeight / 2 in
        let bottomEdgeLimit := JS.Math_max dropzoneHeight scaledHeight in
        let maxY := bottomEdgeLimit - imageCenterY - scaledHeight / 2 in
        mret {| minX := minX; maxX := maxX; minY := minY; maxY := maxY |}.

End Checked.

(** * Properties *)

(** ** Arithmetic helpers *)

Section NumberFacts.
Local Open Scope Q_scope.

Lemma Qdiv2 (q : Q) : q / 2 == q * (1 # 2).
Proof. field. Qed.

Lemma truthy_false (q : Q) : JS.truthy q = false ↔ q == 0.
Proof.
  unfold JS.truthy. rewrite negb_false_iff. apply Qeq_bool_iff.
Qed.

Lemma truthy_true (q : Q) : JS.truthy q = true ↔ ¬ q == 0.
Proof.
  rewrite <- truthy_false. destruct (JS.truthy q); split; congruence.
Qed.

Lemma lt_true (a b : Q) : JS.lt a b = true ↔ a < b.
Proof.
  unfold JS.lt. rewrite negb_true_iff. split.
  - intros H. apply Qnot_le_lt. intros Hle.
    apply Qle_bool_iff in Hle. congruence.
  - intros H. destruct (Qle_bool b a) eqn:E; [|reflexivity].
    apply Qle_bool_iff in E. apply Qlt_not_le in H. contradiction.
Qed.

Lemma lt_false (a b : Q) : JS.lt a b = false ↔ b <= a.
Proof.
  unfold JS.lt. rewrite negb_false_iff. apply Qle_bool_iff.
Qed.

(** [Math.max(lo, Math.min(hi, v))] lands in [[lo, hi]] when [lo <= hi]. *)
Lemma clamp_range (lo hi v : Q) :
  lo <= hi → lo <= Qmax lo (Qmin hi v) ∧ Qmax lo (Qmin hi v) <= hi.
Proof.
  intros Hle. split.
  - apply Q.le_max_l.
  - apply Q.max_lub; [exact Hle | apply Q.le_min_l].
Qed.

Lemma min_cases (a b : Q) :
  (a < b ∧ Qmin a b == a) ∨ (b <= a ∧ Qmin a b == b).
Proof. apply Q.min_spec. Qed.

Lemma max_cases (a b : Q) :
  (a < b ∧ Qmax a b == b) ∨ (b <= a ∧ Qmax a b == a).
Proof. apply Q.max_spec. Qed.

End NumberFacts.

(** Linear arithmetic after case analysis of the [min]/[max] in the goal. *)
Ltac qlin := rewrite ?Qdiv2 in *; lra.

(** ** Bounds calculator *)

Section BoundsCalculator.
Import ImageOverlay Samples.
Local Open Scope Q_scope.

(** When image and dropzone are found and the display size is non-zero, the
    bounds are the computed ones. *)
Lemma calculateImageBounds_computed (st : State) (doc : Document)
    (img dropzone : Element) :
  overlayImage doc = Some img →
  resolveDropzone st doc = Some dropzone →
  ¬ displayWidthOf st img == 0 →
  ¬ displayHeightOf st img == 0 →
  let dW := displayWidthOf st img in
  let dH := displayHeightOf st img in
  let W := containerWidthOf st dropzone in
  let Hc := containerHeightOf st dropzone in
  let s := t_scale (imageTransform st) in
  calculateImageBounds st doc =
    {| minX := Qmin 0 (- (dW * s - W)) - (p_x (basePosition st) + dW / 2) + dW * s / 2;
       maxX := Qmax W (dW * s) - (p_x (basePosition st) + dW / 2) - dW * s / 2;
       minY := Qmin 0 (- (dH * s - Hc)) - (p_y (basePosition st) + dH / 2) + dH * s / 2;
       maxY := Qmax Hc (dH * s) - (p_y (basePosition st) + dH / 2) - dH * s / 2 |}.
Proof.
  intros Himg Hdz HW HH. unfold calculateImageBounds.
  rewrite Himg, Hdz.
  apply truthy_true in HW, HH.
  unfold displayWidthOf, displayHeightOf in HW, HH.
  rewrite HW, HH. reflexivity.
Qed.

(** C1: with image and dropzone present and a non-zero display size, the
    bounds on each axis are [min = min(0, -(2H - W)) - C + H] and
    [max = max(W, 2H) - C - H], where [C] is the element centre
    (base position plus half the display size), [H] the scaled half-extent
    (display size times scale, halved) and [W] the container extent. *)
Theorem calculateImageBounds_formula (st : State) (doc : Document)
    (img dropzone : Element) :
  overlayImage doc = Some img →
  resolveDropzone st doc = Some dropzone →
  ¬ displayWidthOf st img == 0 →
  ¬ displayHeightOf st img == 0 →
  ¬ containerWidthOf st dropzone == 0 →
  ¬ containerHeightOf st dropzone == 0 →
  let s := t_scale (imageTransform st) in
  let W := containerWidthOf st dropzone in
  let Hc := containerHeightOf st dropzone in
  let CX := p_x (basePosition st) + displayWidthOf st img / 2 in
  let CY := p_y (basePosition st) + displayHeightOf st img / 2 in
  let HX := displayWidthOf st img * s / 2 in
  let HY := displayHeightOf st img * s / 2 in
  let b := calculateImageBounds st doc in
  minX b == Qmin 0 (- (2 * HX - W)) - CX + HX ∧
  maxX b == Qmax W (2 * HX) - CX - HX ∧
  minY b == Qmin 0 (- (2 * HY - Hc)) - CY + HY ∧
  maxY b == Qmax Hc (2 * HY) - CY - HY.
Proof.
  intros Himg Hdz HW HH _ _ s W Hc CX CY HX HY b.
  subst b. rewrite (calculateImageBounds_computed st doc img dropzone) by assumption.
  cbn [minX maxX minY maxY].
  assert (EX : 2 * HX == displayWidthOf st img * s) by (unfold HX; field).
  assert (EY : 2 * HY == displayHeightOf st img * s) by (unfold HY; field).
  rewrite EX, EY. repeat split; reflexivity.
Qed.

Lemma calculateImageBounds_formula_witness :
  let b := calculateImageBounds sampleState sampleDocument in
  minX b == Qmin 0 (- (2 * (400 * 1 / 2) - 800)) - (200 + 400 / 2) + 400 * 1 / 2 ∧
  maxX b == Qmax 800 (2 * (400 * 1 / 2)) - (200 + 400 / 2) - 400 * 1 / 2 ∧
  minY b == Qmin 0 (- (2 * (300 * 1 / 2) - 600)) - (150 + 300 / 2) + 300 * 1 / 2 ∧
  maxY b == Qmax 600 (2 * (300 * 1 / 2)) - (150 + 300 / 2) - 300 * 1 / 2.
Proof.
  apply (calculateImageBounds_formula sampleState sampleDocument
           sampleImage sampleDropzone);
    try reflexivity; vm_compute; discriminate.
Defined.

(** The range is never empty, whatever the state and the document. *)
Lemma calculateImageBounds_ordered (st : State) (doc : Document) :
  minX (calculateImageBounds st doc) <= maxX (calculateImageBounds st doc) ∧
  minY (calculateImageBounds st doc) <= maxY (calculateImageBounds st doc).
Proof.
  unfold calculateImageBounds.
  destruct (overlayImage doc) as [img|]; [|split; vm_compute; discriminate].
  destruct (negb _ || negb _); [split; vm_compute; discriminate|].
  destruct (resolveDropzone st doc) as [dz|]; [|split; vm_compute; discriminate].
  cbn [minX maxX minY maxY]. unfold JS.Math_min, JS.Math_max.
  set (SW := JS.or (width (displayDimensions st)) (offsetWidth img) * _).
  set (SH := JS.or (height (displayDimensions st)) (offsetHeight img) * _).
  set (W := JS.or (offsetWidth dz) _). set (Hc := JS.or (offsetHeight dz) _).
  split.
  - destruct (min_cases 0 (- (SW - W))) as [[? E1]|[? E1]];
      destruct (max_cases W SW) as [[? E2]|[? E2]]; rewrite E1, E2; qlin.
  - destruct (min_cases 0 (- (SH - Hc))) as [[? E1]|[? E1]];
      destruct (max_cases Hc SH) as [[? E2]|[? E2]]; rewrite E1, E2; qlin.
Qed.

(** On one axis: when the scaled size fits the container, both extremes of
    the range keep the low edge at or after 0 and the high edge at or before
    the container extent. *)
Lemma axis_extremes_contained (W C S : Q) :
  S <= W →
  let lo := Qmin 0 (- (S - W)) - C + S / 2 in
  let hi := Qmax W S - C - S / 2 in
  (0 <= lowEdge C S lo ∧ highEdge C S lo <= W) ∧
  (0 <= lowEdge C S hi ∧ highEdge C S hi <= W).
Proof.
  intros Hfit lo hi. subst lo hi. unfold lowEdge, highEdge.
  destruct (min_cases 0 (- (S - W))) as [[? E1]|[? E1]];
    destruct (max_cases W S) as [[? E2]|[? E2]]; rewrite E1, E2;
    repeat split; qlin.
Qed.

(** C2: the bounds satisfy [minX <= maxX] and [minY <= maxY] for every scale;
    and for positive element sizes, on an axis where the scaled element size
    is at most the container size, translating to either extreme of the
    range keeps the element's edges inside the container: its low (left, top)
    edge is not before 0 and its high (right, bottom) edge is not past the
    container extent; with a non-negative scale the low edge is the smaller
    one, so both edges lie in [0, extent]. *)
Theorem calculateImageBounds_range_contained (st : State) (doc : Document)
    (img dropzone : Element) :
  overlayImage doc = Some img →
  resolveDropzone st doc = Some dropzone →
  0 < displayWidthOf st img →
  0 < displayHeightOf st img →
  0 < containerWidthOf st dropzone →
  0 < containerHeightOf st dropzone →
  let s := t_scale (imageTransform st) in
  let W := containerWidthOf st dropzone in
  let Hc := containerHeightOf st dropzone in
  let CX := p_x (basePosition st) + displayWidthOf st img / 2 in
  let CY := p_y (basePosition st) + displayHeightOf st img / 2 in
  let SX := displayWidthOf st img * s in
  let SY := displayHeightOf st img * s in
  let b := calculateImageBounds st doc in
  (minX b <= maxX b ∧ minY b <= maxY b) ∧
  (SX <= W →
     (0 <= lowEdge CX SX (minX b) ∧ highEdge CX SX (minX b) <= W) ∧
     (0 <= lowEdge CX SX (maxX b) ∧ highEdge CX SX (maxX b) <= W)) ∧
  (SY <= Hc →
     (0 <= lowEdge CY SY (minY b) ∧ highEdge CY SY (minY b) <= Hc) ∧
     (0 <= lowEdge CY SY (maxY b) ∧ highEdge CY SY (maxY b) <= Hc)) ∧
  (0 <= s →
     ∀ t, lowEdge CX SX t <= highEdge CX SX t ∧
          lowEdge CY SY t <= highEdge CY SY t).
Proof.
  intros Himg Hdz HdW HdH _ _ s W Hc CX CY SX SY b.
  split; [apply calculateImageBounds_ordered|].
  subst b. rewrite (calculateImageBounds_computed st doc img dropzone);
    [|assumption|assumption|lra|lra].
  cbn [minX maxX minY maxY]. fold s W Hc SX SY CX CY.
  split; [|split].
  - intros Hfit. apply axis_extremes_contained, Hfit.
  - intros Hfit. apply axis_extremes_contained, Hfit.
  - intros Hs t. unfold lowEdge, highEdge.
    assert (0 <= SX) by (unfold SX; apply Qmult_le_0_compat; lra).
    assert (0 <= SY) by (unfold SY; apply Qmult_le_0_compat; lra).
    split; qlin.
Qed.

Lemma calculateImageBounds_range_contained_witness :
  let b := calculateImageBounds sampleState sampleDocument in
  (minX b <= maxX b ∧ minY b <= maxY b) ∧
  ((0 <= lowEdge (200 + 400 / 2) (400 * 1) (minX b) ∧
    highEdge (200 + 400 / 2) (400 * 1) (minX b) <= 800) ∧
   (0 <= lowEdge (200 + 400 / 2) (400 * 1) (maxX b) ∧
    highEdge (200 + 400 / 2) (400 * 1) (maxX b) <= 800)) ∧
  ((0 <= lowEdge (150 + 300 / 2) (300 * 1) (minY b) ∧
    highEdge (150 + 300 / 2) (300 * 1) (minY b) <= 600) ∧
   (0 <= lowEdge (150 + 300 / 2) (300 * 1) (maxY b) ∧
    highEdge (150 + 300 / 2) (300 * 1) (maxY b) <= 600)).
Proof.
  pose proof (calculateImageBounds_range_contained sampleState sampleDocument
                sampleImage sampleDropzone) as H.
  destruct H as (Hord & HX & HY & _); try reflexivity.
  split; [exact Hord|]. split.
  - apply HX. vm_compute. discriminate.
  - apply HY. vm_compute. discriminate.
Defined.




(** The frame callback leaves the scale in [1, 5] and the translation inside
    the bounds of the state it leaves. *)
Lemma updateImageTransform_in_bounds (st : State) (doc : Document) (img : Element) :
  overlayImage doc = Some img →
  let st' := updateImageTransform st doc in
  let b := calculateImageBounds st' doc in
  (minX b <= t_x (imageTransform st') ∧ t_x (imageTransform st') <= maxX b) ∧
  (minY b <= t_y (imageTransform st') ∧ t_y (imageTransform st') <= maxY b) ∧
  (1 <= t_scale (imageTransform st') ∧ t_scale (imageTransform st') <= 5).
Proof.
  intros Himg st' b. subst b st'. unfold updateImageTransform. rewrite Himg.
  set (cs := JS.Math_max (calculateMinScale st)
               (JS.Math_min 5 (t_scale (imageTransform st)))).
  set (st1 := set_imageTransform (with_scale cs (imageTransform st)) st).
  set (b1 := calculateImageBounds st1 doc).
  change (calculateImageBounds (set_imageTransform _ st1) doc) with b1.
  cbn [set_imageTransform imageTransform t_x t_y t_scale].
  destruct (calculateImageBounds_ordered st1 doc) as [HX HY]. fold b1 in HX, HY.
  split; [apply clamp_range, HX|]. split; [apply clamp_range, HY|].
  subst cs. unfold calculateMinScale, JS.Math_max, JS.Math_min.
  assert (E : 1.0 == 1) by reflexivity. rewrite E.
  apply clamp_range. vm_compute. discriminate.
Qed.

Lemma updateImageTransform_in_bounds_witness :
  let st' := updateImageTransform InteractionSamples.zoomedState sampleDocument in
  let b := calculateImageBounds st' sampleDocument in
  (minX b <= t_x (imageTransform st') ∧ t_x (imageTransform st') <= maxX b) ∧
  (minY b <= t_y (imageTransform st') ∧ t_y (imageTransform st') <= maxY b) ∧
  (1 <= t_scale (imageTransform st') ∧ t_scale (imageTransform st') <= 5).
Proof.
  apply (updateImageTransform_in_bounds InteractionSamples.zoomedState
           sampleDocument sampleImage).
  reflexivity.
Defined.

End BoundsCalculator.

(** ** Zooming *)

Section Zoom.
Import ImageOverlay Samples.
Local Open Scope Q_scope.

Lemma wheelFactor_cases (e : WheelEvent) :
  wheelFactor e = 0.9 ∨ wheelFactor e = 1.1.
Proof. unfold wheelFactor. destruct (JS.gt _ _); auto. Qed.

(** The chat scale is not touched by the image branch. *)
Lemma wheelImage_chatTransform (st : State) (dz : Element) (e : WheelEvent) :
  chatTransform (wheelImage st dz e) = chatTransform st.
Proof. reflexivity. Qed.

Lemma wheelChat_scale (st : State) (e : WheelEvent) :
  t_scale (chatTransform (wheelChat st e)) =
    Qmax ZOOM_MIN_SCALE (Qmin ZOOM_MAX_SCALE (t_scale (chatTransform st) * wheelFactor e)).
Proof. reflexivity. Qed.

(** C3, as stated, fails for the wheel: one modifier-key notch upwards at
    chat scale 2.0 leaves the chat scale at 2.2. *)
Lemma wheel_chat_scale_counterexample :
  t_scale (chatTransform chatAtTwo) == 2.0 ∧
  t_scale (chatTransform
             (onWheel chatAtTwo sampleDocument sampleDropzone None ctrlWheelUp))
    == 2.2 ∧
  ¬ t_scale (chatTransform
               (onWheel chatAtTwo sampleDocument sampleDropzone None ctrlWheelUp))
      <= 2.0.
Proof.
  repeat split; try reflexivity. vm_compute. intros H. apply H. reflexivity.
Qed.

(** C3 (amended): [setChatScale] clamps the chat scale into [0.5, 2.0]; the
    modifier-key wheel zoom clamps it into [ZOOM_MIN_SCALE, ZOOM_MAX_SCALE],
    that is [0.1, 5.0]; and a chat scale inside [0.1, 5.0] stays there under
    both operations, whichever branch the wheel listener takes. *)
Theorem chat_scale_clamped (st : State) :
  (∀ scale,
     0.5 <= t_scale (chatTransform (setChatScale st scale)) ∧
     t_scale (chatTransform (setChatScale st scale)) <= 2.0) ∧
  (∀ doc dropzone selected e img,
     overlayImage doc = Some img →
     ctrlKey e || metaKey e = true →
     isChatDraggingEnabled st = true →
     0.1 <= t_scale (chatTransform (onWheel st doc dropzone selected e)) ∧
     t_scale (chatTransform (onWheel st doc dropzone selected e)) <= 5.0) ∧
  (0.1 <= t_scale (chatTransform st) ∧ t_scale (chatTransform st) <= 5.0 →
   ∀ doc dropzone selected e scale,
     (0.1 <= t_scale (chatTransform (onWheel st doc dropzone selected e)) ∧
      t_scale (chatTransform (onWheel st doc dropzone selected e)) <= 5.0) ∧
     (0.1 <= t_scale (chatTransform (setChatScale st scale)) ∧
      t_scale (chatTransform (setChatScale st scale)) <= 5.0)).
Proof.
  assert (Hset : ∀ scale,
     0.5 <= t_scale (chatTransform (setChatScale st scale)) ∧
     t_scale (chatTransform (setChatScale st scale)) <= 2.0).
  { intros scale. cbn. apply clamp_range. vm_compute. discriminate. }
  assert (Hchat : ∀ e,
     0.1 <= t_scale (chatTransform (wheelChat st e)) ∧
     t_scale (chatTransform (wheelChat st e)) <= 5.0).
  { intros e. rewrite wheelChat_scale. apply clamp_range. vm_compute. discriminate. }
  split; [exact Hset|]. split.
  - intros doc dropzone selected e img Himg Hctl Hdrag.
    unfold onWheel. rewrite Himg, Hctl, Hdrag. cbn [negb andb].
    destruct selected; apply Hchat.
  - intros Hin doc dropzone selected e scale. split.
    + unfold onWheel. destruct (overlayImage doc); [|exact Hin].
      repeat match goal with |- context [if ?c then _ else _] => destruct c end;
        try exact Hin; try apply Hchat.
    + destruct (Hset scale) as [Hlo Hhi]. split.
      * eapply Qle_trans; [|exact Hlo]. vm_compute. discriminate.
      * eapply Qle_trans; [exact Hhi|]. vm_compute. discriminate.
Qed.

Lemma chat_scale_clamped_witness :
  (0.1 <= t_scale (chatTransform
                     (onWheel chatAtTwo sampleDocument sampleDropzone None ctrlWheelUp)) ∧
   t_scale (chatTransform
              (onWheel chatAtTwo sampleDocument sampleDropzone None ctrlWheelUp)) <= 5.0) ∧
  (0.5 <= t_scale (chatTransform (setChatScale chatAtTwo 3)) ∧
   t_scale (chatTransform (setChatScale chatAtTwo 3)) <= 2.0) ∧
  (0.1 <= t_scale (chatTransform
                     (onWheel chatAtTwo sampleDocument sampleDropzone None wheelUpAtCentre)) ∧
   t_scale (chatTransform
              (onWheel chatAtTwo sampleDocument sampleDropzone None wheelUpAtCentre)) <= 5.0).
Proof.
  destruct (chat_scale_clamped chatAtTwo) as (Hset & Hwheel & Hkeep).
  split; [|split].
  - apply (Hwheel sampleDocument sampleDropzone None ctrlWheelUp sampleImage);
      reflexivity.
  - apply Hset.
  - apply (Hkeep ltac:(split; vm_compute; discriminate)
             sampleDocument sampleDropzone None wheelUpAtCentre 1).
Defined.

(** When the listener takes the image branch. *)
Lemma onWheel_image (st : State) (doc : Document) (dropzone : Element)
    (selected : option LayerId) (e : WheelEvent) (img : Element) :
  overlayImage doc = Some img →
  ctrlKey e = false →
  metaKey e = false →
  selected = None ∨ dataset_layerId img = selected →
  isImageDraggingEnabled st = true →
  onWheel st doc dropzone selected e = wheelImage st dropzone e.
Proof.
  intros Himg Hc Hm Hsel Hdrag. unfold onWheel.
  rewrite Himg, Hc, Hm, Hdrag. cbn [orb negb andb].
  destruct selected as [sel|]; [|reflexivity].
  destruct Hsel as [Hsel|Hsel]; [discriminate|].
  rewrite bool_decide_eq_true_2 by exact Hsel. reflexivity.
Qed.

(** How far the image point that was under the pointer is drawn from the
    pointer after the image branch has run: [rel * (old - 1) * (old - new) / old]
    on each axis. *)
Lemma wheelImage_drift (st : State) (dropzone : Element) (e : WheelEvent) :
  ¬ t_scale (imageTransform st) == 0 →
  let st' := wheelImage st dropzone e in
  let old := t_scale (imageTransform st) in
  let new := t_scale (imageTransform st') in
  screenX st' (pointAtX st (mouseX dropzone e)) - mouseX dropzone e
    == mouseRelX st dropzone e * (old - 1) * (old - new) / old ∧
  screenY st' (pointAtY st (mouseY dropzone e)) - mouseY dropzone e
    == mouseRelY st dropzone e * (old - 1) * (old - new) / old.
Proof.
  intros Hold st' old new. subst st'.
  unfold screenX, screenY, pointAtX, pointAtY, mouseRelX, mouseRelY in *.
  cbn [wheelImage set_imageTransform imageTransform basePosition
       displayDimensions t_x t_y t_scale] in *.
  unfold mouseRelX, mouseRelY. fold old.
  subst new. set (new := wheelImageScale st e).
  split; field; exact Hold.
Qed.

(** C8: the handler means to keep the point under the pointer in place (its
    comments say so) and misses: at scale 2.0, with the pointer 100px right
    of the image centre, one notch upwards moves the translation by
    [mouseRelX * (oldScale - newScale) = -20], and the image point that was
    under the pointer (at 500) is then drawn at 490.  [mouseRelX] is a
    distance on the screen, not divided by [oldScale]. *)
Lemma wheel_image_pointer_counterexample :
  let st := imageAtTwo in
  let st' := onWheel st sampleDocument sampleDropzone None wheelUpOffCentre in
  t_scale (imageTransform st) == 2.0 ∧
  t_scale (imageTransform st') == 2.2 ∧
  mouseX sampleDropzone wheelUpOffCentre == 500 ∧
  mouseRelX st sampleDropzone wheelUpOffCentre == 100 ∧
  t_x (imageTransform st') - t_x (imageTransform st) == 100 * (2.0 - 2.2) ∧
  screenX st (pointAtX st 500) == 500 ∧
  screenX st' (pointAtX st 500) == 490 ∧
  ¬ screenX st' (pointAtX st 500) == 500.
Proof.
  repeat split; try reflexivity. vm_compute. discriminate.
Qed.

(** What the image branch of the wheel handler computes: a plain wheel notch
    over the selected image changes the scale from [oldScale] to
    [newScale = max(1, min(5, oldScale * factor))] and adds
    [pointerRelativeToCentre * (oldScale - newScale)] to the translation on
    each axis; at [oldScale] 1 the image point under the pointer is drawn at
    the same place afterwards; and with the pointer on the image's
    translated centre the translation does not change. *)
Lemma wheel_image_translation (st : State) (doc : Document)
    (dropzone : Element) (selected : option LayerId) (e : WheelEvent)
    (img : Element) :
  overlayImage doc = Some img →
  ctrlKey e = false →
  metaKey e = false →
  selected = None ∨ dataset_layerId img = selected →
  isImageDraggingEnabled st = true →
  let st' := onWheel st doc dropzone selected e in
  let oldScale := t_scale (imageTransform st) in
  let newScale := t_scale (imageTransform st') in
  let relX := mouseRelX st dropzone e in
  let relY := mouseRelY st dropzone e in
  newScale == Qmax 1 (Qmin 5 (oldScale * wheelFactor e)) ∧
  t_x (imageTransform st') == t_x (imageTransform st) + relX * (oldScale - newScale) ∧
  t_y (imageTransform st') == t_y (imageTransform st) + relY * (oldScale - newScale) ∧
  (oldScale == 1 →
     screenX st' (pointAtX st (mouseX dropzone e)) == mouseX dropzone e ∧
     screenY st' (pointAtY st (mouseY dropzone e)) == mouseY dropzone e) ∧
  (relX == 0 → relY == 0 →
     t_x (imageTransform st') == t_x (imageTransform st) ∧
     t_y (imageTransform st') == t_y (imageTransform st)).
Proof.
  intros Himg Hc Hm Hsel Hdrag st' oldScale newScale relX relY.
  subst st' newScale.
  rewrite (onWheel_image st doc dropzone selected e img) by assumption.
  split.
  { cbn [wheelImage set_imageTransform imageTransform t_scale].
    unfold wheelImageScale, calculateMinScale, ZOOM_MAX_SCALE,
      JS.Math_max, JS.Math_min. fold oldScale.
    assert (E1 : 1.0 == 1) by reflexivity.
    assert (E5 : 5.0 == 5) by reflexivity.
    rewrite E1, E5. reflexivity. }
  split; [reflexivity|]. split; [reflexivity|]. split.
  - intros Hone.
    assert (Hnz : ¬ t_scale (imageTransform st) == 0).
    { fold oldScale. rewrite Hone. vm_compute. discriminate. }
    destruct (wheelImage_drift st dropzone e Hnz) as [HX HY].
    cbv zeta in HX, HY. fold oldScale in HX, HY.
    set (new := t_scale (imageTransform (wheelImage st dropzone e))) in *.
    rewrite Hone in HX, HY.
    split.
    + assert (E : screenX (wheelImage st dropzone e)
                    (pointAtX st (mouseX dropzone e)) - mouseX dropzone e == 0).
      { rewrite HX. field. }
      lra.
    + assert (E : screenY (wheelImage st dropzone e)
                    (pointAtY st (mouseY dropzone e)) - mouseY dropzone e == 0).
      { rewrite HY. field. }
      lra.
  - intros HX HY.
    cbn [wheelImage set_imageTransform imageTransform t_x t_y].
    fold relX relY. rewrite HX, HY. split; ring.
Qed.

Lemma wheel_image_translation_witness :
  let st := sampleState in
  let st' := onWheel st sampleDocument sampleDropzone None wheelUpAtCentre in
  t_scale (imageTransform st') == Qmax 1 (Qmin 5 (1 * wheelFactor wheelUpAtCentre)) ∧
  (t_scale (imageTransform st) == 1 →
     screenX st' (pointAtX st (mouseX sampleDropzone wheelUpAtCentre))
       == mouseX sampleDropzone wheelUpAtCentre ∧
     screenY st' (pointAtY st (mouseY sampleDropzone wheelUpAtCentre))
       == mouseY sampleDropzone wheelUpAtCentre) ∧
  t_x (imageTransform st') == t_x (imageTransform st) ∧
  t_y (imageTransform st') == t_y (imageTransform st).
Proof.
  destruct (wheel_image_translation sampleState sampleDocument sampleDropzone
              None wheelUpAtCentre sampleImage) as (Hs & _ & _ & Hone & Hcentre);
    try reflexivity; [left; reflexivity|].
  split; [exact Hs|]. split; [exact Hone|].
  apply Hcentre; reflexivity.
Defined.

End Zoom.

(** ** Snap-to-edge *)

Section Snap.
Import ImageOverlay Samples.
Local Open Scope Q_scope.

Lemma Qabs_lt_iff (q thr : Q) : Qabs q < thr ↔ - thr < q ∧ q < thr.
Proof. apply Qabs_Qlt_condition. Qed.

(** The three snap tests of one axis, in source order: edge at 0, far edge
    [a], centre [b]; the last test that fires decides. *)
Lemma snap_axis (x thr a b : Q) :
  0 < thr →
  let s0 := x in
  let s1 := if JS.lt (JS.Math_abs x) thr then 0 else s0 in
  let s2 := if JS.lt (JS.Math_abs (x - a)) thr then a else s1 in
  let s3 := if JS.lt (JS.Math_abs (x - b)) thr then b else s2 in
  Qabs (s3 - x) < thr.
Proof.
  intros Hthr s0 s1 s2 s3. subst s0 s1 s2 s3. unfold JS.Math_abs.
  destruct (JS.lt (Qabs (x - b)) thr) eqn:E3.
  { apply lt_true, Qabs_lt_iff in E3. apply Qabs_lt_iff. lra. }
  destruct (JS.lt (Qabs (x - a)) thr) eqn:E2.
  { apply lt_true, Qabs_lt_iff in E2. apply Qabs_lt_iff. lra. }
  destruct (JS.lt (Qabs x) thr) eqn:E1.
  { apply lt_true, Qabs_lt_iff in E1. apply Qabs_lt_iff. lra. }
  apply Qabs_lt_iff. lra.
Qed.

(** C10: with the (positive) snap threshold of the state, the position
    returned by [applySnapToEdge] differs from the input by strictly less
    than [snapThreshold] on each axis; and with [snapEnabled] false the input
    is returned unchanged. *)
Theorem applySnapToEdge_within_threshold (st : State) (doc : Document) (x y : Q) :
  (0 < snapThreshold st →
   Qabs (p_x (applySnapToEdge st doc x y) - x) < snapThreshold st ∧
   Qabs (p_y (applySnapToEdge st doc x y) - y) < snapThreshold st) ∧
  (snapEnabled st = false → applySnapToEdge st doc x y = mkPoint x y).
Proof.
  split.
  - intros Hthr.
    assert (Hid : ∀ q, Qabs (q - q) < snapThreshold st).
    { intros q. apply Qabs_lt_iff. lra. }
    unfold applySnapToEdge.
    destruct (negb (snapEnabled st)); [split; apply Hid|].
    destruct (imageDropzone doc) as [dropzone|]; [|split; apply Hid].
    destruct (chatOverlayContainer doc) as [chatOverlay|]; [|split; apply Hid].
    cbn [p_x p_y]. split; apply snap_axis, Hthr.
  - intros Hoff. unfold applySnapToEdge. rewrite Hoff. reflexivity.
Qed.

Lemma applySnapToEdge_within_threshold_witness :
  (Qabs (p_x (applySnapToEdge sampleState chatDocument 695 12) - 695) < 20 ∧
   Qabs (p_y (applySnapToEdge sampleState chatDocument 695 12) - 12) < 20) ∧
  applySnapToEdge (set_snapEnabled false sampleState) chatDocument 695 12
    = mkPoint 695 12.
Proof.
  split.
  - apply (proj1 (applySnapToEdge_within_threshold sampleState chatDocument 695 12)).
    reflexivity.
  - apply (proj2 (applySnapToEdge_within_threshold
                    (set_snapEnabled false sampleState) chatDocument 695 12)).
    reflexivity.
Defined.

(** The state literal of the source has a positive threshold (20), and no
    modelled operation writes [snapThreshold]. *)
Lemma initial_snapThreshold : snapThreshold initial == 20 ∧ 0 < snapThreshold initial.
Proof. split; reflexivity. Qed.

End Snap.

(** ** Persistence *)

Section Persistence.
Import ImageOverlay Samples.

Variable JSON_parse : string → option json.

Lemma set_snapEnabled_same (st : State) : set_snapEnabled (snapEnabled st) st = st.
Proof. destruct st. reflexivity. Qed.

(** [loadChatSettings] returns the state with at most [snapEnabled] replaced. *)
Lemma loadChatSettings_shape (st : State) (stored : getItemResult) :
  loadChatSettings JSON_parse st stored
    = set_snapEnabled (snapEnabled (loadChatSettings JSON_parse st stored)) st.
Proof.
  unfold loadChatSettings.
  repeat match goal with
         | |- context [match ?c with _ => _ end] => destruct c
         end; cbn [snapEnabled set_snapEnabled];
    try (symmetry; apply set_snapEnabled_same); reflexivity.
Qed.

(** C7: [loadChatSettings] leaves [chatTransform] and [lineTransforms] (and
    every field other than [snapEnabled]) as they are in memory, whatever the
    stored blob holds; a stored object with a boolean [snapEnabled] sets that
    flag. *)
Theorem loadChatSettings_restores_only_snap (st : State) (stored : getItemResult) :
  let st' := loadChatSettings JSON_parse st stored in
  chatTransform st' = chatTransform st ∧
  lineTransforms st' = lineTransforms st ∧
  st' = set_snapEnabled (snapEnabled st') st ∧
  (∀ saved fields b,
     stored = GetString saved →
     saved ≠ "" →
     JSON_parse saved = Some (JObj fields) →
     field "snapEnabled" fields = Some (JBool b) →
     snapEnabled st' = b).
Proof.
  intros st'. subst st'.
  pose proof (loadChatSettings_shape st stored) as Hshape.
  split; [rewrite Hshape; reflexivity|].
  split; [rewrite Hshape; reflexivity|].
  split; [exact Hshape|].
  intros saved fields b -> Hne Hparse Hfield.
  unfold loadChatSettings.
  destruct (String.eqb saved "") eqn:E.
  { apply String.eqb_eq in E. contradiction. }
  rewrite Hparse, Hfield. reflexivity.
Qed.

(** At start-up the transforms therefore keep the values of the state
    literal. *)
Lemma loadChatSettings_initial (stored : getItemResult) :
  chatTransform (loadChatSettings JSON_parse initial stored)
    = mkTransform 0 0 DEFAULT_SCALE ∧
  lineTransforms (loadChatSettings JSON_parse initial stored) = ∅.
Proof.
  rewrite loadChatSettings_shape. split; reflexivity.
Qed.

End Persistence.

Lemma loadChatSettings_restores_only_snap_witness :
  let st' := ImageOverlay.loadChatSettings Samples.sampleParse Samples.sampleState
               (ImageOverlay.GetString Samples.savedBlob) in
  ImageOverlay.chatTransform st' = ImageOverlay.chatTransform Samples.sampleState ∧
  ImageOverlay.lineTransforms st' = ImageOverlay.lineTransforms Samples.sampleState ∧
  ImageOverlay.snapEnabled st' = false.
Proof.
  destruct (loadChatSettings_restores_only_snap Samples.sampleParse
              Samples.sampleState (ImageOverlay.GetString Samples.savedBlob))
    as (Hc & Hl & _ & Hs).
  split; [exact Hc|]. split; [exact Hl|].
  apply (Hs Samples.savedBlob
            [("chatTransform",
              ImageOverlay.JObj [("x", ImageOverlay.JNum 120%Q);
                                 ("y", ImageOverlay.JNum 80%Q);
                                 ("scale", ImageOverlay.JNum 1.5%Q)]);
             ("snapEnabled", ImageOverlay.JBool false);
             ("lineTransforms",
              ImageOverlay.JObj [("0", ImageOverlay.JObj [("x", ImageOverlay.JNum 5%Q);
                                                           ("y", ImageOverlay.JNum 7%Q)])])]
            false); try reflexivity.
  discriminate.
Defined.

(** ** Layer stack *)

Section LayerStack.
Import LayerManager Samples.

Implicit Types (ls : list Layer) (l : Layer) (i : LayerId) (m : Manager).

(** *** [findIndex] *)

Lemma findIndex_cons i l ls :
  findIndex i (l :: ls) =
    if decide (id l = i) then Some 0 else S <$> findIndex i ls.
Proof.
  unfold findIndex. cbn [list_find]. destruct (decide (id l = i)); [done|].
  destruct (list_find _ ls) as [[k x]|]; done.
Qed.

Lemma findIndex_Some i ls n :
  findIndex i ls = Some n ↔
  ∃ l, ls !! n = Some l ∧ id l = i ∧
       ∀ j y, ls !! j = Some y → j < n → id y ≠ i.
Proof.
  unfold findIndex. split.
  - destruct (list_find _ ls) as [[k x]|] eqn:E; [|done].
    intros [= <-]. apply list_find_Some in E. exists x. exact E.
  - intros (x & Hx & Hid & Hmin).
    assert (E : list_find (λ l, id l = i) ls = Some (n, x))
      by (apply list_find_Some; auto).
    rewrite E. done.
Qed.

Lemma findIndex_None i ls : findIndex i ls = None ↔ i ∉ id <$> ls.
Proof.
  unfold findIndex. destruct (list_find _ ls) as [[k x]|] eqn:E.
  - apply list_find_Some in E as (Hx & Hid & _). split; [done|].
    intros Hnot. exfalso. apply Hnot. rewrite <- Hid.
    apply list_elem_of_fmap_2. eapply list_elem_of_lookup_2, Hx.
  - apply list_find_None in E. split; [|done]. intros _ Hin.
    apply list_elem_of_fmap in Hin as (y & -> & Hy).
    rewrite Forall_forall in E. apply (E y Hy). done.
Qed.

Lemma findIndex_lt i ls n : findIndex i ls = Some n → n < length ls.
Proof.
  intros (x & Hx & _)%findIndex_Some. eapply lookup_lt_Some, Hx.
Qed.

Lemma getLayer_findIndex m i :
  getLayer m i = None ↔ findIndex i (layers m) = None.
Proof.
  unfold getLayer, findIndex. destruct (list_find _ _) as [[? ?]|]; done.
Qed.

(** *** [renumber] *)

Lemma set_zIndex_id l : set_zIndex (zIndex l) l = l.
Proof. by destruct l. Qed.

Lemma lookup_renumber ls k : renumber ls !! k = set_zIndex k <$> ls !! k.
Proof. unfold renumber. apply list_lookup_imap. Qed.

Lemma length_renumber ls : length (renumber ls) = length ls.
Proof. unfold renumber. apply length_imap. Qed.

Lemma ids_renumber ls : id <$> renumber ls = id <$> ls.
Proof.
  apply list_eq. intros k.
  rewrite !list_lookup_fmap, lookup_renumber. by destruct (ls !! k).
Qed.

Lemma types_renumber ls : type <$> renumber ls = type <$> ls.
Proof.
  apply list_eq. intros k.
  rewrite !list_lookup_fmap, lookup_renumber. by destruct (ls !! k).
Qed.

Lemma zDense_lookup ls :
  zDense ls ↔ ∀ k l, ls !! k = Some l → zIndex l = k.
Proof.
  unfold zDense. split.
  - intros H k l Hk.
    assert (E : (zIndex <$> ls) !! k = Some (zIndex l))
      by (rewrite list_lookup_fmap, Hk; done).
    rewrite H in E. apply lookup_seq in E. lia.
  - intros H. apply list_eq. intros k. rewrite list_lookup_fmap.
    destruct (ls !! k) as [l|] eqn:Hk; cbn.
    + rewrite (H k l Hk). symmetry. apply lookup_seq.
      split; [done|]. eapply lookup_lt_Some, Hk.
    + symmetry. apply lookup_ge_None. rewrite length_seq.
      by apply lookup_ge_None.
Qed.

Lemma zDense_renumber ls : zDense (renumber ls).
Proof.
  apply zDense_lookup. intros k l. rewrite lookup_renumber.
  destruct (ls !! k); intros [= <-]. done.
Qed.

Lemma renumber_zDense ls : zDense ls → renumber ls = ls.
Proof.
  intros H. apply list_eq. intros k. rewrite lookup_renumber.
  destruct (ls !! k) as [l|] eqn:Hk; [|done]. cbn.
  rewrite zDense_lookup in H. rewrite <- (H k l Hk). by rewrite set_zIndex_id.
Qed.

Lemma findIndex_ids i ls ls' :
  id <$> ls = id <$> ls' → findIndex i ls = findIndex i ls'.
Proof.
  revert ls'. induction ls as [|l ls IH]; intros [|l' ls'] H; try done.
  injection H as Hhd Htl. rewrite !findIndex_cons, Hhd.
  destruct (decide (id l' = i)); [done|]. by rewrite (IH ls').
Qed.

Lemma findIndex_renumber i ls : findIndex i (renumber ls) = findIndex i ls.
Proof. apply findIndex_ids, ids_renumber. Qed.

(** *** [swap] and the two moves *)

Lemma swap_lookup ls n n' a b k :
  ls !! n = Some a → ls !! n' = Some b →
  swap n n' ls !! k =
    if decide (k = n') then Some a
    else if decide (k = n) then Some b else ls !! k.
Proof.
  intros Ha Hb. unfold swap. rewrite Ha, Hb.
  pose proof (lookup_lt_Some _ _ _ Ha). pose proof (lookup_lt_Some _ _ _ Hb).
  rewrite !list_lookup_insert, length_insert.
  repeat case_decide; try done; lia.
Qed.

Lemma swap_Permutation ls n n' : swap n n' ls ≡ₚ ls.
Proof.
  unfold swap. destruct (ls !! n) as [a|] eqn:Ha; [|done].
  destruct (ls !! n') as [b|] eqn:Hb; [|done].
  by apply Permutation_insert_swap.
Qed.

Lemma length_swap ls n n' : length (swap n n' ls) = length ls.
Proof. apply Permutation_length, swap_Permutation. Qed.

Lemma moveLayerUp_layers m i n :
  findIndex i (layers m) = Some n →
  n + 1 < length (layers m) →
  layers (moveLayerUp m i) = renumber (swap n (n + 1) (layers m)).
Proof.
  intros Hn Hlt. unfold moveLayerUp. rewrite Hn.
  rewrite bool_decide_eq_false_2 by lia. done.
Qed.

Lemma moveLayerUp_top m i n :
  findIndex i (layers m) = Some n →
  length (layers m) ≤ n + 1 →
  moveLayerUp m i = m.
Proof.
  intros Hn Hge. unfold moveLayerUp. rewrite Hn.
  rewrite bool_decide_eq_true_2 by lia. done.
Qed.

Lemma moveLayerDown_layers m i n :
  findIndex i (layers m) = Some n →
  0 < n →
  layers (moveLayerDown m i) = renumber (swap n (n - 1) (layers m)).
Proof.
  intros Hn Hlt. unfold moveLayerDown. rewrite Hn.
  rewrite bool_decide_eq_false_2 by lia. done.
Qed.

Lemma set_zIndex_twice a b l : set_zIndex a (set_zIndex b l) = set_zIndex a l.
Proof. done. Qed.

(** Moving a layer that is not on top up and then down gives the stack back,
    renumbered. *)
Lemma moveLayerUp_Down_layers m i n :
  NoDup (id <$> layers m) →
  findIndex i (layers m) = Some n →
  n + 1 < length (layers m) →
  layers (moveLayerDown (moveLayerUp m i) i) = renumber (layers m).
Proof.
  intros Hnd Hn Hlt.
  pose proof Hn as (a & Ha & Hida & Hfirst)%findIndex_Some.
  destruct (lookup_lt_is_Some_2 (layers m) (n + 1) Hlt) as [b Hb].
  assert (Hidb : id b ≠ i).
  { intros Hidb.
    assert (n = n + 1); [|lia].
    eapply (NoDup_lookup (id <$> layers m) n (n + 1) i); [done| |];
      rewrite list_lookup_fmap; [rewrite Ha|rewrite Hb]; cbn; congruence. }
  pose proof (moveLayerUp_layers m i n Hn Hlt) as Hup.
  assert (Hn' : findIndex i (layers (moveLayerUp m i)) = Some (n + 1)).
  { rewrite Hup, findIndex_renumber. apply findIndex_Some.
    exists a. split; [|split; [done|]].
    - rewrite (swap_lookup _ n (n + 1) a b) by done.
      rewrite decide_True by done. done.
    - intros j y Hj Hlj.
      rewrite (swap_lookup _ n (n + 1) a b) in Hj by done.
      rewrite decide_False in Hj by lia.
      destruct (decide (j = n)) as [->|Hne].
      + injection Hj as <-. done.
      + apply (Hfirst j y Hj). lia. }
  rewrite (moveLayerDown_layers _ i (n + 1) Hn') by lia.
  rewrite Hup. replace (n + 1 - 1) with n by lia.
  apply list_eq. intros k. rewrite !lookup_renumber.
  assert (Ha' : renumber (swap n (n + 1) (layers m)) !! (n + 1)
                = Some (set_zIndex (n + 1) a)).
  { rewrite lookup_renumber, (swap_lookup _ n (n + 1) a b) by done.
    rewrite decide_True by done. done. }
  assert (Hb' : renumber (swap n (n + 1) (layers m)) !! n
                = Some (set_zIndex n b)).
  { rewrite lookup_renumber, (swap_lookup _ n (n + 1) a b) by done.
    rewrite decide_False by lia. rewrite decide_True by done. done. }
  rewrite (swap_lookup _ (n + 1) n _ _ k Ha' Hb').
  destruct (decide (k = n)) as [->|Hk1]; [by rewrite Ha|].
  destruct (decide (k = n + 1)) as [->|Hk2]; [by rewrite Hb|].
  rewrite lookup_renumber, (swap_lookup _ n (n + 1) a b) by done.
  rewrite !decide_False by done.
  by destruct (layers m !! k).
Qed.

(** *** The invariant *)

Lemma chatLayers_types ls :
  length (chatLayers ls) = length (filter (λ t, t = chat) (type <$> ls)).
Proof.
  unfold chatLayers. induction ls as [|l ls IH]; [done|].
  rewrite fmap_cons, !filter_cons.
  destruct (decide (type l = chat)); cbn; by rewrite IH.
Qed.

Lemma submseteq_NoDup {A} (xs ys : list A) : xs ⊆+ ys → NoDup ys → NoDup xs.
Proof.
  intros (k & Hk)%submseteq_Permutation Hnd. rewrite Hk in Hnd.
  by apply NoDup_app in Hnd as (? & _ & _).
Qed.

Lemma submseteq_filter_length {A} (P : A → Prop) `{!∀ x, Decision (P x)}
    (xs ys : list A) :
  xs ⊆+ ys → length (filter P xs) ≤ length (filter P ys).
Proof.
  intros (k & Hk)%submseteq_Permutation.
  rewrite Hk, filter_app, length_app. lia.
Qed.

Lemma mutateLayer_fmap {B} (g : Layer → B) (f : Layer → Layer) i m :
  (∀ l, g (f l) = g l) →
  g <$> layers (mutateLayer f i m) = g <$> layers m.
Proof.
  intros Hg. unfold mutateLayer.
  destruct (list_find _ (layers m)) as [[n l]|] eqn:E; [|done].
  apply list_find_Some in E as (Hn & _ & _). cbn.
  rewrite list_fmap_insert, Hg. apply list_insert_id.
  by rewrite list_lookup_fmap, Hn.
Qed.

Lemma mutateLayer_length (f : Layer → Layer) i m :
  length (layers (mutateLayer f i m)) = length (layers m).
Proof.
  unfold mutateLayer. destruct (list_find _ (layers m)) as [[n l]|]; [|done].
  cbn. apply length_insert.
Qed.

Lemma mutateLayer_counter (f : Layer → Layer) i m :
  layerIdCounter (mutateLayer f i m) = layerIdCounter m.
Proof.
  unfold mutateLayer. by destruct (list_find _ (layers m)) as [[n l]|].
Qed.

Lemma mutateLayer_projections (f : Layer → Layer) i m :
  (∀ l, id (f l) = id l) →
  (∀ l, type (f l) = type l) →
  (∀ l, zIndex (f l) = zIndex l) →
  id <$> layers (mutateLayer f i m) = id <$> layers m ∧
  type <$> layers (mutateLayer f i m) = type <$> layers m ∧
  zIndex <$> layers (mutateLayer f i m) = zIndex <$> layers m ∧
  layerIdCounter (mutateLayer f i m) = layerIdCounter m.
Proof.
  intros Hid Hty Hzi.
  rewrite !mutateLayer_fmap by done. by rewrite mutateLayer_counter.
Qed.

Lemma list_find_None_chatLayers ls :
  list_find (λ l, type l = chat) ls = None → chatLayers ls = [].
Proof.
  intros Hnone%list_find_None. unfold chatLayers.
  destruct (filter _ ls) as [|x xs] eqn:E; [done|].
  assert (Hx : x ∈ filter (λ l, type l = chat) ls) by (rewrite E; left).
  apply list_elem_of_filter in Hx as [Hty Hin].
  rewrite Forall_forall in Hnone. by destruct (Hnone x Hin).
Qed.

Lemma removeLayer_layers m i n :
  findIndex i (layers m) = Some n →
  layers (removeLayer m i) = renumber (delete n (layers m)).
Proof.
  intros Hn. unfold removeLayer. rewrite Hn. cbn.
  by destruct (bool_decide _).
Qed.

Lemma removeLayer_counter m i : layerIdCounter (removeLayer m i) = layerIdCounter m.
Proof.
  unfold removeLayer. destruct (findIndex i (layers m)); [|done].
  cbn. by destruct (bool_decide _).
Qed.

(** **** What each call does to the stack *)

Lemma StackChange_refl kI kT kZ m : StackChange kI kT kZ m m.
Proof. by apply change_fields. Qed.

Lemma mutateLayer_change (kI kT kZ : bool) (f : Layer → Layer) i m :
  (kI = false → ∀ l, id (f l) = id l) →
  (kT = false → ∀ l, type (f l) = type l) →
  (kZ = false → ∀ l, zIndex (f l) = zIndex l) →
  ∀ m', layers m' = layers (mutateLayer f i m) →
        layerIdCounter m' = layerIdCounter m →
        StackChange kI kT kZ m m'.
Proof.
  intros Hid Hty Hzi m' Hl Hc. apply change_fields; rewrite ?Hl.
  - intros H. apply mutateLayer_fmap. by apply Hid.
  - intros H. apply mutateLayer_fmap. by apply Hty.
  - intros H. apply mutateLayer_fmap. by apply Hzi.
  - apply mutateLayer_length.
  - exact Hc.
Qed.

Lemma updateLayerEffect_change m i u e :
  StackChange
    (match u with SetId _ => true | _ => false end)
    (match u with SetType _ => true | _ => false end)
    (match u with SetZIndex _ => true | _ => false end)
    m (updateLayerEffect m i u e).
Proof.
  unfold updateLayerEffect.
  destruct (getLayer m i) as [found|]; [|apply StackChange_refl].
  destruct (inLayer u); [|apply StackChange_refl].
  apply (mutateLayer_change _ _ _ (applyEffect u) i).
  - intros H x. by destruct u.
  - intros H x. by destruct u.
  - intros H x. by destruct u.
  - by destruct e.
  - destruct e; cbn; apply mutateLayer_counter.
Qed.

Lemma step_change m o :
  StackChange (writesId o) (writesType o) (writesZIndex o) m (step m o).
Proof.
  destruct o; cbn [step].
  - by apply change_emptied.
  - unfold addImageLayer, createLayer. cbn [snd].
    eapply change_pushed; cbn; done.
  - unfold addChatLayer.
    destruct (list_find _ (layers m)) as [[k existing]|] eqn:E;
      [apply StackChange_refl|].
    unfold createLayer. cbn [snd].
    eapply change_pushed; cbn; try done.
    intros _. by apply list_find_None_chatLayers.
  - destruct (findIndex i (layers m)) as [n|] eqn:Hn.
    + apply (change_renumbered _ _ _ _ _ (delete n (layers m)));
        [by apply removeLayer_layers| | |apply removeLayer_counter];
        rewrite list_fmap_delete; apply submseteq_delete.
    + unfold removeLayer. rewrite Hn. apply StackChange_refl.
  - unfold selectLayer. destruct (getLayer m i) as [found|]; [|apply StackChange_refl].
    by apply change_fields.
  - apply updateLayerEffect_change.
  - unfold updateSelectedLayerEffect.
    destruct (selectedLayerId m); [|apply StackChange_refl].
    apply updateLayerEffect_change.
  - unfold updateLayerTransform.
    destruct (getLayer m i) as [found|]; [|apply StackChange_refl].
    apply (mutateLayer_change _ _ _
             (λ l, set_transform (mergeTransform pt (transform l)) l) i); try done.
    + by destruct emitEvent.
    + destruct emitEvent; cbn; apply mutateLayer_counter.
  - unfold toggleLayerVisibility.
    destruct (getLayer m i) as [found|]; [|apply StackChange_refl].
    apply (mutateLayer_change _ _ _ (λ l, set_visible (negb (visible l)) l) i);
      try done.
    cbn. apply mutateLayer_counter.
  - unfold moveLayerUp. destruct (findIndex i (layers m)) as [n|];
      [|apply StackChange_refl].
    destruct (bool_decide _); [apply StackChange_refl|].
    apply (change_renumbered _ _ _ _ _ (swap n (n + 1) (layers m)));
      [done| | |done]; apply Permutation_submseteq; by rewrite swap_Permutation.
  - unfold moveLayerDown. destruct (findIndex i (layers m)) as [n|];
      [|apply StackChange_refl].
    destruct (bool_decide _); [apply StackChange_refl|].
    apply (change_renumbered _ _ _ _ _ (swap n (n - 1) (layers m)));
      [done| | |done]; apply Permutation_submseteq; by rewrite swap_Permutation.
  - by apply change_emptied.
Qed.

(** **** The three invariants *)

Lemma zDense_change kI kT m m' :
  StackChange kI kT false m m' → zDense (layers m) → zDense (layers m').
Proof.
  unfold zDense. intros [Hid Hty Hzi Hlen Hc|X Hl _ _ _|new Hl _ Hzi _ _|Hl] Hz.
  - by rewrite Hzi, Hlen.
  - rewrite Hl. apply zDense_renumber.
  - rewrite Hl, fmap_app, length_app, Hz. cbn. rewrite Hzi.
    replace (length (layers m) + 1) with (S (length (layers m))) by lia.
    by rewrite seq_S.
  - by rewrite Hl.
Qed.

Lemma idsIssued_change kT kZ m m' :
  StackChange false kT kZ m m' → idsIssued m → idsIssued m'.
Proof.
  unfold idsIssued.
  intros [Hid Hty Hzi Hlen Hc|X Hl Hids _ Hc|new Hl Hid _ Hc _|Hl] [Hser Hnd].
  - by rewrite Hid, Hc.
  - rewrite Hl, Hc, ids_renumber. split.
    + rewrite Forall_forall in *. intros x Hx.
      apply Hser. eapply elem_of_submseteq; eauto.
    + eapply submseteq_NoDup; eauto.
  - rewrite Hl, Hc, fmap_app. cbn. split.
    + apply Forall_app. split.
      * eapply Forall_impl; [exact Hser|]. cbn. intros; lia.
      * constructor; [|constructor]. rewrite Hid. cbn. lia.
    + apply NoDup_app. split; [done|]. split; [|apply NoDup_singleton].
      intros x Hx Hin. apply list_elem_of_singleton in Hin as ->.
      rewrite Forall_forall in Hser. specialize (Hser _ Hx).
      rewrite Hid in Hser. cbn in Hser. lia.
  - rewrite Hl. cbn. split; constructor.
Qed.

Lemma oneChat_change kI kZ m m' :
  StackChange kI false kZ m m' →
  length (chatLayers (layers m)) ≤ 1 → length (chatLayers (layers m')) ≤ 1.
Proof.
  intros [Hid Hty Hzi Hlen Hc|X Hl _ Htypes _|new Hl _ _ _ Hnew|Hl] Hchat.
  - by rewrite chatLayers_types, Hty, <- chatLayers_types.
  - rewrite Hl, chatLayers_types, types_renumber.
    rewrite chatLayers_types in Hchat.
    etrans; [|exact Hchat]. by apply submseteq_filter_length.
  - rewrite Hl. unfold chatLayers in *.
    rewrite filter_app, length_app, filter_cons, filter_nil.
    destruct (decide (type new = chat)) as [E|E]; cbn.
    + rewrite (Hnew E). cbn. lia.
    + lia.
  - rewrite Hl. cbn. lia.
Qed.

Lemma run_snoc ops o : run (ops ++ [o]) = step (run ops) o.
Proof. unfold run. by rewrite fold_left_app. Qed.

Lemma zDense_run ops : keepsZIndex ops → zDense (layers (run ops)).
Proof.
  induction ops as [|o ops IH] using rev_ind; intros Hk; [done|].
  apply Forall_app in Hk as [Hops Ho]. apply Forall_inv in Ho.
  cbn beta in Ho. rewrite run_snoc. pose proof (step_change (run ops) o) as Hc.
  rewrite Ho in Hc. eapply zDense_change; [exact Hc|by apply IH].
Qed.

Lemma idsIssued_run ops : keepsIds ops → idsIssued (run ops).
Proof.
  induction ops as [|o ops IH] using rev_ind; intros Hk;
    [split; constructor|].
  apply Forall_app in Hk as [Hops Ho]. apply Forall_inv in Ho.
  cbn beta in Ho. rewrite run_snoc. pose proof (step_change (run ops) o) as Hc.
  rewrite Ho in Hc. eapply idsIssued_change; [exact Hc|by apply IH].
Qed.

Lemma oneChat_run ops : keepsTypes ops → length (chatLayers (layers (run ops))) ≤ 1.
Proof.
  induction ops as [|o ops IH] using rev_ind; intros Hk; [cbn; lia|].
  apply Forall_app in Hk as [Hops Ho]. apply Forall_inv in Ho.
  cbn beta in Ho. rewrite run_snoc. pose proof (step_change (run ops) o) as Hc.
  rewrite Ho in Hc. eapply oneChat_change; [exact Hc|by apply IH].
Qed.

(** *** The claims on the layer stack *)




(** C5: removing the selected layer leaves [selectedLayerId] null exactly
    when the remaining stack is empty, and otherwise equal to the id of a
    layer of the remaining stack (the topmost one). *)
Theorem removeLayer_selected (m : Manager) (i : LayerId) :
  selectedLayerId m = Some i →
  i ∈ id <$> layers m →
  let m' := removeLayer m i in
  selectedLayerId m' = id <$> last (layers m') ∧
  (selectedLayerId m' = None ↔ layers m' = []) ∧
  (∀ j, selectedLayerId m' = Some j → j ∈ id <$> layers m').
Proof.
  intros Hsel Hin m'.
  destruct (findIndex i (layers m)) as [n|] eqn:Hn;
    [|by apply findIndex_None in Hn].
  assert (Hl : layers m' = renumber (delete n (layers m)))
    by (by apply removeLayer_layers).
  assert (Hs : selectedLayerId m' = id <$> last (layers m')).
  { rewrite Hl. subst m'. unfold removeLayer. rewrite Hn. cbn.
    rewrite bool_decide_eq_true_2 by done. done. }
  split; [exact Hs|]. rewrite Hs. split.
  - rewrite <- last_None. by destruct (last (layers m')).
  - intros j Hj. destruct (last (layers m')) as [l|] eqn:Hlast; [|done].
    injection Hj as <-. apply list_elem_of_fmap_2.
    by apply last_Some_elem_of.
Qed.

Lemma removeLayer_selected_witness :
  selectedLayerId (removeLayer (run twoImages) topId) = Some bottomId ∧
  bottomId ∈ id <$> layers (removeLayer (run twoImages) topId).
Proof.
  destruct (removeLayer_selected (run twoImages) topId) as (Hs & _ & Hin).
  - reflexivity.
  - cbn. right. left.
  - split; [exact Hs|]. apply Hin. exact Hs.
Defined.

(** C6, as stated, fails after a write of [type] through
    [updateLayerEffect], which [property in layer] lets through: with two
    images and the chat layer, writing the type of the top image leaves two
    chat layers. *)
Lemma addChatLayer_one_chat_counterexample :
  type <$> layers (run withChat) = [image; image; chat] ∧
  type <$> layers (run typeWritten) = [image; chat; chat] ∧
  length (chatLayers (layers (run typeWritten))) = 2.
Proof. repeat split. Qed.

(** C6 (amended): when a chat layer exists, [addChatLayer] returns the first
    one and leaves the manager as it is; calling it again returns the same
    layer and changes nothing; and after any sequence of manager calls in
    which [updateLayerEffect] and [updateSelectedLayerEffect] are never given
    the key [type], the stack holds at most one chat layer, which
    [addChatLayer] returns. *)
Theorem addChatLayer_idempotent :
  (∀ m now existing,
     existing ∈ layers m → type existing = chat →
     ∃ l, addChatLayer m now = (l, m) ∧ l ∈ layers m ∧ type l = chat) ∧
  (∀ m now now',
     addChatLayer (snd (addChatLayer m now)) now' = addChatLayer m now) ∧
  (∀ ops, keepsTypes ops → length (chatLayers (layers (run ops))) ≤ 1) ∧
  (∀ ops now existing,
     keepsTypes ops →
     existing ∈ layers (run ops) → type existing = chat →
     addChatLayer (run ops) now = (existing, run ops)).
Proof.
  assert (Hfound : ∀ m now existing,
     existing ∈ layers m → type existing = chat →
     ∃ l, addChatLayer m now = (l, m) ∧ l ∈ layers m ∧ type l = chat).
  { intros m now existing Hin Hty. unfold addChatLayer.
    destruct (list_find_elem_of (λ l, type l = chat) (layers m) existing Hin Hty)
      as [[k l] Hfind].
    rewrite Hfind. exists l. apply list_find_Some in Hfind as (Hk & Hl & _).
    split; [done|]. split; [|done]. eapply list_elem_of_lookup_2, Hk. }
  pose proof oneChat_run as Hinv.
  split; [exact Hfound|]. split; [|split; [exact Hinv|]].
  - intros m now now'. unfold addChatLayer at 2 3.
    destruct (list_find _ (layers m)) as [[k existing]|] eqn:E.
    + cbn [snd]. unfold addChatLayer. by rewrite E.
    + unfold createLayer. cbn [snd]. unfold addChatLayer. cbn [layers _notifyLayerChange emit set_layers].
      rewrite list_find_app_r by done. cbn [list_find].
      rewrite decide_True by done. done.
  - intros ops now existing Hk Hin Hty.
    destruct (Hfound (run ops) now existing Hin Hty) as (l & Hadd & Hl & Htl).
    rewrite Hadd. f_equal.
    specialize (Hinv ops Hk). unfold chatLayers in Hinv.
    assert (H1 : existing ∈ filter (λ l, type l = chat) (layers (run ops)))
      by (by apply list_elem_of_filter).
    assert (H2 : l ∈ filter (λ l, type l = chat) (layers (run ops)))
      by (by apply list_elem_of_filter).
    destruct (filter _ (layers (run ops))) as [|x [|y rest]]; cbn in Hinv.
    + by apply elem_of_nil in H1.
    + apply list_elem_of_singleton in H1, H2. congruence.
    + lia.
Qed.

Lemma addChatLayer_idempotent_witness :
  addChatLayer (run withChat) 2000%N = (sampleChatLayer, run withChat) ∧
  (∃ l, addChatLayer (run withChat) 2000%N = (l, run withChat)
        ∧ l ∈ layers (run withChat) ∧ type l = chat) ∧
  length (chatLayers (layers (run withChat))) ≤ 1.
Proof.
  destruct addChatLayer_idempotent as (Hfound & _ & Hone & Hsame).
  assert (Hin : sampleChatLayer ∈ layers (run withChat))
    by (vm_compute; right; right; left).
  assert (Hk : keepsTypes withChat) by repeat constructor.
  split; [|split].
  - apply (Hsame withChat 2000%N sampleChatLayer); [exact Hk | exact Hin | reflexivity].
  - apply (Hfound (run withChat) 2000%N sampleChatLayer); [exact Hin | reflexivity].
  - apply Hone. exact Hk.
Defined.

End LayerStack.

(** ** Further properties of the layer stack *)

Section LayerStackMore.
Import LayerManager LayerViews Samples.

Implicit Types (ls : list Layer) (l : Layer) (i : LayerId) (m : Manager).

(** *** Lookups by id *)

Lemma getLayer_Some m i l :
  getLayer m i = Some l → l ∈ layers m ∧ id l = i.
Proof.
  unfold getLayer. destruct (list_find _ (layers m)) as [[n x]|] eqn:E; [|done].
  intros [= <-]. apply list_find_Some in E as (Hn & Hid & _).
  split; [eapply list_elem_of_lookup_2, Hn|done].
Qed.

Lemma getLayer_None m i : getLayer m i = None ↔ i ∉ id <$> layers m.
Proof. rewrite getLayer_findIndex. apply findIndex_None. Qed.

Lemma getLayer_is_Some m i : i ∈ id <$> layers m → is_Some (getLayer m i).
Proof.
  intros Hin. destruct (getLayer m i) eqn:E; [by eexists|].
  by apply getLayer_None in E.
Qed.

Lemma elem_of_delete_ne {A} (xs : list A) (n : nat) (x y : A) :
  x ∈ xs → xs !! n = Some y → x ≠ y → x ∈ delete n xs.
Proof.
  intros (k & Hk)%list_elem_of_lookup_1 Hn Hne.
  assert (k ≠ n) by (intros ->; congruence).
  destruct (decide (k < n)) as [Hlt|Hge].
  - eapply list_elem_of_lookup_2. by rewrite list_lookup_delete_lt.
  - apply (list_elem_of_lookup_2 _ (k - 1)).
    rewrite list_lookup_delete_ge by lia.
    replace (S (k - 1)) with k by lia. done.
Qed.

(** *** The selection names a layer of the stack *)

Lemma selectionValid_same_ids m m' :
  id <$> layers m' = id <$> layers m →
  selectedLayerId m' = selectedLayerId m →
  selectionValid m → selectionValid m'.
Proof. intros Hids Hsel H i. rewrite Hids, Hsel. apply H. Qed.

Lemma selectionValid_perm m m' :
  id <$> layers m' ≡ₚ id <$> layers m →
  selectedLayerId m' = selectedLayerId m →
  selectionValid m → selectionValid m'.
Proof. intros Hids Hsel H i. rewrite Hids, Hsel. apply H. Qed.

Lemma selectionValid_mutateLayer (f : Layer → Layer) i m :
  (∀ l, id (f l) = id l) →
  selectionValid m → selectionValid (mutateLayer f i m).
Proof.
  intros Hid. unfold mutateLayer.
  destruct (list_find _ (layers m)) as [[n l]|] eqn:E; [|done].
  apply list_find_Some in E as (Hn & _ & _).
  apply selectionValid_same_ids; [|done]. cbn.
  rewrite list_fmap_insert, Hid, list_insert_id; [done|].
  by rewrite list_lookup_fmap, Hn.
Qed.

Lemma selectionValid_removeLayer m i :
  selectionValid m → selectionValid (removeLayer m i).
Proof.
  intros H. destruct (findIndex i (layers m)) as [n|] eqn:Hn;
    [|unfold removeLayer; by rewrite Hn].
  pose proof (removeLayer_layers m i n Hn) as Hl.
  pose proof Hn as (a & Ha & Hida & _)%findIndex_Some.
  intros j Hj. rewrite Hl, ids_renumber, list_fmap_delete.
  unfold removeLayer in Hj. rewrite Hn in Hj. cbn in Hj.
  destruct (bool_decide (selectedLayerId m = Some i)) eqn:Hsel; cbn in Hj.
  - destruct (last (renumber (delete n (layers m)))) as [x|] eqn:Hlast; [|done].
    injection Hj as <-. apply last_Some_elem_of in Hlast.
    rewrite <- list_fmap_delete, <- ids_renumber.
    by apply list_elem_of_fmap_2.
  - apply bool_decide_eq_false in Hsel.
    apply (elem_of_delete_ne _ n j i); [by apply H| |congruence].
    by rewrite list_lookup_fmap, Ha, <- Hida.
Qed.

Lemma selectionValid_updateLayerEffect m i u e :
  match u with SetId _ => False | _ => True end →
  selectionValid m → selectionValid (updateLayerEffect m i u e).
Proof.
  intros Hu H. unfold updateLayerEffect.
  destruct (getLayer m i) as [found|]; [|done].
  destruct (inLayer u); [|done].
  assert (selectionValid (mutateLayer (applyEffect u) i m))
    by (apply selectionValid_mutateLayer; [intros x; by destruct u|done]).
  by destruct e.
Qed.

Lemma selectionValid_step m o :
  writesId o = false → selectionValid m → selectionValid (step m o).
Proof.
  intros Hw H. destruct o; cbn [step].
  - intros j Hj. done.
  - intros j Hj. cbn in Hj. injection Hj as <-. cbn.
    rewrite fmap_app. apply elem_of_app. right. cbn. left.
  - unfold addChatLayer.
    destruct (list_find _ (layers m)) as [[k existing]|]; [done|].
    intros j Hj. cbn in *. rewrite fmap_app. apply elem_of_app. left. by apply H.
  - by apply selectionValid_removeLayer.
  - unfold selectLayer. destruct (getLayer m i) as [l|] eqn:E; [|done].
    intros j Hj. cbn in *. injection Hj as <-.
    apply getLayer_Some in E as [Hin <-]. by apply list_elem_of_fmap_2.
  - apply selectionValid_updateLayerEffect; [by destruct u|done].
  - unfold updateSelectedLayerEffect. destruct (selectedLayerId m) as [i|] eqn:Hs; [|done].
    apply selectionValid_updateLayerEffect; [by destruct u|done].
  - unfold updateLayerTransform. destruct (getLayer m i); [|done].
    assert (selectionValid
              (mutateLayer (λ l, set_transform (mergeTransform pt (transform l)) l) i m))
      by (by apply selectionValid_mutateLayer).
    by destruct emitEvent.
  - unfold toggleLayerVisibility. destruct (getLayer m i); [|done].
    assert (selectionValid (mutateLayer (λ l, set_visible (negb (visible l)) l) i m))
      by (by apply selectionValid_mutateLayer).
    done.
  - unfold moveLayerUp. destruct (findIndex i (layers m)) as [n|]; [|done].
    destruct (bool_decide _); [done|].
    apply (selectionValid_perm m); [|done|done]. cbn.
    by rewrite ids_renumber, swap_Permutation.
  - unfold moveLayerDown. destruct (findIndex i (layers m)) as [n|]; [|done].
    destruct (bool_decide _); [done|].
    apply (selectionValid_perm m); [|done|done]. cbn.
    by rewrite ids_renumber, swap_Permutation.
  - intros j Hj. done.
Qed.

Lemma selectionValid_run ops : keepsIds ops → selectionValid (run ops).
Proof.
  induction ops as [|o ops IH] using rev_ind; intros Hk; [done|].
  apply Forall_app in Hk as [Hops Ho]. apply Forall_inv in Ho. cbn beta in Ho.
  rewrite run_snoc. apply selectionValid_step; [done|by apply IH].
Qed.

(** After any sequence of manager calls in which [updateLayerEffect] and
    [updateSelectedLayerEffect] are never given the key [id], the selection
    is null or names a layer of the stack, and [getSelectedLayer] returns
    that layer: it is null only when nothing is selected. *)
Theorem selection_names_a_layer (ops : list Op) :
  keepsIds ops →
  let m := run ops in
  (∀ i, selectedLayerId m = Some i →
        ∃ l, getSelectedLayer m = Some l ∧ id l = i ∧ l ∈ layers m) ∧
  (getSelectedLayer m = None ↔ selectedLayerId m = None).
Proof.
  intros Hk m.
  assert (Hsel : ∀ i, selectedLayerId m = Some i →
            ∃ l, getSelectedLayer m = Some l ∧ id l = i ∧ l ∈ layers m).
  { intros i Hi. pose proof (selectionValid_run ops Hk i Hi) as Hin.
    destruct (getLayer_is_Some m i Hin) as [l Hl].
    exists l. unfold getSelectedLayer. rewrite Hi.
    apply getLayer_Some in Hl as Hl'. destruct Hl' as [? ?]. done. }
  split; [exact Hsel|]. split.
  - intros Hnone. destruct (selectedLayerId m) as [i|] eqn:Hi; [|done].
    destruct (Hsel i eq_refl) as (l & Hl & _). congruence.
  - intros Hnone. unfold getSelectedLayer. by rewrite Hnone.
Qed.

Lemma selection_names_a_layer_witness :
  ∃ l, getSelectedLayer (run twoImages) = Some l ∧ id l = topId
       ∧ l ∈ layers (run twoImages).
Proof.
  assert (Hk : keepsIds twoImages) by repeat constructor.
  apply (proj1 (selection_names_a_layer twoImages Hk) topId). reflexivity.
Defined.

(** *** Render order *)

Lemma insertByZIndex_Permutation l ls : insertByZIndex l ls ≡ₚ l :: ls.
Proof.
  induction ls as [|x rest IH]; [done|]. cbn.
  destruct (decide (zIndex l ≤ zIndex x)); [done|].
  rewrite IH. apply Permutation_swap.
Qed.

Lemma sortByZIndex_Permutation ls : sortByZIndex ls ≡ₚ ls.
Proof.
  induction ls as [|x rest IH]; [done|]. cbn.
  by rewrite insertByZIndex_Permutation, IH.
Qed.

Lemma insertByZIndex_sorted l ls :
  StronglySorted zLe ls → StronglySorted zLe (insertByZIndex l ls).
Proof.
  induction 1 as [|x rest Hs IH Hall]; cbn.
  - repeat constructor.
  - destruct (decide (zIndex l ≤ zIndex x)) as [Hle|Hgt].
    + constructor; [by constructor|]. constructor; [done|].
      eapply Forall_impl; [exact Hall|]. unfold zLe. cbn. intros; lia.
    + constructor; [done|]. rewrite insertByZIndex_Permutation.
      constructor; [unfold zLe; lia|done].
Qed.

Lemma sortByZIndex_sorted ls : StronglySorted zLe (sortByZIndex ls).
Proof.
  induction ls as [|x rest IH]; cbn; [constructor|].
  by apply insertByZIndex_sorted.
Qed.

Lemma sortByZIndex_id ls : StronglySorted zLe ls → sortByZIndex ls = ls.
Proof.
  induction 1 as [|x rest Hs IH Hall]; [done|]. cbn.
  fold (sortByZIndex rest). rewrite IH.
  destruct rest as [|y r]; [done|]. cbn.
  apply Forall_cons in Hall as [Hxy _]. by rewrite decide_True.
Qed.

Lemma seq_from_sorted ls a :
  zIndex <$> ls = seq a (length ls) → StronglySorted zLe ls.
Proof.
  revert a. induction ls as [|x rest IH]; intros a H; [constructor|].
  cbn in H. injection H as Hx Hrest. constructor; [by apply (IH (S a))|].
  apply Forall_lookup_2. intros k y Hk. unfold zLe.
  assert (E : (zIndex <$> rest) !! k = Some (zIndex y))
    by (by rewrite list_lookup_fmap, Hk).
  rewrite Hrest in E. apply lookup_seq in E. lia.
Qed.

(** [getLayersSorted] returns the layers of the stack in ascending zIndex
    order; on every stack reached by manager calls in which
    [updateLayerEffect] and [updateSelectedLayerEffect] are never given the
    key [zIndex], that is the stack order itself, and
    [getVisibleLayersSorted] is the stack with the hidden layers left out. *)
Theorem getLayersSorted_order :
  (∀ m, getLayersSorted m ≡ₚ layers m ∧
        StronglySorted (λ a b, zIndex a ≤ zIndex b) (getLayersSorted m)) ∧
  (∀ ops, keepsZIndex ops →
          getLayersSorted (run ops) = layers (run ops) ∧
          getVisibleLayersSorted (run ops)
            = filter (λ l, visible l = true) (layers (run ops))).
Proof.
  split.
  - intros m. split; [apply sortByZIndex_Permutation|apply sortByZIndex_sorted].
  - intros ops Hk. pose proof (zDense_run ops Hk) as Hz.
    assert (E : getLayersSorted (run ops) = layers (run ops)).
    { apply sortByZIndex_id. by apply (seq_from_sorted _ 0). }
    split; [exact E|]. unfold getVisibleLayersSorted. by rewrite E.
Qed.

Lemma getLayersSorted_order_witness :
  getLayersSorted (run twoImages) = layers (run twoImages).
Proof.
  apply (proj2 getLayersSorted_order twoImages). repeat constructor.
Defined.

(** *** Unknown ids *)

(** Every call that takes a layer id leaves the manager exactly as it is,
    and dispatches no event, when no layer of the stack has that id. *)
Theorem unknown_id_is_ignored (m : Manager) (i : LayerId) :
  i ∉ id <$> layers m →
  removeLayer m i = m ∧
  selectLayer m i = m ∧
  (∀ u e, updateLayerEffect m i u e = m) ∧
  (∀ pt e, updateLayerTransform m i pt e = m) ∧
  toggleLayerVisibility m i = m ∧
  moveLayerUp m i = m ∧
  moveLayerDown m i = m ∧
  getLayer m i = None.
Proof.
  intros Hnot.
  pose proof (proj2 (findIndex_None i (layers m)) Hnot) as Hf.
  pose proof (proj2 (getLayer_None m i) Hnot) as Hg.
  unfold removeLayer, selectLayer, updateLayerEffect, updateLayerTransform,
    toggleLayerVisibility, moveLayerUp, moveLayerDown.
  rewrite Hf, Hg. done.
Qed.

Lemma unknown_id_is_ignored_witness :
  removeLayer (run twoImages) chatId = run twoImages ∧
  moveLayerUp (run twoImages) chatId = run twoImages.
Proof.
  destruct (unknown_id_is_ignored (run twoImages) chatId) as (Hr & _ & _ & _ & _ & Hu & _).
  - cbn. rewrite !not_elem_of_cons. repeat split; [discriminate..|].
    apply not_elem_of_nil.
  - split; [exact Hr|exact Hu].
Defined.

(** *** Updates of one layer *)

Lemma mutateLayer_layers (f : Layer → Layer) i m n l :
  list_find (λ l, id l = i) (layers m) = Some (n, l) →
  mutateLayer f i m = set_layers (<[n := f l]> (layers m)) m.
Proof. intros H. unfold mutateLayer. by rewrite H. Qed.

Lemma list_find_id_insert (f : Layer → Layer) i ls n l :
  (∀ x, id (f x) = id x) →
  list_find (λ l, id l = i) ls = Some (n, l) →
  list_find (λ l, id l = i) (<[n := f l]> ls) = Some (n, f l).
Proof.
  intros Hid (Hn & Hl & Hfirst)%list_find_Some. apply list_find_Some.
  split; [|split].
  - apply list_lookup_insert_eq. eapply lookup_lt_Some, Hn.
  - by rewrite Hid.
  - intros j y Hj Hlt. rewrite list_lookup_insert_ne in Hj by lia.
    by apply (Hfirst j y).
Qed.

Lemma list_find_id_insert_other (f : Layer → Layer) i j ls n l :
  (∀ x, id (f x) = id x) →
  j ≠ i →
  ls !! n = Some l → id l = i →
  list_find (λ l, id l = j) (<[n := f l]> ls) = list_find (λ l, id l = j) ls.
Proof.
  intros Hid Hne Hn Hl.
  destruct (list_find (λ l, id l = j) ls) as [[k x]|] eqn:E.
  - apply list_find_Some in E as (Hk & Hx & Hfirst).
    assert (k ≠ n) by (intros ->; congruence).
    apply list_find_Some. split; [|split; [done|]].
    + by rewrite list_lookup_insert_ne.
    + intros k' y Hk' Hlt. destruct (decide (k' = n)) as [->|Hkn].
      * rewrite list_lookup_insert_eq in Hk' by (eapply lookup_lt_Some, Hn).
        injection Hk' as <-. rewrite Hid. congruence.
      * rewrite list_lookup_insert_ne in Hk' by done. by apply (Hfirst k' y).
  - apply list_find_None in E. apply list_find_None.
    apply Forall_insert; [done|]. rewrite Hid. congruence.
Qed.

Lemma getLayer_mutateLayer (f : Layer → Layer) i m :
  (∀ x, id (f x) = id x) →
  getLayer (mutateLayer f i m) i = f <$> getLayer m i ∧
  (∀ j, j ≠ i → getLayer (mutateLayer f i m) j = getLayer m j) ∧
  id <$> layers (mutateLayer f i m) = id <$> layers m.
Proof.
  intros Hid. unfold getLayer.
  destruct (list_find (λ l, id l = i) (layers m)) as [[n l]|] eqn:E.
  - rewrite (mutateLayer_layers f i m n l E). cbn.
    pose proof E as (Hn & Hl & _)%list_find_Some.
    split; [by rewrite (list_find_id_insert f i _ n l Hid E)|]. split.
    + intros j Hj. by rewrite (list_find_id_insert_other f i j _ n l).
    + rewrite list_fmap_insert, Hid, list_insert_id; [done|].
      by rewrite list_lookup_fmap, Hn.
  - unfold mutateLayer. rewrite E. cbn. by rewrite E.
Qed.

(** [updateLayerTransform] on a layer of the stack replaces the fields given
    in the partial transform and keeps the others; no other layer changes,
    the order and the selection stay, and one [layersChanged] event carrying
    the new stack is dispatched unless [emitEvent] is false. *)
Theorem updateLayerTransform_merges (m : Manager) (i : LayerId)
    (pt : PartialTransform) (e : bool) (l : Layer) :
  getLayer m i = Some l →
  let m' := updateLayerTransform m i pt e in
  getLayer m' i =
    Some (set_transform
            {| t_x := default (t_x (transform l)) (pt_x pt);
               t_y := default (t_y (transform l)) (pt_y pt);
               t_scale := default (t_scale (transform l)) (pt_scale pt) |} l) ∧
  (∀ j, j ≠ i → getLayer m' j = getLayer m j) ∧
  id <$> layers m' = id <$> layers m ∧
  selectedLayerId m' = selectedLayerId m ∧
  signals m' = (if e then signals m ++ [layersChanged (layers m')] else signals m).
Proof.
  intros Hl m'. subst m'. unfold updateLayerTransform. rewrite Hl.
  set (f := λ x, set_transform (mergeTransform pt (transform x)) x).
  destruct (getLayer_mutateLayer f i m) as (Hi & Hj & Hids); [done|].
  assert (Hsel : selectedLayerId (mutateLayer f i m) = selectedLayerId m).
  { unfold mutateLayer. by destruct (list_find _ _) as [[? ?]|]. }
  assert (Hsig : signals (mutateLayer f i m) = signals m).
  { unfold mutateLayer. by destruct (list_find _ _) as [[? ?]|]. }
  rewrite Hl in Hi. destruct e; cbn; rewrite ?Hsig; done.
Qed.

Lemma updateLayerTransform_merges_witness :
  ∃ l, getLayer (updateLayerTransform (run twoImages) bottomId
                   (mkPartial (Some 12%Q) None None) false) bottomId = Some l
       ∧ t_x (transform l) = 12%Q ∧ t_scale (transform l) = 1%Q.
Proof.
  destruct (getLayer (run twoImages) bottomId) as [l0|] eqn:E; [|discriminate E].
  destruct (updateLayerTransform_merges (run twoImages) bottomId
              (mkPartial (Some 12%Q) None None) false l0 E) as (H & _).
  eexists. split; [exact H|]. cbn.
  vm_compute in E. injection E as <-. split; reflexivity.
Defined.

(** [updateLayerEffect] on a layer of the stack, given one of the documented
    properties (opacity, blur, grayscale, visible), sets the one property on
    that layer only; with [emitEvent] false nothing is dispatched, otherwise
    one [layersChanged] event carrying the new stack. *)
Theorem updateLayerEffect_sets_one (m : Manager) (i : LayerId)
    (u : EffectUpdate) (e : bool) (l : Layer) :
  isDocumented u = true →
  getLayer m i = Some l →
  let m' := updateLayerEffect m i u e in
  getLayer m' i = Some (applyEffect u l) ∧
  (∀ j, j ≠ i → getLayer m' j = getLayer m j) ∧
  id <$> layers m' = id <$> layers m ∧
  type <$> layers m' = type <$> layers m ∧
  zIndex <$> layers m' = zIndex <$> layers m ∧
  selectedLayerId m' = selectedLayerId m ∧
  signals m' = (if e then signals m ++ [layersChanged (layers m')] else signals m).
Proof.
  intros Hdoc Hl m'. subst m'. unfold updateLayerEffect. rewrite Hl.
  assert (Hkey : inLayer u = true) by (by destruct u).
  rewrite Hkey.
  assert (Hid : ∀ x, id (applyEffect u x) = id x) by (intros x; by destruct u).
  destruct (getLayer_mutateLayer (applyEffect u) i m Hid) as (Hi & Hj & Hids).
  destruct (mutateLayer_projections (applyEffect u) i m Hid) as (_ & Hty & Hz & _);
    [intros x; by destruct u..|].
  assert (Hsel : selectedLayerId (mutateLayer (applyEffect u) i m) = selectedLayerId m).
  { unfold mutateLayer. by destruct (list_find _ _) as [[? ?]|]. }
  assert (Hsig : signals (mutateLayer (applyEffect u) i m) = signals m).
  { unfold mutateLayer. by destruct (list_find _ _) as [[? ?]|]. }
  rewrite Hl in Hi. destruct e; cbn; rewrite ?Hsig; done.
Qed.

Lemma updateLayerEffect_sets_one_witness :
  ∃ l, getLayer (updateLayerEffect (run twoImages) topId (SetOpacity 40%Q) false)
         topId = Some l
       ∧ opacity l = 40%Q
       ∧ signals (updateLayerEffect (run twoImages) topId (SetOpacity 40%Q) false)
         = signals (run twoImages).
Proof.
  destruct (getLayer (run twoImages) topId) as [l0|] eqn:E; [|discriminate E].
  destruct (updateLayerEffect_sets_one (run twoImages) topId (SetOpacity 40%Q)
              false l0 eq_refl E) as (H & _ & _ & _ & _ & _ & Hs).
  eexists. split; [exact H|]. split; [reflexivity|exact Hs].
Defined.

(** Toggling the visibility of a layer twice gives the stack back; one
    toggle flips the flag of that layer and of no other. *)
Theorem toggleLayerVisibility_twice (m : Manager) (i : LayerId) :
  layers (toggleLayerVisibility (toggleLayerVisibility m i) i) = layers m ∧
  (∀ l, getLayer m i = Some l →
        getLayer (toggleLayerVisibility m i) i
          = Some (set_visible (negb (visible l)) l)) ∧
  (∀ j, j ≠ i → getLayer (toggleLayerVisibility m i) j = getLayer m j).
Proof.
  set (f := λ x : Layer, set_visible (negb (visible x)) x).
  assert (Hid : ∀ x, id (f x) = id x) by done.
  assert (Hff : ∀ x, f (f x) = x).
  { intros x. destruct x. unfold f. cbn. by rewrite negb_involutive. }
  assert (Hstep : ∀ m0 n l,
            list_find (λ l, id l = i) (layers m0) = Some (n, l) →
            layers (toggleLayerVisibility m0 i) = <[n := f l]> (layers m0)).
  { intros m0 n l E. unfold toggleLayerVisibility, getLayer. rewrite E. cbn.
    by rewrite (mutateLayer_layers _ i m0 n l E). }
  assert (Hget : ∀ j, getLayer (toggleLayerVisibility m i) j
                      = getLayer (mutateLayer f i m) j).
  { intros j. unfold toggleLayerVisibility.
    destruct (getLayer m i) eqn:E; [done|].
    unfold mutateLayer. unfold getLayer in E.
    by destruct (list_find (λ l, id l = i) (layers m)) as [[? ?]|]. }
  destruct (getLayer_mutateLayer f i m Hid) as (Hi & Hj & _).
  split; [|split].
  - destruct (list_find (λ l, id l = i) (layers m)) as [[n l]|] eqn:E.
    + pose proof (Hstep m n l E) as H1.
      assert (E' : list_find (λ l, id l = i) (layers (toggleLayerVisibility m i))
                   = Some (n, f l))
        by (rewrite H1; by apply list_find_id_insert).
      rewrite (Hstep _ n (f l) E'), H1, list_insert_insert_eq, Hff.
      apply list_insert_id. by apply list_find_Some in E as (? & _).
    + assert (Hnone : getLayer m i = None) by (unfold getLayer; by rewrite E).
      unfold toggleLayerVisibility. rewrite Hnone. by rewrite Hnone.
  - intros l Hl. rewrite Hget, Hi, Hl. done.
  - intros j Hne. rewrite Hget. by apply Hj.
Qed.

Lemma toggleLayerVisibility_twice_witness :
  ∃ l, getLayer (toggleLayerVisibility (run twoImages) topId) topId = Some l
       ∧ visible l = false.
Proof.
  destruct (getLayer (run twoImages) topId) as [l0|] eqn:E; [|discriminate E].
  pose proof (proj1 (proj2 (toggleLayerVisibility_twice (run twoImages) topId))
                l0 E) as H.
  eexists. split; [exact H|]. vm_compute in E. injection E as <-. reflexivity.
Defined.

(** *** Reordering *)

(** [moveLayerUp] on a layer that is not on top raises it by exactly one
    position: it trades places with the layer above, every other layer keeps
    its place, zIndex values follow the new order, and one [layersChanged]
    event carries the new stack. *)
Theorem moveLayerUp_raises_by_one (m : Manager) (i : LayerId) (n : nat)
    (a b : Layer) :
  NoDup (id <$> layers m) →
  findIndex i (layers m) = Some n →
  layers m !! n = Some a →
  layers m !! (n + 1) = Some b →
  let m' := moveLayerUp m i in
  findIndex i (layers m') = Some (n + 1) ∧
  layers m' !! (n + 1) = Some (set_zIndex (n + 1) a) ∧
  layers m' !! n = Some (set_zIndex n b) ∧
  (∀ k, k ≠ n → k ≠ n + 1 → layers m' !! k = set_zIndex k <$> layers m !! k) ∧
  length (layers m') = length (layers m) ∧
  selectedLayerId m' = selectedLayerId m ∧
  signals m' = signals m ++ [layersChanged (layers m')].
Proof.
  intros Hnd Hn Ha Hb m'.
  pose proof (lookup_lt_Some _ _ _ Hb) as Hlt.
  pose proof Hn as (a' & Ha' & Hida & Hfirst)%findIndex_Some.
  assert (a' = a) as -> by congruence.
  assert (Hidb : id b ≠ i).
  { intros Hidb. assert (n = n + 1); [|lia].
    eapply (NoDup_lookup (id <$> layers m) n (n + 1) i); [done| |];
      rewrite list_lookup_fmap; [rewrite Ha|rewrite Hb]; cbn; congruence. }
  assert (Hl : layers m' = renumber (swap n (n + 1) (layers m)))
    by (by apply moveLayerUp_layers).
  assert (Hlook : ∀ k, layers m' !! k =
            set_zIndex k <$>
              (if decide (k = n + 1) then Some a
               else if decide (k = n) then Some b else layers m !! k)).
  { intros k. by rewrite Hl, lookup_renumber, (swap_lookup _ n (n + 1) a b). }
  split; [|split; [|split; [|split; [|split; [|split]]]]].
  - apply findIndex_Some. exists (set_zIndex (n + 1) a).
    split; [|split; [done|]].
    + rewrite Hlook, decide_True by done. done.
    + intros j y Hj Hlj. rewrite Hlook in Hj. rewrite decide_False in Hj by lia.
      destruct (decide (j = n)) as [->|Hne]; cbn in Hj.
      * injection Hj as <-. done.
      * destruct (layers m !! j) as [x|] eqn:Hx; [|done]. cbn in Hj.
        injection Hj as <-. cbn. apply (Hfirst j x Hx). lia.
  - rewrite Hlook, decide_True by done. done.
  - rewrite Hlook, decide_False by lia. rewrite decide_True by done. done.
  - intros k Hk1 Hk2. rewrite Hlook. by rewrite !decide_False.
  - by rewrite Hl, length_renumber, length_swap.
  - subst m'. unfold moveLayerUp. rewrite Hn.
    by rewrite bool_decide_eq_false_2 by lia.
  - subst m'. unfold moveLayerUp. rewrite Hn.
    by rewrite bool_decide_eq_false_2 by lia.
Qed.

Lemma moveLayerUp_raises_by_one_witness :
  findIndex bottomId (layers (moveLayerUp (run twoImages) bottomId)) = Some 1 ∧
  id <$> layers (moveLayerUp (run twoImages) bottomId) = [topId; bottomId].
Proof.
  destruct (layers (run twoImages)) as [|a [|b rest]] eqn:E; try discriminate E.
  destruct (moveLayerUp_raises_by_one (run twoImages) bottomId 0 a b) as (H & _).
  - cbn. repeat constructor; rewrite ?not_elem_of_cons;
      repeat split; try discriminate; apply not_elem_of_nil.
  - reflexivity.
  - by rewrite E.
  - by rewrite E.
  - split; [exact H|reflexivity].
Defined.

Lemma moveLayerDown_bottom m i :
  findIndex i (layers m) = Some 0 → moveLayerDown m i = m.
Proof.
  intros Hn. unfold moveLayerDown. rewrite Hn. done.
Qed.

(** [moveLayerDown] on a layer that is not at the bottom lowers it by one
    position, and a following [moveLayerUp] gives the stack back (renumbered,
    so unchanged when the zIndex values were dense); at the bottom
    [moveLayerDown] does nothing. *)
Theorem moveLayerDown_Up_restores (m : Manager) (i : LayerId) (n : nat) :
  findIndex i (layers m) = Some n →
  (0 < n →
     findIndex i (layers (moveLayerDown m i)) = Some (n - 1) ∧
     layers (moveLayerUp (moveLayerDown m i) i) = renumber (layers m) ∧
     (zDense (layers m) →
        layers (moveLayerUp (moveLayerDown m i) i) = layers m)) ∧
  (n = 0 → moveLayerDown m i = m).
Proof.
  intros Hn. split; [|intros ->; by apply moveLayerDown_bottom].
  intros Hpos.
  pose proof Hn as (a & Ha & Hida & Hfirst)%findIndex_Some.
  pose proof (lookup_lt_Some _ _ _ Ha) as Hlen.
  destruct (lookup_lt_is_Some_2 (layers m) (n - 1)) as [b Hb]; [lia|].
  assert (Hidb : id b ≠ i) by (apply (Hfirst (n - 1) b Hb); lia).
  pose proof (moveLayerDown_layers m i n Hn Hpos) as Hdown.
  assert (Hlook : ∀ k, layers (moveLayerDown m i) !! k =
            set_zIndex k <$>
              (if decide (k = n - 1) then Some a
               else if decide (k = n) then Some b else layers m !! k)).
  { intros k. by rewrite Hdown, lookup_renumber, (swap_lookup _ n (n - 1) a b). }
  assert (Hn' : findIndex i (layers (moveLayerDown m i)) = Some (n - 1)).
  { apply findIndex_Some. exists (set_zIndex (n - 1) a).
    split; [|split; [done|]].
    - rewrite Hlook, decide_True by done. done.
    - intros j y Hj Hlj. rewrite Hlook in Hj.
      rewrite !decide_False in Hj by lia.
      destruct (layers m !! j) as [x|] eqn:Hx; [|done]. cbn in Hj.
      injection Hj as <-. cbn. apply (Hfirst j x Hx). lia. }
  assert (Hback : layers (moveLayerUp (moveLayerDown m i) i) = renumber (layers m)).
  { rewrite (moveLayerUp_layers _ i (n - 1) Hn')
      by (rewrite Hdown, length_renumber, length_swap; lia).
    replace (n - 1 + 1) with n by lia.
    assert (Ha' : layers (moveLayerDown m i) !! (n - 1)
                  = Some (set_zIndex (n - 1) a))
      by (rewrite Hlook, decide_True by done; done).
    assert (Hb' : layers (moveLayerDown m i) !! n = Some (set_zIndex n b)).
    { rewrite Hlook, decide_False by lia. rewrite decide_True by done. done. }
    apply list_eq. intros k. rewrite !lookup_renumber.
    rewrite (swap_lookup _ (n - 1) n _ _ k Ha' Hb').
    destruct (decide (k = n)) as [->|Hk1]; [by rewrite Ha|].
    destruct (decide (k = n - 1)) as [->|Hk2]; [by rewrite Hb|].
    rewrite Hlook, !decide_False by done.
    by destruct (layers m !! k). }
  split; [exact Hn'|]. split; [exact Hback|].
  intros Hz. rewrite Hback. by apply renumber_zDense.
Qed.

Lemma moveLayerDown_Up_restores_witness :
  layers (moveLayerUp (moveLayerDown (run twoImages) topId) topId)
    = layers (run twoImages) ∧
  moveLayerDown (run twoImages) bottomId = run twoImages.
Proof.
  split.
  - destruct (moveLayerDown_Up_restores (run twoImages) topId 1) as [H _];
      [reflexivity|].
    destruct H as (_ & _ & H); [lia|]. apply H. reflexivity.
  - apply (proj2 (moveLayerDown_Up_restores (run twoImages) bottomId 0 eq_refl)).
    reflexivity.
Defined.

(** *** Adding and removing *)

Lemma NoDup_delete_lookup {A} (xs : list A) (n : nat) (x : A) :
  NoDup xs → xs !! n = Some x → x ∉ delete n xs.
Proof.
  intros Hnd Hn (k & Hk)%list_elem_of_lookup_1.
  destruct (decide (k < n)) as [Hlt|Hge].
  - rewrite list_lookup_delete_lt in Hk by done.
    pose proof (NoDup_lookup xs k n x Hnd Hk Hn). lia.
  - rewrite list_lookup_delete_ge in Hk by lia.
    pose proof (NoDup_lookup xs (S k) n x Hnd Hk Hn). lia.
Qed.

(** [removeLayer] on a layer of the stack takes out that one entry and keeps
    the order of the others, renumbers zIndex densely, keeps the selection
    when another layer was selected, and dispatches [layersChanged] with the
    new stack last; with distinct ids the removed id is gone. *)
Theorem removeLayer_removes_one (m : Manager) (i : LayerId) (n : nat) :
  findIndex i (layers m) = Some n →
  let m' := removeLayer m i in
  id <$> layers m' = delete n (id <$> layers m) ∧
  length (layers m') + 1 = length (layers m) ∧
  zDense (layers m') ∧
  (NoDup (id <$> layers m) → i ∉ id <$> layers m') ∧
  (selectedLayerId m ≠ Some i →
     selectedLayerId m' = selectedLayerId m ∧
     signals m' = signals m ++ [layersChanged (layers m')]) ∧
  last (signals m') = Some (layersChanged (layers m')).
Proof.
  intros Hn m'.
  pose proof (removeLayer_layers m i n Hn) as Hl. fold m' in Hl.
  pose proof Hn as (a & Ha & Hida & _)%findIndex_Some.
  pose proof (lookup_lt_Some _ _ _ Ha) as Hlt.
  split; [by rewrite Hl, ids_renumber, list_fmap_delete|].
  split; [rewrite Hl, length_renumber, length_delete by eauto; lia|].
  split; [rewrite Hl; apply zDense_renumber|].
  split.
  { intros Hnd. rewrite Hl, ids_renumber, list_fmap_delete.
    apply NoDup_delete_lookup; [done|]. by rewrite list_lookup_fmap, Ha, <- Hida. }
  split.
  - intros Hsel. subst m'. unfold removeLayer. rewrite Hn. cbn.
    rewrite bool_decide_eq_false_2 by done. done.
  - subst m'. unfold removeLayer. rewrite Hn. cbn.
    destruct (bool_decide _); cbn; by rewrite last_snoc.
Qed.

Lemma removeLayer_removes_one_witness :
  id <$> layers (removeLayer (run twoImages) bottomId) = [topId] ∧
  selectedLayerId (removeLayer (run twoImages) bottomId) = Some topId ∧
  bottomId ∉ id <$> layers (removeLayer (run twoImages) bottomId).
Proof.
  destruct (removeLayer_removes_one (run twoImages) bottomId 0 eq_refl)
    as (Hids & _ & _ & Hgone & Hsel & _).
  split; [exact Hids|]. split.
  - apply Hsel. discriminate.
  - apply Hgone. cbn. repeat constructor; rewrite ?not_elem_of_cons;
      repeat split; try discriminate; apply not_elem_of_nil.
Defined.

(** On every stack reached by manager calls in which [updateLayerEffect]
    and [updateSelectedLayerEffect] are never given the key [id],
    [addImageLayer] puts a new image layer with a fresh id on top (zIndex =
    old length, visible), selects it, and dispatches [layersChanged] with
    the new stack followed by [layerSelectionChanged] with the new layer;
    when the key [zIndex] is never given either, the zIndex values of the
    new stack are [0 .. N-1] in stack order. *)
Theorem addImageLayer_pushes_and_selects (ops : list Op) (now : N)
    (src : option string) (el : option Element) (nm : option string) :
  keepsIds ops →
  let m := run ops in
  let l := fst (addImageLayer m now src el nm) in
  let m' := snd (addImageLayer m now src el nm) in
  layers m' = layers m ++ [l] ∧
  (id l ∉ id <$> layers m) ∧
  type l = image ∧ visible l = true ∧ zIndex l = length (layers m) ∧
  selectedLayerId m' = Some (id l) ∧
  getSelectedLayer m' = Some l ∧
  signals m' = signals m ++ [layersChanged (layers m'); layerSelectionChanged (Some l)] ∧
  (keepsZIndex ops → zDense (layers m')).
Proof.
  intros Hk m l m'.
  destruct (idsIssued_run ops Hk) as (Hser & _). fold m in Hser.
  assert (Hfresh : id l ∉ id <$> layers m).
  { intros Hin. rewrite Forall_forall in Hser. specialize (Hser _ Hin).
    cbn in Hser. lia. }
  assert (Hfind : getLayer m' (id l) = Some l).
  { unfold getLayer. cbn [m' addImageLayer createLayer snd layers
      _notifySelectionChange _notifyLayerChange emit set_layers set_selectedLayerId].
    rewrite list_find_app_r.
    - cbn. rewrite decide_True by done. done.
    - apply list_find_None. apply Forall_forall. intros x Hx Hid.
      apply Hfresh. rewrite <- Hid. by apply list_elem_of_fmap_2. }
  split; [done|]. split; [exact Hfresh|].
  split; [done|]. split; [done|]. split; [done|]. split; [done|].
  split.
  - unfold getSelectedLayer. exact Hfind.
  - assert (Hsig : signals m' = signals m ++
              [layersChanged (layers m');
               layerSelectionChanged (getLayer m' (id l))]).
    { subst m' l. unfold addImageLayer, createLayer. cbn [snd fst].
      unfold _notifySelectionChange, _notifyLayerChange, emit. cbn [signals].
      rewrite <- app_assoc. reflexivity. }
    rewrite Hsig, Hfind. split; [done|].
    intros Hz. subst m'. change (snd (addImageLayer m now src el nm))
      with (step (run ops) (OpAddImageLayer now src el nm)).
    rewrite <- run_snoc. apply zDense_run.
    apply Forall_app. split; [exact Hz|]. by repeat constructor.
Qed.

Lemma addImageLayer_pushes_and_selects_witness :
  selectedLayerId (snd (addImageLayer (run twoImages) 1002 (Some "data:c") None None))
  = Some (mkLayerId 1002 2).
Proof.
  assert (Hk : keepsIds twoImages) by repeat constructor.
  destruct (addImageLayer_pushes_and_selects twoImages 1002 (Some "data:c") None None Hk)
    as (_ & _ & _ & _ & _ & Hsel & _).
  exact Hsel.
Defined.

End LayerStackMore.

(** ** Panning and the frame callback *)

Section Panning.
Import ImageOverlay Interaction Samples InteractionSamples.
Local Open Scope Q_scope.

(** [Math.max(lo, Math.min(hi, v))] is [v] when [v] already lies in range. *)
Lemma clamp_id (lo hi v : Q) :
  lo <= v → v <= hi → Qmax lo (Qmin hi v) == v.
Proof.
  intros Hlo Hhi.
  destruct (min_cases hi v) as [[? E1]|[? E1]];
    destruct (max_cases lo (Qmin hi v)) as [[? E2]|[? E2]];
    rewrite E2, ?E1; rewrite ?E1 in *; lra.
Qed.

(** The bounds read the image transform only through its scale, and respect
    equality of rationals there. *)
Lemma calculateImageBounds_scale (st : State) (doc : Document) (t t' : Transform) :
  t_scale t == t_scale t' →
  let b := calculateImageBounds (set_imageTransform t st) doc in
  let b' := calculateImageBounds (set_imageTransform t' st) doc in
  minX b == minX b' ∧ maxX b == maxX b' ∧ minY b == minY b' ∧ maxY b == maxY b'.
Proof.
  intros Hs. unfold calculateImageBounds.
  cbn [set_imageTransform displayDimensions basePosition imageTransform
       dropZoneWidth dropZoneHeight].
  destruct (overlayImage doc) as [img|]; [|repeat split; reflexivity].
  destruct (negb _ || negb _); [repeat split; reflexivity|].
  unfold resolveDropzone. cbn [set_imageTransform domCache_dropzone].
  destruct (match domCache_dropzone st with Some d => Some d | None => imageDropzone doc end)
    as [dz|]; [|repeat split; reflexivity].
  cbn [minX maxX minY maxY]. unfold JS.Math_min, JS.Math_max.
  rewrite Hs. repeat split; reflexivity.
Qed.

(** Running the frame callback a second time changes nothing: the scale and
    the translation it left are already in range (equality of rationals),
    and no other field is touched. *)
Theorem updateImageTransform_idempotent (st : State) (doc : Document) :
  let st1 := updateImageTransform st doc in
  let st2 := updateImageTransform st1 doc in
  t_x (imageTransform st2) == t_x (imageTransform st1) ∧
  t_y (imageTransform st2) == t_y (imageTransform st1) ∧
  t_scale (imageTransform st2) == t_scale (imageTransform st1) ∧
  set_imageTransform (imageTransform st) st2 = st.
Proof.
  intros st1 st2. subst st2 st1. unfold updateImageTransform.
  destruct (overlayImage doc) as [img|] eqn:Himg.
  2:{ repeat split; try reflexivity. by destruct st as [[]]. }
  set (cs := Qmax 1.0 (Qmin 5 (t_scale (imageTransform st)))).
  set (b1 := calculateImageBounds
               (set_imageTransform (with_scale cs (imageTransform st)) st) doc).
  set (cx := Qmax (minX b1) (Qmin (maxX b1) (t_x (imageTransform st)))).
  set (cy := Qmax (minY b1) (Qmin (maxY b1) (t_y (imageTransform st)))).
  set (cs2 := Qmax 1.0 (Qmin 5 cs)).
  set (b2 := calculateImageBounds
               (set_imageTransform (with_scale cs2 (mkTransform cx cy cs)) st) doc).
  set (cx2 := Qmax (minX b2) (Qmin (maxX b2) cx)).
  set (cy2 := Qmax (minY b2) (Qmin (maxY b2) cy)).
  change (cx2 == cx ∧ cy2 == cy ∧ cs2 == cs ∧
          set_imageTransform (imageTransform st)
            (set_imageTransform (mkTransform cx2 cy2 cs2) st) = st).
  assert (Hcs : 1.0 <= cs ∧ cs <= 5).
  { subst cs. apply clamp_range. vm_compute. discriminate. }
  assert (Hcs2 : cs2 == cs) by (apply clamp_id; tauto).
  destruct (calculateImageBounds_ordered
              (set_imageTransform (with_scale cs (imageTransform st)) st) doc)
    as [HX HY]. fold b1 in HX, HY.
  assert (Hcx : minX b1 <= cx ∧ cx <= maxX b1) by (apply clamp_range, HX).
  assert (Hcy : minY b1 <= cy ∧ cy <= maxY b1) by (apply clamp_range, HY).
  destruct (calculateImageBounds_scale st doc
              (with_scale cs2 (mkTransform cx cy cs))
              (with_scale cs (imageTransform st))) as (E1 & E2 & E3 & E4);
    [exact Hcs2|].
  fold b1 b2 in E1, E2, E3, E4.
  split; [|split; [|split]].
  - subst cx2. rewrite E1, E2. apply clamp_id; tauto.
  - subst cy2. rewrite E3, E4. apply clamp_id; tauto.
  - exact Hcs2.
  - by destruct st as [[]].
Qed.

(** While the image is dragged, the translation is the translation at the
    start of the drag plus the pointer's displacement, clamped into the
    bounds: it always lies in the bounds, it equals the unclamped target when
    that lies in the bounds, and the scale and the chat block are left
    alone. *)
Theorem updateImagePan_follows_pointer (s : Session) (doc : Document)
    (e0 e : MouseEvent) :
  let s' := updateImagePan (startImagePan s e0) doc e in
  let b := calculateImageBounds (overlay s) doc in
  let targetX := t_x (imageTransform (overlay s)) + (m_clientX e - m_clientX e0) in
  let targetY := t_y (imageTransform (overlay s)) + (m_clientY e - m_clientY e0) in
  (minX b <= t_x (imageTransform (overlay s')) ∧
   t_x (imageTransform (overlay s')) <= maxX b) ∧
  (minY b <= t_y (imageTransform (overlay s')) ∧
   t_y (imageTransform (overlay s')) <= maxY b) ∧
  (minX b <= targetX → targetX <= maxX b →
     t_x (imageTransform (overlay s')) == targetX) ∧
  (minY b <= targetY → targetY <= maxY b →
     t_y (imageTransform (overlay s')) == targetY) ∧
  t_scale (imageTransform (overlay s')) = t_scale (imageTransform (overlay s)) ∧
  chatTransform (overlay s') = chatTransform (overlay s) ∧
  isPanning (imagePan s') = true.
Proof.
  intros s' b targetX targetY. subst s'.
  cbn [updateImagePan startImagePan set_imagePan set_overlay overlay imagePan
       panStart panStartImagePos p_x p_y set_imageTransform imageTransform
       with_position t_x t_y t_scale chatTransform isPanning].
  fold b targetX targetY. unfold JS.Math_max, JS.Math_min.
  destruct (calculateImageBounds_ordered (overlay s) doc) as [HX HY].
  fold b in HX, HY.
  split; [apply clamp_range, HX|]. split; [apply clamp_range, HY|].
  split; [intros H1 H2; exact (clamp_id _ _ _ H1 H2)|].
  split; [intros H1 H2; exact (clamp_id _ _ _ H1 H2)|].
  repeat split.
Qed.

Lemma updateImagePan_follows_pointer_witness :
  let s' := updateImagePan (startImagePan zoomedSession (pressAt 100 100))
              sampleDocument (pressAt 130 90) in
  t_x (imageTransform (overlay s')) == 150 + (130 - 100) ∧
  t_y (imageTransform (overlay s')) == -40 + (90 - 100).
Proof.
  destruct (updateImagePan_follows_pointer zoomedSession sampleDocument
              (pressAt 100 100) (pressAt 130 90)) as (_ & _ & HX & HY & _).
  split; [apply HX|apply HY]; vm_compute; discriminate.
Defined.

(** The snapped position is strictly within the threshold of the input. *)
Lemma applySnapToEdge_near (st : State) (doc : Document) (x y : Q) :
  0 < snapThreshold st →
  Qabs (p_x (applySnapToEdge st doc x y) - x) < snapThreshold st ∧
  Qabs (p_y (applySnapToEdge st doc x y) - y) < snapThreshold st.
Proof.
  intros Hthr.
  assert (Hid : ∀ q, Qabs (q - q) < snapThreshold st).
  { intros q. apply Qabs_lt_iff. lra. }
  unfold applySnapToEdge.
  destruct (negb (snapEnabled st)); [split; apply Hid|].
  destruct (imageDropzone doc) as [dropzone|]; [|split; apply Hid].
  destruct (chatOverlayContainer doc) as [chatOverlay|]; [|split; apply Hid].
  cbn [p_x p_y]. split; apply snap_axis, Hthr.
Qed.

(** While the chat block is dragged, its position is the position at the
    start of the drag plus the pointer's displacement: exactly so with Shift
    held or with snapping switched off, and otherwise within less than the
    snap threshold of it; the scale is left alone. *)
Theorem updateChatPan_follows_pointer (s : Session) (doc : Document)
    (e0 e : MouseEvent) :
  let s' := updateChatPan (startChatPan s e0) doc e in
  let targetX := t_x (chatTransform (overlay s)) + (m_clientX e - m_clientX e0) in
  let targetY := t_y (chatTransform (overlay s)) + (m_clientY e - m_clientY e0) in
  (m_shiftKey e = true ∨ snapEnabled (overlay s) = false →
     t_x (chatTransform (overlay s')) = targetX ∧
     t_y (chatTransform (overlay s')) = targetY) ∧
  (0 < snapThreshold (overlay s) →
     Qabs (t_x (chatTransform (overlay s')) - targetX) < snapThreshold (overlay s) ∧
     Qabs (t_y (chatTransform (overlay s')) - targetY) < snapThreshold (overlay s)) ∧
  t_scale (chatTransform (overlay s')) = t_scale (chatTransform (overlay s)) ∧
  imageTransform (overlay s') = imageTransform (overlay s).
Proof.
  intros s' targetX targetY. subst s'.
  cbn [updateChatPan startChatPan set_chatPan set_overlay overlay chatPan
       chatPanStart chatPanStartPos p_x p_y set_chatTransform chatTransform
       with_position t_x t_y t_scale imageTransform].
  fold targetX targetY.
  split; [|split; [|done]].
  - intros [Hshift|Hoff].
    + rewrite Hshift. done.
    + destruct (m_shiftKey e); [done|]. cbn [negb].
      unfold applySnapToEdge. rewrite Hoff. done.
  - intros Hthr. destruct (m_shiftKey e); cbn [negb p_x p_y].
    + split; apply Qabs_lt_iff; lra.
    + by apply applySnapToEdge_near.
Qed.

Lemma updateChatPan_follows_pointer_witness :
  let s' := updateChatPan (startChatPan sampleSession (pressAt 10 10))
              chatDocument (shiftAt 25 40) in
  t_x (chatTransform (overlay s')) = 0 + (25 - 10) ∧
  t_y (chatTransform (overlay s')) = 0 + (40 - 10) ∧
  Qabs (t_x (chatTransform (overlay s')) - (0 + (25 - 10))) < 20.
Proof.
  destruct (updateChatPan_follows_pointer sampleSession chatDocument
              (pressAt 10 10) (shiftAt 25 40)) as (Hexact & Hnear & _).
  destruct Hexact as [HX HY]; [left; reflexivity|].
  split; [exact HX|]. split; [exact HY|].
  apply Hnear. reflexivity.
Defined.

End Panning.

(** ** Alignment guides and line dragging *)

Section Lines.
Import ImageOverlay Interaction Samples InteractionSamples.
Local Open Scope Q_scope.

Lemma lastMatch_S P val n :
  lastMatch P val (S n) =
    if P n then Some (mkGuide (val n) n) else lastMatch P val n.
Proof. unfold lastMatch. by rewrite seq_S, fold_left_app. Qed.

Lemma lastMatch_spec P val n :
  match lastMatch P val n with
  | Some g =>
    (alignedWith g < n)%nat ∧ P (alignedWith g) = true ∧
    guideAt g = val (alignedWith g) ∧
    ∀ j, (alignedWith g < j)%nat → (j < n)%nat → P j = false
  | None => ∀ j, (j < n)%nat → P j = false
  end.
Proof.
  induction n as [|n IH]; [cbn; intros; lia|].
  rewrite lastMatch_S. destruct (P n) eqn:E.
  - cbn. repeat split; [lia|done|]. intros; lia.
  - destruct (lastMatch P val n) as [g|].
    + destruct IH as (Hlt & HP & Hv & Hlast). repeat split; [lia|done|done|].
      intros j Hj1 Hj2. destruct (decide (j = n)) as [->|]; [done|].
      apply Hlast; lia.
    + intros j Hj. destruct (decide (j = n)) as [->|]; [done|]. apply IH. lia.
Qed.

Lemma hTest_alignsH s current y j :
  hTest s current y j = true ↔ alignsH s current y j.
Proof.
  unfold hTest, alignsH. rewrite andb_true_iff, negb_true_iff, Qle_bool_iff.
  rewrite bool_decide_eq_false. done.
Qed.

Lemma vTest_alignsV s current x j :
  vTest s current x j = true ↔ alignsV s current x j.
Proof.
  unfold vTest, alignsV. rewrite andb_true_iff, negb_true_iff, Qle_bool_iff.
  rewrite bool_decide_eq_false. done.
Qed.

Lemma alignment_fold s current x y n :
  fold_left (alignStep s current x y) (seq 0 n) (mkGuides None None)
  = mkGuides (lastMatch (hTest s current y) (λ j, p_y (linePosition s j)) n)
             (lastMatch (vTest s current x) (λ j, p_x (linePosition s j)) n).
Proof.
  induction n as [|n IH]; [done|].
  rewrite seq_S, fold_left_app, IH, !lastMatch_S. cbn [fold_left Nat.add].
  unfold alignStep, hTest, vTest, linePosition, JS.Math_abs.
  destruct (bool_decide (n = current)); cbn [negb andb horizontalGuide verticalGuide];
    done.
Qed.

Lemma checkAndShowAlignmentGuides_frame s page current x y :
  overlay (checkAndShowAlignmentGuides s page current x y) = overlay s ∧
  lineMaxWidths (checkAndShowAlignmentGuides s page current x y) = lineMaxWidths s ∧
  linePan (checkAndShowAlignmentGuides s page current x y) = linePan s ∧
  selection (checkAndShowAlignmentGuides s page current x y) = selection s.
Proof.
  unfold checkAndShowAlignmentGuides.
  by destruct (imageDropzone (document page)).
Qed.

(** With the dropzone present, the horizontal guide is shown exactly when
    some other line's stored height is within the alignment threshold of the
    current height, and it is then drawn at the height of the last such line;
    likewise the vertical guide and the left edges.  Without the dropzone the
    guides stay as they are. *)
Theorem checkAndShowAlignmentGuides_last_match (s : Session) (page : Page)
    (current : nat) (x y : Q) :
  let s' := checkAndShowAlignmentGuides s page current x y in
  let n := lineWrapperCount page in
  (is_Some (imageDropzone (document page)) →
     match horizontalGuide (guides s') with
     | Some g =>
       (alignedWith g < n)%nat ∧ alignsH s current y (alignedWith g) ∧
       guideAt g = p_y (linePosition s (alignedWith g)) ∧
       ∀ j, (alignedWith g < j)%nat → (j < n)%nat → ¬ alignsH s current y j
     | None => ∀ j, (j < n)%nat → ¬ alignsH s current y j
     end ∧
     match verticalGuide (guides s') with
     | Some g =>
       (alignedWith g < n)%nat ∧ alignsV s current x (alignedWith g) ∧
       guideAt g = p_x (linePosition s (alignedWith g)) ∧
       ∀ j, (alignedWith g < j)%nat → (j < n)%nat → ¬ alignsV s current x j
     | None => ∀ j, (j < n)%nat → ¬ alignsV s current x j
     end) ∧
  (imageDropzone (document page) = None → s' = s) ∧
  overlay s' = overlay s.
Proof.
  intros s' n.
  split; [|split; [|apply checkAndShowAlignmentGuides_frame]].
  - intros [dz Hdz]. subst s'. unfold checkAndShowAlignmentGuides.
    rewrite Hdz. cbn [guides set_guides]. rewrite alignment_fold.
    cbn [horizontalGuide verticalGuide]. fold n. split.
    + pose proof (lastMatch_spec (hTest s current y)
                    (λ j, p_y (linePosition s j)) n) as H.
      destruct (lastMatch _ _ n) as [g|].
      * destruct H as (? & HP & ? & Hlast). repeat split; [done| | |done|].
        -- by apply hTest_alignsH in HP as [? ?].
        -- by apply hTest_alignsH in HP as [? ?].
        -- intros j Hj1 Hj2 Ha%hTest_alignsH. rewrite Hlast in Ha by done. done.
      * intros j Hj Ha%hTest_alignsH. rewrite H in Ha by done. done.
    + pose proof (lastMatch_spec (vTest s current x)
                    (λ j, p_x (linePosition s j)) n) as H.
      destruct (lastMatch _ _ n) as [g|].
      * destruct H as (? & HP & ? & Hlast). repeat split; [done| | |done|].
        -- by apply vTest_alignsV in HP as [? ?].
        -- by apply vTest_alignsV in HP as [? ?].
        -- intros j Hj1 Hj2 Ha%vTest_alignsV. rewrite Hlast in Ha by done. done.
      * intros j Hj Ha%vTest_alignsV. rewrite H in Ha by done. done.
  - intros Hnone. subst s'. unfold checkAndShowAlignmentGuides. by rewrite Hnone.
Qed.

Lemma checkAndShowAlignmentGuides_last_match_witness :
  horizontalGuide (guides (checkAndShowAlignmentGuides alignedSession samplePage 0 20 100))
    = Some (mkGuide 101 2) ∧
  alignsH alignedSession 0 100 2.
Proof.
  destruct (checkAndShowAlignmentGuides_last_match alignedSession samplePage 0 20 100)
    as (H & _).
  destruct H as [H _]; [by eexists|].
  destruct (horizontalGuide _) as [g|] eqn:E; vm_compute in E; [|discriminate E].
  injection E as <-. split; [reflexivity|]. apply H.
Defined.



End Lines.

(** ** Line layout *)

Section LineLayout.
Import ImageOverlay Interaction Samples InteractionSamples.
Local Open Scope Q_scope.

Variables (startX maxChatWidth est y0 : Q).
Variables (P : gmap nat Point) (M : gmap nat Q).

(** The layout after the first [n] lines. *)
Let L (n : nat) : Layout :=
  fold_left (layoutStep startX maxChatWidth est) (seq 0 n) (mkLayout y0 P M).

Lemma layout_S n : L (S n) = layoutStep startX maxChatWidth est (L n) n.
Proof. unfold L. by rewrite seq_S, fold_left_app. Qed.

Lemma layout_currentY n : currentY (L n) == y0 + inject_Z (Z.of_nat n) * est.
Proof.
  induction n as [|n IH].
  - cbn. ring.
  - rewrite layout_S. unfold layoutStep.
    assert (E : inject_Z (Z.of_nat (S n)) == inject_Z (Z.of_nat n) + 1).
    { rewrite Nat2Z.inj_succ. unfold Z.succ. rewrite inject_Z_plus. reflexivity. }
    destruct (positions (L n) !! n); cbn [currentY]; rewrite IH, E; ring.
Qed.

Lemma layout_positions n i :
  positions (L n) !! i =
    match P !! i with
    | Some p => Some p
    | None => if decide (i < n)%nat then Some (mkPoint startX (currentY (L i))) else None
    end.
Proof.
  revert i. induction n as [|n IH]; intros i.
  - cbn. destruct (P !! i); [done|]. by rewrite decide_False by lia.
  - rewrite layout_S. unfold layoutStep.
    destruct (positions (L n) !! n) as [q|] eqn:Hn; cbn [positions].
    + rewrite IH. destruct (P !! i) eqn:HP; [done|].
      destruct (decide (i = n)) as [->|Hne].
      * rewrite IH, HP in Hn. rewrite decide_False in Hn by lia. done.
      * destruct (decide (i < n)%nat); [by rewrite decide_True by lia|].
        by rewrite decide_False by lia.
    + destruct (decide (i = n)) as [->|Hne].
      * rewrite lookup_insert_eq. rewrite IH in Hn.
        destruct (P !! n); [done|]. by rewrite decide_True by lia.
      * rewrite lookup_insert_ne by done. rewrite IH.
        destruct (P !! i); [done|].
        destruct (decide (i < n)%nat); [by rewrite decide_True by lia|].
        by rewrite decide_False by lia.
Qed.

Lemma layout_maxWidths n i :
  maxWidths (L n) !! i =
    match P !! i with
    | Some _ => M !! i
    | None => if decide (i < n)%nat then Some maxChatWidth else M !! i
    end.
Proof.
  revert i. induction n as [|n IH]; intros i.
  - cbn. destruct (P !! i); [done|]. by rewrite decide_False by lia.
  - rewrite layout_S. unfold layoutStep.
    destruct (positions (L n) !! n) as [q|] eqn:Hn; cbn [maxWidths];
      rewrite layout_positions in Hn.
    + rewrite IH. destruct (P !! i) eqn:HP; [done|].
      destruct (decide (i = n)) as [->|Hne].
      * rewrite HP in Hn. rewrite decide_False in Hn by lia. done.
      * destruct (decide (i < n)%nat); [by rewrite decide_True by lia|].
        by rewrite decide_False by lia.
    + destruct (decide (i = n)) as [->|Hne].
      * rewrite lookup_insert_eq.
        destruct (P !! n); [done|]. by rewrite decide_True by lia.
      * rewrite lookup_insert_ne by done. rewrite IH.
        destruct (P !! i); [done|].
        destruct (decide (i < n)%nat); [by rewrite decide_True by lia|].
        by rewrite decide_False by lia.
Qed.

End LineLayout.

Section RenderLines.
Import ImageOverlay Interaction Samples InteractionSamples.
Local Open Scope Q_scope.

Lemma renderChatOverlay_cases (s : Session) (page : Page) :
  (renderChatOverlay s page = s ∧
   ∀ dz out, renders page dz out → generatedLines out = 0%nat) ∨
  (∃ dz out, renders page dz out ∧
     renderChatOverlay s page =
       set_lineMaxWidths (maxWidths (renderLayout s page dz out))
         (set_overlay
            (set_lineTransforms (positions (renderLayout s page dz out)) (overlay s))
            s)).
Proof.
  unfold renderChatOverlay, renders.
  destruct (imageDropzone (document page)) as [dz|]; [|left; split; [done|]].
  2:{ intros ? ? (? & _). done. }
  destruct (bool_decide (is_Some (overlayImage (document page)))) eqn:Himg;
    [apply bool_decide_eq_true in Himg | apply bool_decide_eq_false in Himg];
    cbn [negb andb].
  - destruct (output page) as [out|]; [|left; split; [done|]].
    2:{ intros ? ? (_ & _ & ?). done. }
    destruct (bool_decide (generatedLines out = 0%nat)) eqn:Hn.
    + apply bool_decide_eq_true in Hn. left. split; [done|].
      intros ? ? (_ & _ & [= <-]). done.
    + right. exists dz, out. split; [|done]. split; [done|]. split; [by left|done].
  - destruct (hasImageLayers page) eqn:Hl; cbn [negb].
    + destruct (output page) as [out|]; [|left; split; [done|]].
      2:{ intros ? ? (_ & _ & ?). done. }
      destruct (bool_decide (generatedLines out = 0%nat)) eqn:Hn.
      * apply bool_decide_eq_true in Hn. left. split; [done|].
        intros ? ? (_ & _ & [= <-]). done.
      * right. exists dz, out. split; [|done]. split; [done|]. split; [by right|done].
    + left. split; [done|]. intros ? ? (_ & [?|?] & _); done.
Qed.

(** Re-rendering the chat overlay keeps every stored line position and its
    [maxWidth]; a line without a stored position gets the default stacked
    one, (20, 20 + index * fontSize * 1.6 * 1.2), with the chat width as
    [maxWidth]; lines beyond the generated ones are not touched; rendering a
    second time changes nothing; and the transforms and the selection are
    left alone. *)
Theorem renderChatOverlay_keeps_positions (s : Session) (page : Page) :
  let s' := renderChatOverlay s page in
  (∀ i p, lineTransforms (overlay s) !! i = Some p →
     lineTransforms (overlay s') !! i = Some p ∧
     lineMaxWidths s' !! i = lineMaxWidths s !! i) ∧
  (∀ dz out i,
     renders page dz out →
     (i < generatedLines out)%nat →
     lineTransforms (overlay s) !! i = None →
     ∃ p, lineTransforms (overlay s') !! i = Some p ∧
          p_x p = 20 ∧
          p_y p == 20 + inject_Z (Z.of_nat i) * estimatedLineHeightOf page ∧
          lineMaxWidths s' !! i
            = Some (Qmin (JS.or (outputWidth out) 800) (offsetWidth dz - 40))) ∧
  (∀ i, (∀ dz out, renders page dz out → (generatedLines out ≤ i)%nat) →
     lineTransforms (overlay s') !! i = lineTransforms (overlay s) !! i) ∧
  renderChatOverlay s' page = s' ∧
  chatTransform (overlay s') = chatTransform (overlay s) ∧
  imageTransform (overlay s') = imageTransform (overlay s) ∧
  selection s' = selection s.
Proof.
  intros s'.
  destruct (renderChatOverlay_cases s page) as [[Hsame Hzero]|(dz & out & Hr & Heq)];
    fold s' in Hsame || fold s' in Heq.
  - rewrite Hsame. split; [done|]. split; [|done].
    intros dz out i Hr Hi. rewrite (Hzero dz out Hr) in Hi. lia.
  - assert (Hpos : ∀ i, lineTransforms (overlay s') !! i =
        match lineTransforms (overlay s) !! i with
        | Some p => Some p
        | None =>
          if decide (i < generatedLines out)%nat
          then Some (mkPoint 20
                       (currentY
                          (fold_left
                             (layoutStep 20
                                (JS.Math_min (JS.or (outputWidth out) 800)
                                   (offsetWidth dz - 40))
                                (estimatedLineHeightOf page))
                             (seq 0 i)
                             (mkLayout 20 (lineTransforms (overlay s))
                                (lineMaxWidths s)))))
          else None
        end).
    { intros i. rewrite Heq. cbn [overlay set_lineMaxWidths set_overlay
        lineTransforms set_lineTransforms]. apply layout_positions. }
    assert (Hmw : ∀ i, lineMaxWidths s' !! i =
        match lineTransforms (overlay s) !! i with
        | Some _ => lineMaxWidths s !! i
        | None =>
          if decide (i < generatedLines out)%nat
          then Some (JS.Math_min (JS.or (outputWidth out) 800) (offsetWidth dz - 40))
          else lineMaxWidths s !! i
        end).
    { intros i. rewrite Heq. cbn [lineMaxWidths set_lineMaxWidths].
      apply layout_maxWidths. }
    split; [|split; [|split; [|split]]].
    + intros i p Hp. by rewrite Hpos, Hmw, Hp.
    + intros dz' out' i Hr' Hi Hnone.
      destruct Hr as (Hdz & _ & Hout), Hr' as (Hdz' & _ & Hout').
      assert (dz' = dz) as -> by congruence.
      assert (out' = out) as -> by congruence.
      rewrite Hpos, Hmw, Hnone, !decide_True by done.
      eexists. split; [done|]. split; [done|]. split; [|done].
      cbn [p_y]. apply layout_currentY.
    + intros i Hge. specialize (Hge dz out Hr).
      rewrite Hpos. destruct (lineTransforms (overlay s) !! i); [done|].
      by rewrite decide_False by lia.
    + destruct (renderChatOverlay_cases s' page)
        as [[Hsame _]|(dz2 & out2 & Hr2 & Heq2)]; [done|].
      destruct Hr as (Hdz & _ & Hout), Hr2 as (Hdz2 & _ & Hout2).
      assert (dz2 = dz) as -> by congruence.
      assert (out2 = out) as -> by congruence.
      rewrite Heq2.
      assert (E1 : positions (renderLayout s' page dz out)
                   = lineTransforms (overlay s')).
      { apply map_eq. intros i. unfold renderLayout. rewrite layout_positions.
        destruct (lineTransforms (overlay s') !! i) eqn:E; [done|].
        rewrite Hpos in E. destruct (lineTransforms (overlay s) !! i); [done|].
        destruct (decide (i < generatedLines out)%nat); done. }
      assert (E2 : maxWidths (renderLayout s' page dz out) = lineMaxWidths s').
      { apply map_eq. intros i. unfold renderLayout. rewrite layout_maxWidths.
        destruct (lineTransforms (overlay s') !! i) eqn:E; [done|].
        rewrite Hpos in E. destruct (lineTransforms (overlay s) !! i); [done|].
        destruct (decide (i < generatedLines out)%nat); done. }
      rewrite E1, E2. rewrite Heq. reflexivity.
    + rewrite Heq. done.
Qed.

Lemma renderChatOverlay_keeps_positions_witness :
  lineTransforms (overlay (renderChatOverlay alignedSession samplePage)) !! 1%nat
    = Some (mkPoint 300 200) ∧
  ∃ p, lineTransforms (overlay (renderChatOverlay sampleSession samplePage)) !! 2%nat
         = Some p ∧ p_x p = 20 ∧
       p_y p == 20 + inject_Z 2 * estimatedLineHeightOf samplePage.
Proof.
  split.
  - apply (proj1 (renderChatOverlay_keeps_positions alignedSession samplePage)).
    reflexivity.
  - destruct (proj1 (proj2 (renderChatOverlay_keeps_positions sampleSession samplePage))
                sampleDropzone (mkOutput 600 3) 2%nat)
      as (p & Hp & Hx & Hy & _).
    + split; [reflexivity|]. split; [left; by eexists|reflexivity].
    + cbn. lia.
    + reflexivity.
    + exists p. split; [exact Hp|]. split; [exact Hx|exact Hy].
Defined.

(** What a render that reaches the page stores for line [i]. *)
Lemma renderChatOverlay_lookup (s : Session) (page : Page) (dz : Element)
    (out : Output) (i : nat) :
  renders page dz out →
  (∃ y, lineTransforms (overlay (renderChatOverlay s page)) !! i =
          match lineTransforms (overlay s) !! i with
          | Some p => Some p
          | None =>
            if decide (i < generatedLines out)%nat then Some (mkPoint 20 y) else None
          end ∧
        y == 20 + inject_Z (Z.of_nat i) * estimatedLineHeightOf page) ∧
  lineMaxWidths (renderChatOverlay s page) !! i =
    match lineTransforms (overlay s) !! i with
    | Some _ => lineMaxWidths s !! i
    | None =>
      if decide (i < generatedLines out)%nat
      then Some (Qmin (JS.or (outputWidth out) 800) (offsetWidth dz - 40))
      else lineMaxWidths s !! i
    end.
Proof.
  intros Hr.
  destruct (renderChatOverlay_cases s page) as [[Hsame Hzero]|(dz2 & out2 & Hr2 & Heq)].
  - rewrite Hsame, (Hzero dz out Hr). split.
    + exists (20 + inject_Z (Z.of_nat i) * estimatedLineHeightOf page).
      split; [|reflexivity].
      destruct (lineTransforms (overlay s) !! i); [done|].
      by rewrite decide_False by lia.
    + destruct (lineTransforms (overlay s) !! i); [done|].
      by rewrite decide_False by lia.
  - destruct Hr as (Hdz & _ & Hout), Hr2 as (Hdz2 & _ & Hout2).
    assert (dz2 = dz) as -> by congruence.
    assert (out2 = out) as -> by congruence.
    rewrite Heq. cbn [overlay set_lineMaxWidths set_overlay lineTransforms
      set_lineTransforms lineMaxWidths]. split.
    + eexists. split; [apply layout_positions|apply layout_currentY].
    + apply layout_maxWidths.
Qed.

Lemma renderChatOverlay_frame (s : Session) (page : Page) :
  chatTransform (overlay (renderChatOverlay s page)) = chatTransform (overlay s) ∧
  imageTransform (overlay (renderChatOverlay s page)) = imageTransform (overlay s) ∧
  selection (renderChatOverlay s page) = selection s ∧
  currentMode (renderChatOverlay s page) = currentMode s.
Proof.
  destruct (renderChatOverlay_cases s page) as [[Hsame _]|(dz & out & _ & Heq)].
  - by rewrite Hsame.
  - by rewrite Heq.
Qed.

(** Resetting the chat position puts the chat transform back to the origin
    at scale 1 and forgets every stored line position: whatever was stored,
    each generated line is afterwards at its default stacked position, and
    no other line has one. *)
Theorem resetChatPosition_defaults (s : Session) (page : Page) :
  let s' := resetChatPosition s page in
  chatTransform (overlay s') = mkTransform 0 0 1 ∧
  imageTransform (overlay s') = imageTransform (overlay s) ∧
  (∀ dz out i,
     renders page dz out →
     ((i < generatedLines out)%nat →
        ∃ p, lineTransforms (overlay s') !! i = Some p ∧
             p_x p = 20 ∧
             p_y p == 20 + inject_Z (Z.of_nat i) * estimatedLineHeightOf page ∧
             lineMaxWidths s' !! i
               = Some (Qmin (JS.or (outputWidth out) 800) (offsetWidth dz - 40))) ∧
     ((generatedLines out ≤ i)%nat →
        lineTransforms (overlay s') !! i = None ∧ lineMaxWidths s' !! i = None)) ∧
  ((∀ dz out, ¬ renders page dz out) →
     lineTransforms (overlay s') = ∅ ∧ lineMaxWidths s' = ∅).
Proof.
  intros s'. subst s'. unfold resetChatPosition.
  set (s0 := set_lineMaxWidths ∅ _).
  destruct (renderChatOverlay_frame s0 page) as (Hc & Hi & _).
  split; [by rewrite Hc|]. split; [by rewrite Hi|]. split.
  - intros dz out i Hr.
    destruct (renderChatOverlay_lookup s0 page dz out i Hr) as ((y & Hp & Hy) & Hm).
    cbn [s0 overlay set_lineMaxWidths set_overlay lineTransforms set_lineTransforms
         lineMaxWidths] in Hp, Hm.
    rewrite lookup_empty in Hp, Hm.
    destruct (decide (i < generatedLines out)%nat) as [Hlt|Hge]; split.
    + intros _. exists (mkPoint 20 y). done.
    + intros Hge. lia.
    + intros Hlt. lia.
    + intros _. rewrite lookup_empty in Hm. done.
  - intros Hno.
    destruct (renderChatOverlay_cases s0 page) as [[Hsame _]|(dz & out & Hr & _)].
    + by rewrite Hsame.
    + by destruct (Hno dz out).
Qed.

Lemma resetChatPosition_defaults_witness :
  ∃ p, lineTransforms (overlay (resetChatPosition alignedSession samplePage)) !! 1%nat
         = Some p ∧ p_x p = 20 ∧
       p_y p == 20 + inject_Z 1 * estimatedLineHeightOf samplePage.
Proof.
  destruct (proj1 (proj2 (proj2 (resetChatPosition_defaults alignedSession samplePage)))
              sampleDropzone (mkOutput 600 3) 1%nat) as [H _].
  - split; [reflexivity|]. split; [left; by eexists|reflexivity].
  - destruct H as (p & Hp & Hx & Hy & _); [cbn; lia|].
    exists p. split; [exact Hp|]. split; [exact Hx|exact Hy].
Defined.

End RenderLines.

(** ** Quick positions and the keyboard *)

Section Keyboard.
Import ImageOverlay Interaction Samples InteractionSamples.
Local Open Scope Q_scope.

(** With dropzone and chat block present, [setQuickPosition] changes only the
    chat position, and when the scaled chat block plus 20px of padding on
    both sides fits the dropzone on an axis, it places the block inside the
    padded area on that axis, whatever the position name; without the
    dropzone or the chat block it does nothing. *)
Theorem setQuickPosition_inside_padding (st : State) (doc : Document)
    (position : string) :
  let st' := setQuickPosition st doc position in
  (∀ dz chat,
     imageDropzone doc = Some dz →
     chatOverlayContainer doc = Some chat →
     let cw := offsetWidth chat * t_scale (chatTransform st) in
     let ch := offsetHeight chat * t_scale (chatTransform st) in
     t_scale (chatTransform st') = t_scale (chatTransform st) ∧
     set_chatTransform (chatTransform st) st' = st ∧
     (cw + 40 <= offsetWidth dz →
        20 <= t_x (chatTransform st') ∧
        t_x (chatTransform st') + cw <= offsetWidth dz - 20) ∧
     (ch + 40 <= offsetHeight dz →
        20 <= t_y (chatTransform st') ∧
        t_y (chatTransform st') + ch <= offsetHeight dz - 20)) ∧
  (imageDropzone doc = None ∨ chatOverlayContainer doc = None → st' = st).
Proof.
  intros st'. subst st'. split.
  - intros dz chat Hdz Hchat cw ch. unfold setQuickPosition. rewrite Hdz, Hchat.
    cbn [set_chatTransform chatTransform with_position t_x t_y t_scale].
    fold cw ch. split; [done|]. split; [by destruct st as [? ? ? ? [] ? ? ? ? ? ? ?]|].
    split; intros Hfit.
    + destruct (includes position "left"); [split; qlin|].
      destruct (includes position "right"); split; qlin.
    + destruct (includes position "top"); [split; qlin|].
      destruct (includes position "bottom"); split; qlin.
  - unfold setQuickPosition. intros [Hnone|Hnone]; rewrite Hnone; [done|].
    by destruct (imageDropzone doc).
Qed.

Lemma setQuickPosition_inside_padding_witness :
  20 <= t_x (chatTransform (setQuickPosition sampleState chatDocument "bottom-right")) ∧
  t_x (chatTransform (setQuickPosition sampleState chatDocument "bottom-right"))
    + 100 * 1 <= 800 - 20.
Proof.
  apply (proj1 (setQuickPosition_inside_padding sampleState chatDocument "bottom-right")
           sampleDropzone chatBlock eq_refl eq_refl).
  vm_compute. discriminate.
Defined.

Lemma onKeyDown_digit (s : Session) (page : Page) (shift : bool) (row col : nat) :
  currentMode s = overlayMode →
  activeElementIsInput page = false →
  (row < 3)%nat → (col < 3)%nat →
  onKeyDown s page (mkKeyEvent (numpadKey row col) false false false shift)
  = set_overlay
      (setQuickPosition (overlay s) (document page)
         (default "" (positionMap (numpadKey row col)))) s.
Proof.
  intros Hmode Hin Hrow Hcol. unfold onKeyDown. rewrite Hmode, Hin.
  destruct row as [|[|[|row]]]; [| | |lia];
    destruct col as [|[|[|col]]]; try lia; reflexivity.
Qed.

(** In overlay mode, outside text inputs and without Ctrl, Meta or Alt:
    when the document holds the dropzone and the chat block
    ([.chat-overlay-container]), the number keys place the chat block as
    they lie on a numeric keypad: the key in keypad row [row] and column
    [col] puts the block 20px from the left edge, centred, or 20px from the
    right edge according to [col], and 20px from the top, centred, or 20px
    from the bottom according to [row]; the scale and the selection stay.
    When the dropzone or the chat block is missing, the number keys change
    nothing. *)
Theorem number_keys_follow_numpad (s : Session) (page : Page) (shift : bool)
    (row col : nat) :
  currentMode s = overlayMode →
  activeElementIsInput page = false →
  (row < 3)%nat → (col < 3)%nat →
  let s' := onKeyDown s page (mkKeyEvent (numpadKey row col) false false false shift) in
  (∀ dz chat,
     imageDropzone (document page) = Some dz →
     chatOverlayContainer (document page) = Some chat →
     let cw := offsetWidth chat * t_scale (chatTransform (overlay s)) in
     let ch := offsetHeight chat * t_scale (chatTransform (overlay s)) in
     t_x (chatTransform (overlay s')) = anchor col (offsetWidth dz) cw ∧
     t_y (chatTransform (overlay s')) = anchor row (offsetHeight dz) ch ∧
     t_scale (chatTransform (overlay s')) = t_scale (chatTransform (overlay s)) ∧
     selection s' = selection s) ∧
  (imageDropzone (document page) = None
   ∨ chatOverlayContainer (document page) = None → s' = s).
Proof.
  intros Hmode Hin Hrow Hcol s'. subst s'.
  rewrite onKeyDown_digit by done. split.
  - intros dz chat Hdz Hchat cw ch.
    cbn [overlay set_overlay selection]. unfold setQuickPosition.
    rewrite Hdz, Hchat.
    cbn [set_chatTransform chatTransform with_position t_x t_y t_scale].
    fold cw ch.
    destruct row as [|[|[|row]]]; [| | |lia];
      destruct col as [|[|[|col]]]; try lia; repeat split; reflexivity.
  - intros Hmissing.
    assert (E : setQuickPosition (overlay s) (document page)
                  (default "" (positionMap (numpadKey row col))) = overlay s).
    { unfold setQuickPosition. destruct Hmissing as [-> | ->]; [done|].
      by destruct (imageDropzone (document page)). }
    rewrite E. by destruct s.
Qed.

Lemma number_keys_follow_numpad_witness :
  let s' := onKeyDown sampleSession samplePage (mkKeyEvent "3" false false false false) in
  t_x (chatTransform (overlay s')) = 800 - 100 * 1 - 20 ∧
  t_y (chatTransform (overlay s')) = 600 - 40 * 1 - 20.
Proof.
  destruct (number_keys_follow_numpad sampleSession samplePage false 2 2)
    as [Hplace _]; try reflexivity; try lia.
  destruct (Hplace sampleDropzone chatBlock eq_refl eq_refl) as (HX & HY & _).
  split; [exact HX|exact HY].
Defined.

End Keyboard.

(** ** Arrow keys *)

Section ArrowKeys.
Import ImageOverlay Interaction Samples InteractionSamples.
Local Open Scope Q_scope.

(** The keydown listener does nothing in chat mode, while an input or
    textarea has the focus, and while Ctrl, Meta or Alt is held. *)
Theorem onKeyDown_guard (s : Session) (page : Page) (e : KeyEvent) :
  currentMode s = chatMode ∨ activeElementIsInput page = true
  ∨ k_ctrlKey e = true ∨ k_metaKey e = true ∨ k_altKey e = true →
  onKeyDown s page e = s.
Proof.
  unfold onKeyDown. intros H. destruct (currentMode s) eqn:Hmode; [done|].
  destruct H as [H|[H|[H|[H|H]]]]; [done|rewrite H..].
  - rewrite andb_false_r. by destruct (_ && _ && _).
  - by rewrite !andb_false_r.
  - by rewrite !andb_false_r.
  - by rewrite !andb_false_r.
Qed.

Lemma onKeyDown_guard_witness :
  onKeyDown sampleSession samplePage (mkKeyEvent "r" true false false false)
  = sampleSession.
Proof.
  apply onKeyDown_guard. right; right; left. reflexivity.
Defined.

Lemma onKeyDown_arrow (s : Session) (page : Page) (k : string) (shift : bool) :
  k ∈ ["ArrowUp"; "ArrowDown"; "ArrowLeft"; "ArrowRight"] →
  currentMode s = overlayMode →
  activeElementIsInput page = false →
  onKeyDown s page (mkKeyEvent k false false false shift)
  = match selectedElement (selection s) with
    | noSelection => s
    | _ => nudge s page (mkKeyEvent k false false false shift)
    end.
Proof.
  intros Hk Hmode Hin. unfold onKeyDown. rewrite Hmode, Hin.
  repeat (apply elem_of_cons in Hk as [->|Hk]); [| | | |by apply elem_of_nil in Hk];
    cbn; by destruct (selectedElement (selection s)).
Qed.

(** With the chat block selected, in overlay mode and outside text inputs,
    an arrow key moves the chat block by 10px, or by 1px with Shift, in its
    direction and leaves the scale; Left then Right, and Up then Down, bring
    the block back. *)
Theorem arrow_keys_move_chat (s : Session) (page : Page) (shift : bool) :
  currentMode s = overlayMode →
  activeElementIsInput page = false →
  selectedElement (selection s) = chatSelected →
  let step := (if shift then 1 else 10) : Q in
  let press k s := onKeyDown s page (mkKeyEvent k false false false shift) in
  let chat s := chatTransform (overlay s) in
  (t_x (chat (press "ArrowLeft" s)) = t_x (chat s) + - step
     ∧ t_y (chat (press "ArrowLeft" s)) = t_y (chat s) + 0) ∧
  (t_x (chat (press "ArrowRight" s)) = t_x (chat s) + step
     ∧ t_y (chat (press "ArrowRight" s)) = t_y (chat s) + 0) ∧
  (t_x (chat (press "ArrowUp" s)) = t_x (chat s) + 0
     ∧ t_y (chat (press "ArrowUp" s)) = t_y (chat s) + - step) ∧
  (t_x (chat (press "ArrowDown" s)) = t_x (chat s) + 0
     ∧ t_y (chat (press "ArrowDown" s)) = t_y (chat s) + step) ∧
  (∀ k, k ∈ ["ArrowUp"; "ArrowDown"; "ArrowLeft"; "ArrowRight"] →
     t_scale (chat (press k s)) = t_scale (chat s)) ∧
  (t_x (chat (press "ArrowRight" (press "ArrowLeft" s))) == t_x (chat s)
     ∧ t_y (chat (press "ArrowRight" (press "ArrowLeft" s))) == t_y (chat s)) ∧
  (t_x (chat (press "ArrowDown" (press "ArrowUp" s))) == t_x (chat s)
     ∧ t_y (chat (press "ArrowDown" (press "ArrowUp" s))) == t_y (chat s)).
Proof.
  intros Hmode Hin Hsel step press chat.
  assert (Hpress : ∀ k s0,
    k ∈ ["ArrowUp"; "ArrowDown"; "ArrowLeft"; "ArrowRight"] →
    currentMode s0 = overlayMode →
    selectedElement (selection s0) = chatSelected →
    press k s0 = nudge s0 page (mkKeyEvent k false false false shift)).
  { intros k s0 Hk Hm Hs. unfold press. rewrite onKeyDown_arrow by done.
    by rewrite Hs. }
  assert (Hkeep : ∀ k s0,
    selectedElement (selection s0) = chatSelected →
    currentMode (nudge s0 page (mkKeyEvent k false false false shift)) = currentMode s0
    ∧ selection (nudge s0 page (mkKeyEvent k false false false shift)) = selection s0).
  { intros k s0 Hs. unfold nudge. cbn [key k_shiftKey].
    destruct (arrowDelta k _) as [dx dy]. by rewrite Hs. }
  assert (HL : "ArrowLeft" ∈ ["ArrowUp"; "ArrowDown"; "ArrowLeft"; "ArrowRight"])
    by repeat constructor.
  assert (HR : "ArrowRight" ∈ ["ArrowUp"; "ArrowDown"; "ArrowLeft"; "ArrowRight"])
    by repeat constructor.
  assert (HU : "ArrowUp" ∈ ["ArrowUp"; "ArrowDown"; "ArrowLeft"; "ArrowRight"])
    by repeat constructor.
  assert (HD : "ArrowDown" ∈ ["ArrowUp"; "ArrowDown"; "ArrowLeft"; "ArrowRight"])
    by repeat constructor.
  assert (Hone : ∀ k s0,
    selectedElement (selection s0) = chatSelected →
    chat (nudge s0 page (mkKeyEvent k false false false shift))
    = with_position (t_x (chat s0) + fst (arrowDelta k step))
        (t_y (chat s0) + snd (arrowDelta k step)) (chat s0)).
  { intros k s0 Hs. unfold nudge, chat. cbn [key k_shiftKey]. fold step.
    destruct (arrowDelta k step) as [dx dy]. by rewrite Hs. }
  repeat split.
  - by rewrite Hpress, Hone.
  - by rewrite Hpress, Hone.
  - by rewrite Hpress, Hone.
  - by rewrite Hpress, Hone.
  - by rewrite Hpress, Hone.
  - by rewrite Hpress, Hone.
  - by rewrite Hpress, Hone.
  - by rewrite Hpress, Hone.
  - intros k Hk. by rewrite Hpress, Hone.
  - rewrite (Hpress "ArrowLeft" s) by done.
    destruct (Hkeep "ArrowLeft" s Hsel) as [Hm' Hs'].
    rewrite Hpress, !Hone; [|done|by rewrite Hs'|done|by rewrite Hm'|by rewrite Hs'].
    cbn. lra.
  - rewrite (Hpress "ArrowLeft" s) by done.
    destruct (Hkeep "ArrowLeft" s Hsel) as [Hm' Hs'].
    rewrite Hpress, !Hone; [|done|by rewrite Hs'|done|by rewrite Hm'|by rewrite Hs'].
    cbn. lra.
  - rewrite (Hpress "ArrowUp" s) by done.
    destruct (Hkeep "ArrowUp" s Hsel) as [Hm' Hs'].
    rewrite Hpress, !Hone; [|done|by rewrite Hs'|done|by rewrite Hm'|by rewrite Hs'].
    cbn. lra.
  - rewrite (Hpress "ArrowUp" s) by done.
    destruct (Hkeep "ArrowUp" s Hsel) as [Hm' Hs'].
    rewrite Hpress, !Hone; [|done|by rewrite Hs'|done|by rewrite Hm'|by rewrite Hs'].
    cbn. lra.
Qed.

Lemma arrow_keys_move_chat_witness :
  t_x (chatTransform (overlay
    (onKeyDown chatSelectedSession samplePage (mkKeyEvent "ArrowLeft" false false false true))))
  = t_x (chatTransform (overlay chatSelectedSession)) + - 1.
Proof.
  exact (proj1 (proj1
    (arrow_keys_move_chat chatSelectedSession samplePage true eq_refl eq_refl eq_refl))).
Defined.

(** With line [i] selected, in overlay mode and outside text inputs, an arrow
    key moves that line by 10px, or by 1px with Shift, from its stored
    position, or from the origin (0, 0) when it has none; the other lines, the
    stored widths, the chat block and the selection stay. *)
Theorem arrow_keys_move_line (s : Session) (page : Page) (shift : bool) (i : nat) :
  currentMode s = overlayMode →
  activeElementIsInput page = false →
  selectedElement (selection s) = lineSelected i →
  let step := (if shift then 1 else 10) : Q in
  let press k := onKeyDown s page (mkKeyEvent k false false false shift) in
  let old := default (mkPoint 0 0) (lineTransforms (overlay s) !! i) in
  let line s := lineTransforms (overlay s) !! i in
  line (press "ArrowLeft") = Some (mkPoint (p_x old + - step) (p_y old + 0)) ∧
  line (press "ArrowRight") = Some (mkPoint (p_x old + step) (p_y old + 0)) ∧
  line (press "ArrowUp") = Some (mkPoint (p_x old + 0) (p_y old + - step)) ∧
  line (press "ArrowDown") = Some (mkPoint (p_x old + 0) (p_y old + step)) ∧
  (∀ k, k ∈ ["ArrowUp"; "ArrowDown"; "ArrowLeft"; "ArrowRight"] →
     (∀ j, j ≠ i →
        lineTransforms (overlay (press k)) !! j = lineTransforms (overlay s) !! j) ∧
     lineMaxWidths (press k) = lineMaxWidths s ∧
     chatTransform (overlay (press k)) = chatTransform (overlay s) ∧
     selection (press k) = selection s).
Proof.
  intros Hmode Hin Hsel step press old line.
  assert (Hpress : ∀ k,
    k ∈ ["ArrowUp"; "ArrowDown"; "ArrowLeft"; "ArrowRight"] →
    ∃ s1,
      press k = checkAndShowAlignmentGuides s1 page i
                  (p_x old + fst (arrowDelta k step)) (p_y old + snd (arrowDelta k step))
      ∧ s1 = set_overlay
               (set_lineTransforms
                  (<[i := mkPoint (p_x old + fst (arrowDelta k step))
                            (p_y old + snd (arrowDelta k step))]>
                     (lineTransforms (overlay s))) (overlay s)) s).
  { intros k Hk. eexists. split; [|reflexivity].
    unfold press. rewrite onKeyDown_arrow by done. rewrite Hsel.
    unfold nudge. cbn [key k_shiftKey]. fold step.
    destruct (arrowDelta k step) as [dx dy]. by rewrite Hsel. }
  assert (Hline : ∀ k,
    k ∈ ["ArrowUp"; "ArrowDown"; "ArrowLeft"; "ArrowRight"] →
    line (press k) = Some (mkPoint (p_x old + fst (arrowDelta k step))
                             (p_y old + snd (arrowDelta k step)))).
  { intros k Hk. destruct (Hpress k Hk) as (s1 & -> & ->). unfold line.
    rewrite (proj1 (checkAndShowAlignmentGuides_frame _ _ _ _ _)).
    destruct s as [[] ? ? ? ? ? ? ? ? ?]. cbn. apply lookup_insert_eq. }
  split; [apply (Hline "ArrowLeft"); by repeat constructor|].
  split; [apply (Hline "ArrowRight"); by repeat constructor|].
  split; [apply (Hline "ArrowUp"); by repeat constructor|].
  split; [apply (Hline "ArrowDown"); by repeat constructor|].
  intros k Hk. destruct (Hpress k Hk) as (s1 & -> & ->).
  destruct (checkAndShowAlignmentGuides_frame
              (set_overlay
                 (set_lineTransforms
                    (<[i := mkPoint (p_x old + fst (arrowDelta k step))
                              (p_y old + snd (arrowDelta k step))]>
                       (lineTransforms (overlay s))) (overlay s)) s)
              page i (p_x old + fst (arrowDelta k step))
              (p_y old + snd (arrowDelta k step))) as (Ho & Hw & _ & Hs).
  rewrite Ho, Hw, Hs. destruct s as [[] ? ? ? ? ? ? ? ? ?]. cbn.
  repeat split. intros j Hj. by apply lookup_insert_ne.
Qed.

Lemma arrow_keys_move_line_witness :
  lineTransforms (overlay
    (onKeyDown lineSelectedSession samplePage (mkKeyEvent "ArrowUp" false false false false)))
    !! 1%nat
  = Some (mkPoint (0 + 0) (0 + - 10)).
Proof.
  exact (proj1 (proj2 (proj2
    (arrow_keys_move_line lineSelectedSession samplePage false 1
       eq_refl eq_refl eq_refl)))).
Defined.

End ArrowKeys.

(** ** Layer lookup *)

Section LayerLookup.
Import LayerManager Samples.

(** After any sequence of manager calls in which [updateLayerEffect] and
    [updateSelectedLayerEffect] are never given the key [id], the layer ids
    are pairwise distinct, so [getLayer] with the id of a layer of the stack
    returns that very layer. *)
Theorem getLayer_finds_every_layer (ops : list Op) (l : Layer) :
  keepsIds ops →
  l ∈ layers (run ops) →
  NoDup (id <$> layers (run ops)) ∧ getLayer (run ops) (id l) = Some l.
Proof.
  intros Hk Hin. destruct (idsIssued_run ops Hk) as (_ & Hnd). split; [done|].
  destruct (getLayer_is_Some (run ops) (id l)) as [l' Hl'].
  { by apply list_elem_of_fmap_2. }
  rewrite Hl'. f_equal.
  apply getLayer_Some in Hl' as [Hin' Hid].
  apply list_elem_of_lookup_1 in Hin as [k Hk0].
  apply list_elem_of_lookup_1 in Hin' as [k' Hk'].
  assert (k' = k) as ->; [|congruence].
  eapply (NoDup_lookup _ _ _ (id l) Hnd); rewrite list_lookup_fmap.
  - by rewrite Hk', <- Hid.
  - by rewrite Hk0.
Qed.

Lemma getLayer_finds_every_layer_witness :
  ∃ l, layers (run twoImages) !! 1%nat = Some l
       ∧ getLayer (run twoImages) (id l) = Some l.
Proof.
  eexists. split; [reflexivity|].
  refine (proj2 (getLayer_finds_every_layer twoImages _ _ _)).
  - repeat constructor.
  - apply (list_elem_of_lookup_2 _ 1%nat). reflexivity.
Defined.

End LayerLookup.

(** ** Mouse listeners *)

Section Mouse.
Import ImageOverlay Interaction Samples InteractionSamples.
Local Open Scope Q_scope.

Lemma startLinePan_frame s doc e lw rect :
  selection (stateOf (startLinePan s doc e lw rect)) = selection s ∧
  imagePan (stateOf (startLinePan s doc e lw rect)) = imagePan s ∧
  chatPan (stateOf (startLinePan s doc e lw rect)) = chatPan s ∧
  isLinePanning (linePan (stateOf (startLinePan s doc e lw rect))) = true.
Proof.
  unfold startLinePan. cbn.
  destruct (lineTransforms (overlay s) !! dataset_lineIndex lw); [done|].
  by destruct (imageDropzone doc).
Qed.

Lemma selectElement_frame s el lw add :
  overlay (selectElement s el lw add) = overlay s ∧
  imagePan (selectElement s el lw add) = imagePan s ∧
  chatPan (selectElement s el lw add) = chatPan s ∧
  linePan (selectElement s el lw add) = linePan s.
Proof.
  unfold selectElement.
  destruct add, el, lw; try done.
  by destruct (last _).
Qed.

(** The wrappers the multi-select branch of [selectElement] leaves. *)
Lemma toggled_wrappers (W : list LineWrapper) (lw : LineWrapper) :
  NoDup W →
  let W' := match list_find (λ w, w = lw) W with
            | Some (idx, _) => delete idx W
            | None => W ++ [lw]
            end in
  NoDup W' ∧ (lw ∈ W' ↔ lw ∉ W) ∧ (∀ w, w ≠ lw → w ∈ W' ↔ w ∈ W).
Proof.
  intros Hnd W'. subst W'.
  destruct (list_find _ W) as [[idx x]|] eqn:E.
  - apply list_find_Some in E as (Hidx & -> & _).
    split; [eapply sublist_NoDup; [done|apply sublist_delete]|].
    split.
    + split; [intros Hin; by apply NoDup_delete_lookup in Hin|].
      intros Hnot. exfalso. apply Hnot. eapply list_elem_of_lookup_2, Hidx.
    + intros w Hne. split.
      * intros Hin. eapply elem_of_sublist; [done|apply sublist_delete].
      * intros Hin. by eapply elem_of_delete_ne.
  - apply list_find_None in E. rewrite Forall_forall in E.
    assert (Hnot : lw ∉ W) by (intros Hin; by apply (E lw Hin)).
    split; [apply NoDup_app; split; [done|]; split; [|apply NoDup_singleton]|].
    { intros w Hw ->%list_elem_of_singleton. done. }
    split.
    + split; [done|]. intros _. apply elem_of_app. right. by apply list_elem_of_singleton.
    + intros w Hne. rewrite elem_of_app, list_elem_of_singleton.
      split; [intros [?|?]; done|by left].
Qed.

Lemma selectElement_primaryIsLast s lw add :
  primaryIsLast (selection s) →
  primaryIsLast
    (selection (selectElement s (lineSelected (dataset_lineIndex lw)) (Some lw) add)).
Proof.
  intros (Hnd & _ & _). unfold selectElement. destruct add.
  - destruct (toggled_wrappers _ lw Hnd) as (Hnd' & _ & _).
    destruct (last _) as [primary|] eqn:Hlast; cbn; unfold primaryIsLast; cbn;
      rewrite Hlast; done.
  - cbn. unfold primaryIsLast. cbn. split; [apply NoDup_singleton|done].
Qed.

Lemma selectElement_none_primaryIsLast s el :
  el = noSelection ∨ el = chatSelected →
  primaryIsLast (selection (selectElement s el None false)).
Proof.
  intros [-> | ->]; cbn; unfold primaryIsLast; cbn;
    (split; [apply NoDup_nil_2|done]).
Qed.

(** A press of the mouse button on the dropzone keeps the selection fields
    in agreement: no wrapper element is held twice in
    [selectedLineWrappers], the primary wrapper is the last of them, and the
    selected element, on which the arrow keys act, is that wrapper's line
    index (no line when no wrapper is selected). *)
Theorem onMouseDown_selection_consistent (s : Session) (page : Page)
    (e : MouseEvent) (clickedLine : option (LineWrapper * Point)) (insideChat : bool) :
  primaryIsLast (selection s) →
  primaryIsLast (selection (stateOf (onMouseDown s page e clickedLine insideChat))).
Proof.
  intros Hs. unfold onMouseDown.
  destruct (overlayImage (document page)); [|done].
  destruct clickedLine as [[lw rect]|].
  - destruct (isLineDraggingEnabled s).
    + destruct (m_shiftKey e || m_ctrlKey e || m_metaKey e).
      * by apply selectElement_primaryIsLast.
      * rewrite (proj1 (startLinePan_frame _ _ _ _ _)).
        by apply selectElement_primaryIsLast.
    + destruct (isImageDraggingEnabled (overlay s)); [|done].
      apply (selectElement_none_primaryIsLast s noSelection). by left.
  - destruct (_ && isChatDraggingEnabled (overlay s)).
    + apply (selectElement_none_primaryIsLast s chatSelected). by right.
    + destruct (isImageDraggingEnabled (overlay s)); [|done].
      apply (selectElement_none_primaryIsLast s noSelection). by left.
Qed.

Lemma onMouseDown_selection_consistent_witness :
  primaryIsLast
    (selection (stateOf
       (onMouseDown lineSelectedSession samplePage (shiftAt 10 10)
          (Some (lineA, mkPoint 5 5)) true))).
Proof.
  apply onMouseDown_selection_consistent.
  split; [apply NoDup_singleton|]. split; reflexivity.
Defined.

Lemma selectElement_toggled s lw :
  selectedLineWrappers
    (selection (selectElement s (lineSelected (dataset_lineIndex lw)) (Some lw) true))
  = match list_find (λ w, w = lw) (selectedLineWrappers (selection s)) with
    | Some (idx, _) => delete idx (selectedLineWrappers (selection s))
    | None => selectedLineWrappers (selection s) ++ [lw]
    end.
Proof. unfold selectElement. by destruct (last _). Qed.

(** A click on a line wrapper with Shift, Ctrl or Meta held, while line
    dragging is enabled and an image is shown, starts no drag and moves
    nothing: it only toggles that wrapper element in
    [selectedLineWrappers] and leaves the other wrapper elements.  When
    every selected wrapper with the clicked line's index is the clicked
    element itself (no re-render has replaced the wrappers since), this
    toggles the line: its index is among the selected ones afterwards
    exactly when it was not before. *)
Theorem modifier_click_toggles_line (s : Session) (page : Page) (e : MouseEvent)
    (lw : LineWrapper) (rect : Point) (insideChat : bool) :
  is_Some (overlayImage (document page)) →
  isLineDraggingEnabled s = true →
  m_shiftKey e || m_ctrlKey e || m_metaKey e = true →
  NoDup (selectedLineWrappers (selection s)) →
  ∃ s', onMouseDown s page e (Some (lw, rect)) insideChat = Returned s' ∧
    overlay s' = overlay s ∧
    imagePan s' = imagePan s ∧ chatPan s' = chatPan s ∧ linePan s' = linePan s ∧
    (lw ∈ selectedLineWrappers (selection s')
       ↔ lw ∉ selectedLineWrappers (selection s)) ∧
    (∀ w, w ≠ lw →
       w ∈ selectedLineWrappers (selection s')
       ↔ w ∈ selectedLineWrappers (selection s)) ∧
    ((∀ w, w ∈ selectedLineWrappers (selection s) →
           dataset_lineIndex w = dataset_lineIndex lw → w = lw) →
     (dataset_lineIndex lw ∈ dataset_lineIndex <$> selectedLineWrappers (selection s')
        ↔ dataset_lineIndex lw
            ∉ dataset_lineIndex <$> selectedLineWrappers (selection s))).
Proof.
  intros [img Himg] Hdrag Hmod Hnd. unfold onMouseDown.
  rewrite Himg, Hdrag, Hmod. eexists. split; [reflexivity|].
  destruct (selectElement_frame s (lineSelected (dataset_lineIndex lw)) (Some lw) true)
    as (-> & -> & -> & ->).
  do 4 (split; [done|]).
  destruct (toggled_wrappers _ lw Hnd) as (_ & Hlw & Hother).
  rewrite selectElement_toggled.
  split; [exact Hlw|]. split; [exact Hother|].
  intros Hcur. split.
  - intros (w & Hidx & Hw)%list_elem_of_fmap (w0 & Hidx0 & Hw0)%list_elem_of_fmap.
    assert (w0 = lw) as -> by (by apply Hcur).
    destruct (decide (w = lw)) as [->|Hne].
    + by apply Hlw in Hw.
    + apply (Hother w Hne) in Hw. apply Hne. by apply Hcur.
  - intros Hnot. apply list_elem_of_fmap_2. apply Hlw.
    intros Hin. apply Hnot. by apply list_elem_of_fmap_2.
Qed.

Lemma modifier_click_toggles_line_witness :
  ∃ s', onMouseDown lineSelectedSession samplePage (shiftAt 10 10)
          (Some (lineA, mkPoint 5 5)) true = Returned s' ∧
        (lineA ∈ selectedLineWrappers (selection s')
           ↔ lineA ∉ selectedLineWrappers (selection lineSelectedSession)).
Proof.
  destruct (modifier_click_toggles_line lineSelectedSession samplePage (shiftAt 10 10)
              lineA (mkPoint 5 5) true) as (s' & Hs' & _ & _ & _ & _ & Hlw & _).
  - by eexists.
  - reflexivity.
  - reflexivity.
  - apply NoDup_singleton.
  - exists s'. by split.
Defined.

(** From a state with no drag in progress, a press starts at most one of the
    three drags; a release ends whatever drag is in progress, hides the
    alignment guides and leaves positions and selection as they are, and the
    pointer moves that follow change nothing. *)
Theorem mouse_drag_lifecycle (s : Session) (page : Page) (e e' : MouseEvent)
    (clickedLine : option (LineWrapper * Point)) (insideChat : bool) :
  idle s →
  let pressed := stateOf (onMouseDown s page e clickedLine insideChat) in
  let released := onMouseUp pressed in
  isPanning (imagePan pressed) && isChatPanning (chatPan pressed) = false ∧
  isPanning (imagePan pressed) && isLinePanning (linePan pressed) = false ∧
  isChatPanning (chatPan pressed) && isLinePanning (linePan pressed) = false ∧
  idle released ∧
  overlay released = overlay pressed ∧
  selection released = selection pressed ∧
  (¬ idle pressed → guides released = mkGuides None None) ∧
  onMouseMove released page e' = released.
Proof.
  intros (Hi & Hc & Hl) pressed released.
  assert (Hup : ∀ s0, idle (onMouseUp s0) ∧ overlay (onMouseUp s0) = overlay s0
                      ∧ selection (onMouseUp s0) = selection s0
                      ∧ (¬ idle s0 → guides (onMouseUp s0) = mkGuides None None)).
  { intros s0. unfold onMouseUp, idle.
    destruct (isPanning (imagePan s0)) eqn:E1,
             (isChatPanning (chatPan s0)) eqn:E2,
             (isLinePanning (linePan s0)) eqn:E3; cbn; rewrite ?E1, ?E2, ?E3;
      repeat split; try done.
    intros H. exfalso. by apply H. }
  assert (Hflags :
    isPanning (imagePan pressed) && isChatPanning (chatPan pressed) = false ∧
    isPanning (imagePan pressed) && isLinePanning (linePan pressed) = false ∧
    isChatPanning (chatPan pressed) && isLinePanning (linePan pressed) = false).
  { subst pressed. unfold onMouseDown.
    destruct (overlayImage (document page)); [|cbn [stateOf]; by rewrite Hi, Hc].
    destruct clickedLine as [[lw rect]|].
    - destruct (isLineDraggingEnabled s).
      + destruct (m_shiftKey e || m_ctrlKey e || m_metaKey e).
        * cbn [stateOf].
          destruct (selectElement_frame s (lineSelected (dataset_lineIndex lw))
                      (Some lw) true) as (_ & -> & -> & ->).
          by rewrite Hi, Hc.
        * destruct (startLinePan_frame
                      (selectElement s (lineSelected (dataset_lineIndex lw)) (Some lw) false)
                      (document page) e lw rect) as (_ & -> & -> & _).
          cbn. by rewrite Hi, Hc.
      + destruct (isImageDraggingEnabled (overlay s)); cbn; by rewrite ?Hi, ?Hc, ?Hl.
    - destruct (_ && isChatDraggingEnabled (overlay s)); cbn; [by rewrite Hi, Hl|].
      destruct (isImageDraggingEnabled (overlay s)); cbn; by rewrite ?Hi, ?Hc, ?Hl. }
  destruct Hflags as (F1 & F2 & F3).
  destruct (Hup pressed) as (Hidle & Ho & Hsel & Hg).
  do 7 (split; [done|]).
  destruct Hidle as (R1 & R2 & R3). unfold onMouseMove.
  fold released in R1, R2, R3. by rewrite R1, R2, R3.
Qed.

Lemma mouse_drag_lifecycle_witness :
  idle (onMouseUp (stateOf
    (onMouseDown sampleSession samplePage (pressAt 10 10) None true))).
Proof.
  apply (mouse_drag_lifecycle sampleSession samplePage (pressAt 10 10) (pressAt 20 20)
           None true).
  repeat split.
Defined.

End Mouse.

(** ** Curly apostrophes *)

Section CurlyApostrophes.
Import ParserUtils.
Local Open Scope N_scope.

Lemma replaceFirst_fresh (c d : N) (p q : JSString) :
  c ∉ p → replaceFirst c d (p ++ c :: q) = p ++ d :: q.
Proof.
  induction p as [|x p IH]; intros Hnot; cbn.
  - by rewrite decide_True.
  - apply not_elem_of_cons in Hnot as [Hne Hnot].
    rewrite decide_False by done. by rewrite IH.
Qed.

Lemma curly_loop (q p : JSString) :
  Forall (λ c, isCurlyCode c = false) p →
  fold_left
    (λ result c, if isCurlyCode c then replaceFirst c apostrophe result else result)
    q (p ++ q)
  = p ++ ((λ c, if isCurlyCode c then apostrophe else c) <$> q).
Proof.
  revert p. induction q as [|x q IH]; intros p Hp; [done|].
  cbn [fold_left fmap list_fmap].
  destruct (isCurlyCode x) eqn:Hx.
  - rewrite replaceFirst_fresh.
    + rewrite (cons_middle apostrophe p q), app_assoc, IH.
      * by rewrite <- app_assoc.
      * apply Forall_app. split; [done|]. by repeat constructor.
    + intros Hin. rewrite Forall_forall in Hp. specialize (Hp x Hin). congruence.
  - rewrite (cons_middle x p q), app_assoc, IH.
    + by rewrite <- app_assoc.
    + apply Forall_app. split; [done|]. by repeat constructor.
Qed.

(** [replaceCurlyApostrophes] works code unit by code unit: the loop that
    replaces first occurrences, followed by the class replacement, turns
    every quote mark U+2018 to U+201B, U+2032 and U+2035 into an apostrophe
    and leaves every other code unit, and so the length, as it is. *)
Theorem replaceCurlyApostrophes_pointwise (text : JSString) :
  replaceCurlyApostrophes text = straightened <$> text
  ∧ length (replaceCurlyApostrophes text) = length text.
Proof.
  assert (H : replaceCurlyApostrophes text = straightened <$> text).
  { unfold replaceCurlyApostrophes.
    pose proof (curly_loop text [] (Forall_nil_2 _)) as Hloop.
    cbn [app] in Hloop. rewrite Hloop.
    rewrite <- list_fmap_compose. apply list_fmap_ext. intros _ c _. cbn.
    unfold straightened, isCurlyCode, inQuoteClass, apostrophe.
    destruct (N.leb_spec 8216 c), (N.leb_spec c 8219); cbn;
      repeat match goal with
             | |- context [N.eqb ?a ?b] => destruct (N.eqb_spec a b); cbn
             end;
      destruct (decide _) as [Hd|Hd]; try done; try lia. }
  split; [exact H|]. by rewrite H, length_fmap.
Qed.

End CurlyApostrophes.

(** ** The rate limiter *)

Section RateLimit.
Import BugReport.
Local Open Scope Z_scope.

Lemma serve_snoc (reqs : list Request) (r : Request) :
  serve (reqs ++ [r])
  = (fst (serve reqs)
       ++ [mkServed r (fst (allowRequest (snd (serve reqs)) (at_time r) (by_key r)))],
     snd (allowRequest (snd (serve reqs)) (at_time r) (by_key r))).
Proof.
  unfold serve. rewrite fold_left_app. cbn [fold_left].
  by destruct (allowRequest _ _ _).
Qed.

Lemma allowedTimes_snoc key history sv :
  allowedTimes key (history ++ [sv])
  = allowedTimes key history
    ++ (if decide (allowed sv = true ∧ by_key (request sv) = key)
        then [at_time (request sv)] else []).
Proof.
  unfold allowedTimes. rewrite filter_app, fmap_app. f_equal.
  cbn. by destruct (decide _).
Qed.

Lemma filter_later (ws ws' : Z) (l : list Z) :
  ws' ≤ ws →
  filter (λ t, ws < t) (filter (λ t, ws' < t) l) = filter (λ t, ws < t) l.
Proof.
  intros Hle. rewrite list_filter_filter. apply list_filter_iff. intros t. lia.
Qed.

Lemma neverBack_snoc (times : list Z) (t : Z) :
  neverBack (times ++ [t]) → neverBack times ∧ ∀ a, a ∈ times → a ≤ t.
Proof.
  intros H. split.
  - intros i j a b Hij Ha Hb. apply (H i j); [done|by apply lookup_app_l_Some..].
  - intros a (i & Hi)%list_elem_of_lookup_1.
    apply (H i (length times)).
    + apply lookup_lt_Some in Hi. lia.
    + by apply lookup_app_l_Some.
    + by rewrite list_lookup_middle.
Qed.

(** What the log holds: for every window start not before the window of the
    last request, the logged times in the window are the allowed ones. *)
Lemma serve_log (reqs : list Request) (key : string) (ws : Z) :
  neverBack (at_time <$> reqs) →
  (∀ r, r ∈ reqs → at_time r - RATE_WINDOW_MS ≤ ws) →
  filter (λ t, ws < t) (default [] (snd (serve reqs) !! key))
  = filter (λ t, ws < t) (allowedTimes key (fst (serve reqs))).
Proof.
  revert ws. induction reqs as [|r reqs IH] using rev_ind; intros ws Hclock Hws.
  { unfold serve. cbn [fold_left fst snd]. by rewrite lookup_empty. }
  rewrite fmap_app in Hclock. apply neverBack_snoc in Hclock as [Hclock Hlast].
  rewrite serve_snoc. cbn [fst snd]. rewrite allowedTimes_snoc. cbn [allowed request].
  assert (Hws' : ∀ r', r' ∈ reqs → at_time r' - RATE_WINDOW_MS ≤ ws).
  { intros r' Hr'. apply Hws, elem_of_app. by left. }
  assert (Hr : at_time r - RATE_WINDOW_MS ≤ ws).
  { apply Hws, elem_of_app. right. by apply list_elem_of_singleton. }
  assert (Hprev : ∀ r', r' ∈ reqs → at_time r' - RATE_WINDOW_MS ≤ at_time r - RATE_WINDOW_MS).
  { intros r' Hr'. pose proof (Hlast (at_time r') (list_elem_of_fmap_2 _ _ _ Hr')). lia. }
  unfold allowRequest.
  destruct (decide (RATE_MAX ≤ length _)%nat) as [Hfull|Hroom]; cbn [fst snd].
  - rewrite decide_False by (intros [? ?]; done).
    rewrite app_nil_r. by apply IH.
  - destruct (decide (by_key r = key)) as [<-|Hne].
    + rewrite lookup_insert_eq. cbn [default from_option id].
      rewrite decide_True by done.
      rewrite !filter_app, filter_later by done. f_equal. by apply IH.
    + rewrite lookup_insert_ne by done.
      rewrite decide_False by (intros [? ?]; done).
      rewrite app_nil_r. by apply IH.
Qed.

(** While the clock never goes back, the limiter is an exact sliding window:
    a request of a key is allowed exactly when fewer than five requests of
    that key were allowed during the sixty seconds before it. *)
Theorem allowRequest_sliding_window (reqs : list Request) (now : Z) (key : string) :
  neverBack ((at_time <$> reqs) ++ [now]) →
  fst (allowRequest (snd (serve reqs)) now key)
  = bool_decide
      (length (filter (λ t, (now - 60000 < t)%Z) (allowedTimes key (fst (serve reqs))))
       < 5)%nat.
Proof.
  intros [Hclock Hlast]%neverBack_snoc.
  rewrite <- (serve_log reqs key (now - 60000) Hclock).
  - unfold allowRequest, RATE_WINDOW_MS, RATE_MAX.
    destruct (decide (5 ≤ length _)%nat) as [Hfull|Hroom]; cbn [fst].
    + by rewrite bool_decide_false by lia.
    + by rewrite bool_decide_true by lia.
  - intros r Hr. pose proof (Hlast (at_time r) (list_elem_of_fmap_2 _ _ _ Hr)).
    unfold RATE_WINDOW_MS. lia.
Qed.

Lemma allowRequest_sliding_window_witness :
  fst (allowRequest (snd (serve burst)) 1500 "session") = false.
Proof.
  rewrite (allowRequest_sliding_window burst 1500 "session"); [reflexivity|].
  intros i j a b Hij Ha Hb.
  do 6 (destruct i as [|i]; [injection Ha as <-;
          do 6 (destruct j as [|j]; [injection Hb as <-; lia|]); done|]).
  done.
Defined.

End RateLimit.

(** ** The dropzone size *)

Section DropzoneSize.
Import LayerUI.
Local Open Scope Q_scope.

Lemma Math_round_bounds (x : Q) :
  inject_Z (Math_round x) <= x + (1 # 2) ∧ x - (1 # 2) < inject_Z (Math_round x).
Proof.
  unfold Math_round.
  pose proof (Qfloor_le (x + (1 # 2))) as Hle.
  pose proof (Qlt_floor (x + (1 # 2))) as Hlt.
  rewrite inject_Z_plus in Hlt. change (inject_Z 1) with 1 in Hlt.
  split; lra.
Qed.

Lemma Math_round_le_int (x : Q) (n : Z) :
  x <= inject_Z n → inject_Z (Math_round x) <= inject_Z n.
Proof.
  intros Hx. rewrite <- Zle_Qle.
  destruct (Math_round_bounds x) as [Hle _].
  assert (Hlt : (Math_round x < n + 1)%Z); [|lia].
  rewrite Zlt_Qlt, inject_Z_plus. change (inject_Z 1) with 1. lra.
Qed.

Lemma maxHeightOf_large (v : Viewport) : 400 <= maxHeightOf v.
Proof. unfold maxHeightOf, JS.Math_max. apply Q.le_max_l. Qed.

(** With a dropzone, positive export dimensions and a positive available
    width, [updateDropzoneSize] never enlarges: the new size is at most the
    export size; it fits the available width and height up to the half
    pixel of rounding; and it keeps the export aspect ratio up to that
    rounding.  Without a dropzone it sets nothing. *)
Theorem updateDropzoneSize_fits (v : Viewport) :
  let width := inject_Z (parsedOr (exportWidth v) 1920) in
  let height := inject_Z (parsedOr (exportHeight v) 1080) in
  (hasDropzone v = true → 0 < width → 0 < height → 0 < maxWidthOf v →
   ∃ newWidth newHeight,
     updateDropzoneSize v = Some (newWidth, newHeight) ∧
     newWidth <= width ∧ newHeight <= height ∧
     newWidth <= maxWidthOf v + (1 # 2) ∧
     newHeight <= maxHeightOf v + (1 # 2) ∧
     Qabs (newWidth * height - newHeight * width) <= Qmax width height * (1 # 2)) ∧
  (hasDropzone v = false → updateDropzoneSize v = None).
Proof.
  intros width height. split; [|intros Hdz; unfold updateDropzoneSize; by rewrite Hdz].
  intros Hdz Hw Hh Hmw. unfold updateDropzoneSize. rewrite Hdz.
  fold width height.
  pose proof (maxHeightOf_large v) as Hmh.
  set (mw := maxWidthOf v) in *. set (mh := maxHeightOf v) in *.
  pose proof (Q.le_max_l width height) as Hmaxw.
  pose proof (Q.le_max_r width height) as Hmaxh.
  set (big := Qmax width height) in *.
  unfold widthLimits. fold width height.
  destruct (Qeq_bool mw 0) eqn:Ezero; [apply Qeq_bool_eq in Ezero; lra|].
  destruct (JS.gt (width / mw) (height / mh)) eqn:Ebranch.
  - (* the width limits *)
    apply lt_true in Ebranch.
    assert (Hcross : height * mw < width * mh).
    { apply (Qmult_lt_r _ _ (mw * mh)) in Ebranch; [|nra].
      assert (E1 : height / mh * (mw * mh) == height * mw) by (field; lra).
      assert (E2 : width / mw * (mw * mh) == width * mh) by (field; lra).
      rewrite E1, E2 in Ebranch. exact Ebranch. }
    set (nw := JS.Math_min width mw).
    assert (Hnw : nw <= width ∧ nw <= mw).
    { unfold nw, JS.Math_min. split; [apply Q.le_min_l|apply Q.le_min_r]. }
    destruct Hnw as [Hnw1 Hnw2].
    set (x := nw / (width / height)).
    assert (Ex : x * width == nw * height) by (unfold x; field; lra).
    destruct (Math_round_bounds x) as [Hr1 Hr2].
    assert (Hxh : x <= height) by nra.
    assert (Hxm : x < mh) by nra.
    eexists nw, (inject_Z (Math_round x)). split; [reflexivity|].
    split; [done|]. split; [by apply Math_round_le_int|].
    split; [lra|]. split; [lra|].
    apply Qabs_Qle_condition. split; nra.
  - (* the height limits *)
    apply lt_false in Ebranch.
    assert (Hcross : width * mh <= height * mw).
    { apply (Qmult_le_r _ _ (mw * mh)) in Ebranch; [|nra].
      assert (E1 : height / mh * (mw * mh) == height * mw) by (field; lra).
      assert (E2 : width / mw * (mw * mh) == width * mh) by (field; lra).
      rewrite E1, E2 in Ebranch. exact Ebranch. }
    set (nh := JS.Math_min height mh).
    assert (Hnh : nh <= height ∧ nh <= mh).
    { unfold nh, JS.Math_min. split; [apply Q.le_min_l|apply Q.le_min_r]. }
    destruct Hnh as [Hnh1 Hnh2].
    set (x := nh * (width / height)).
    assert (Ex : x * height == nh * width) by (unfold x; field; lra).
    destruct (Math_round_bounds x) as [Hr1 Hr2].
    assert (Hxw : x <= width) by nra.
    assert (Hxm : x <= mw) by nra.
    eexists (inject_Z (Math_round x)), nh. split; [reflexivity|].
    split; [by apply Math_round_le_int|]. split; [done|].
    split; [lra|]. split; [lra|].
    apply Qabs_Qle_condition. split; nra.
Qed.

Lemma updateDropzoneSize_fits_witness :
  ∃ newWidth newHeight,
    updateDropzoneSize sampleViewport = Some (newWidth, newHeight) ∧
    newWidth <= 1280 ∧ newHeight <= 720.
Proof.
  destruct (proj1 (updateDropzoneSize_fits sampleViewport))
    as (nw & nh & E & Hw & Hh & _); try reflexivity.
  exists nw, nh. split; [exact E|]. split; [exact Hw|exact Hh].
Defined.

End DropzoneSize.
